(** * Fusis control plane: Catalog state, FSM engine, VIP provider and
    cluster coordinator, embedded from the Go sources.

    Layout
    - [Destination], [Service]   the API records and typed errors
    - [ipvs]       the Catalog ([FusisState]) of src/ipvs/state.go
    - [world]      external calls (network interface, IPVS, raft, serf, clock)
    - [provider]   [None.SyncVIPs] (second half of src/ipvs/state.go)
    - [engine]     [Command], [Apply], [Snapshot], [Restore]
    - [fusis]      [Balancer]: state watcher, leader watcher, leave, shutdown
    - [sched]      the raft goroutine and the state watcher on their channels
    - [examples]   concrete ids, environments and Catalogs
    - the vocabulary of the statements, then the properties. *)

From Stdlib Require Import ZArith.
From stdpp Require Import gmap strings list fin_maps.

Local Open Scope Z_scope.

(** ** API types (package api/types) *)

(** Modelled from the spec: package api/types is not among the sources.  The
    fields are the attributes that section 3 of the design lists (name, host,
    port, protocol, scheduling method; name, host, port, weight, mode,
    service-id) under the names the Go code reads them by. *)
Module Destination.
Record t : Type := mk {
  Name : string;
  Host : string;
  Port : Z;
  Weight : Z;
  Mode : string;
  ServiceId : string
}.
(** Go's zero value, what a map read of a missing key returns. *)
Definition zero : t := mk "" "" 0 0 "" "".
End Destination.

Module Service.
Record t : Type := mk {
  Name : string;
  Host : string;
  Port : Z;
  Protocol : string;
  Scheduler : string;
  Destinations : list Destination.t
}.
Definition zero : t := mk "" "" 0 "" "" [].
(** [svc.Destinations = dsts] on a local copy. *)
Definition with_Destinations (dsts : list Destination.t) (svc : t) : t :=
  mk (Name svc) (Host svc) (Port svc) (Protocol svc) (Scheduler svc) dsts.
End Service.

#[global] Instance Destination_eq_dec : EqDecision Destination.t.
Proof. solve_decision. Defined.
#[global] Instance Service_eq_dec : EqDecision Service.t.
Proof. solve_decision. Defined.

(** Go's [error] values: the two sentinels of api/types, errors built by
    [fmt.Errorf], and errors handed back by an external call. *)
Inductive error : Type :=
| ErrServiceNotFound
| ErrDestinationNotFound
| Errorf (msg : string)
| SysErr (msg : string).

#[global] Instance error_eq_dec : EqDecision error.
Proof. solve_decision. Defined.

(** [err.Error()], what the [%s] and [%v] verbs print for an error. *)
Definition error_text (e : error) : string :=
  match e with
  | ErrServiceNotFound => "service not found"
  | ErrDestinationNotFound => "destination not found"
  | Errorf msg => msg
  | SysErr msg => msg
  end.

(** The [GetId] methods of [types.Service] and [types.Destination] live in
    api/types as well; the Catalog only needs that each record has a
    deterministic string key, so they are an interface here. *)
Class Identity : Type := {
  Service_GetId : Service.t -> string;
  Destination_GetId : Destination.t -> string
}.

(** Go leaves the order of [for ... range m] over a map unspecified.  The
    order is an oracle: any enumeration of the entries, each exactly once. *)
Class MapRange : Type := {
  range : forall {V : Type}, gmap string V -> list (string * V);
  range_perm : forall (V : Type) (m : gmap string V), range m ≡ₚ map_to_list m
}.

(** ** The Catalog (src/ipvs/state.go) *)

Module ipvs.

Record FusisState : Type := mkFusisState {
  Services : gmap string Service.t;
  Destinations : gmap string Destination.t
}.

Definition NewFusisState : FusisState := mkFusisState ∅ ∅.

Section State.
Context {ids : Identity} {order : MapRange}.

(** [getDestinations(svc)]: scan the destinations map, keep the entries
    whose ServiceId is the id of [svc], store them in the copy. *)
Definition getDestinations (s : FusisState) (svc : Service.t) : Service.t :=
  let dsts :=
    filter (fun d => Destination.ServiceId d = Service_GetId svc)
           ((range (Destinations s)).*2) in
  Service.with_Destinations dsts svc.

(** The getters have a pointer receiver; they hand the Catalog back next to
    their result so that what they leave of it can be stated. *)
Definition GetServices (s : FusisState) : list Service.t * FusisState :=
  (getDestinations s <$> (range (Services s)).*2, s).

Definition GetService (name : string) (s : FusisState)
  : (Service.t + error) * FusisState :=
  let svc := default Service.zero (Services s !! name) in
  if decide (Service.Name svc = "") then (inr ErrServiceNotFound, s)
  else (inl (getDestinations s svc), s).

Definition AddService (svc : Service.t) (s : FusisState) : FusisState :=
  mkFusisState (<[Service_GetId svc := svc]> (Services s)) (Destinations s).

Definition DeleteService (svc : Service.t) (s : FusisState) : FusisState :=
  mkFusisState (delete (Service_GetId svc) (Services s)) (Destinations s).

Definition GetDestination (name : string) (s : FusisState)
  : (Destination.t + error) * FusisState :=
  let dst := default Destination.zero (Destinations s !! name) in
  if decide (Destination.Name dst = "") then (inr ErrDestinationNotFound, s)
  else (inl dst, s).

Definition AddDestination (dst : Destination.t) (s : FusisState) : FusisState :=
  mkFusisState (Services s) (<[Destination_GetId dst := dst]> (Destinations s)).

Definition DeleteDestination (dst : Destination.t) (s : FusisState) : FusisState :=
  mkFusisState (Services s) (delete (Destination_GetId dst) (Destinations s)).

End State.
End ipvs.

(** ** The world outside the process

    Everything the coordinator asks of its collaborators is a call: the
    network interface, the kernel IPVS table, the provider behind its
    interface, raft, serf, the clock, the mutexes and the logger.  A run
    records the calls in order; what a call answers is decided by the
    environment from the calls made so far. *)

Module world.
Import ipvs.

Inductive raft_state : Type := Follower | Candidate | Leader | Stopped.

Inductive mutex : Type := BalancerMu | EngineMu.

Inductive call : Type :=
| net_GetFusisVipsIps (iface : string)
| net_AddIp (cidr iface : string)
| net_DelIp (cidr iface : string)
| net_DelVips (iface : string)
| Ipvs_SyncState (state : FusisState)
| Provider_SyncVIPs (state : FusisState)
| raft_State
| raft_AddPeer (addr : string)
| raft_RemovePeer (addr : string)
| raft_Shutdown
| raftPeers_Peers
| raftPeers_SetPeers (peers : list string)
| raftStore_Close
| serf_Leave
| serf_Shutdown
| time_Now
| time_Sleep (d : Z)
| Lock (m : mutex)
| Unlock (m : mutex)
| logger_Error (msg : string)
| logger_Warn (msg : string).

(** What a call hands back: [None] is Go's nil error. *)
Definition answer (c : call) : Type :=
  match c with
  | net_GetFusisVipsIps _ | raftPeers_Peers => (list string + error)%type
  | net_AddIp _ _ | net_DelIp _ _ | net_DelVips _
  | Ipvs_SyncState _ | Provider_SyncVIPs _
  | raft_AddPeer _ | raft_RemovePeer _ | raft_Shutdown
  | raftPeers_SetPeers _ | raftStore_Close
  | serf_Leave | serf_Shutdown => option error
  | raft_State => raft_state
  | time_Now => Z
  | time_Sleep _ | Lock _ | Unlock _ | logger_Error _ | logger_Warn _ => unit
  end.

Class Env : Type := env : list call -> forall c : call, answer c.

(** The process state the goroutines share: the engine's Catalog
    ([e.State], the same object behind [b.engine.State]) and the calls made. *)
Record World : Type := mkWorld {
  State : FusisState;
  trace : list call
}.

Inductive outcome (A : Type) : Type :=
| Ok (a : A)
| Panicked (msg : string).
Arguments Ok {A} a.
Arguments Panicked {A} msg.

Definition M (A : Type) : Type := World -> outcome A * World.

#[global] Instance M_ret : MRet M := fun A a w => (Ok a, w).
#[global] Instance M_bind : MBind M := fun A B f m w =>
  match m w with
  | (Ok a, w') => f a w'
  | (Panicked msg, w') => (Panicked msg, w')
  end.

Definition panic {A : Type} (msg : string) : M A := fun w => (Panicked msg, w).

(** Read and update the shared Catalog. *)
Definition getState : M FusisState := fun w => (Ok (State w), w).
Definition modifyState (f : FusisState -> FusisState) : M unit :=
  fun w => (Ok tt, mkWorld (f (State w)) (trace w)).

Definition sys {E : Env} (c : call) : M (answer c) :=
  fun w => (Ok (env (trace w) c), mkWorld (State w) (trace w ++ [c])).

(** A call made for its effect, its answer dropped. *)
Definition sys_ {E : Env} (c : call) : M unit := _ ← sys c; mret tt.

End world.

(** ** The default provider (package provider, second half of
    src/ipvs/state.go) *)

Module provider.
Import ipvs world.

(** [strings.Join(elems, sep)]. *)
Fixpoint strings_Join (elems : list string) (sep : string) : string :=
  match elems with
  | [] => ""
  | [e] => e
  | e :: rest => e +:+ sep +:+ strings_Join rest sep
  end.

(** The [None] provider; its [ipam] field plays no part in [SyncVIPs]. *)
Record None : Type := mkNone { iface : string }.

Section SyncVIPs.
Context {ids : Identity} {order : MapRange} {E : Env}.

(** [for _, s := range newServices { toAddMap[s.Host] = struct{}{} }] *)
Definition hostsMap (newServices : list Service.t) : gmap string unit :=
  foldl (fun m s => <[Service.Host s := tt]> m) ∅ newServices.

(** The loop over [oldVIPs]: an address that is wanted leaves [toAddMap],
    one that is not joins [toRemove]. *)
Definition splitOld (toAddMap : gmap string unit) (oldVIPs : list string)
  : gmap string unit * list string :=
  foldl (fun '(m, toRemove) ip =>
           match m !! ip with
           | Some _ => (delete ip m, toRemove)
           | Datatypes.None => (m, toRemove ++ [ip])
           end)
        (toAddMap, []) oldVIPs.

(** [for ip := range toAddMap { err := net.AddIp(ip+"/32", n.iface) ... }] *)
Fixpoint addLoop (iface : string) (ips : list string) (errors : list string)
  : M (list string) :=
  match ips with
  | [] => mret errors
  | ip :: rest =>
      err ← sys (net_AddIp (ip +:+ "/32") iface);
      match err with
      | Some e =>
          addLoop iface rest
            (errors ++ ["error adding ip " +:+ ip +:+ ": " +:+ error_text e])
      | Datatypes.None => addLoop iface rest errors
      end
  end.

(** [for _, ip := range toRemove { err := net.DelIp(ip+"/32", n.iface) ... }] *)
Fixpoint delLoop (iface : string) (ips : list string) (errors : list string)
  : M (list string) :=
  match ips with
  | [] => mret errors
  | ip :: rest =>
      err ← sys (net_DelIp (ip +:+ "/32") iface);
      match err with
      | Some e =>
          delLoop iface rest
            (errors ++ ["error deleting ip " +:+ ip +:+ ": " +:+ error_text e])
      | Datatypes.None => delLoop iface rest errors
      end
  end.

Definition SyncVIPs (n : None) (state : FusisState) : M (option error) :=
  r ← sys (net_GetFusisVipsIps (iface n));
  match r with
  | inr err => mret (Some err)
  | inl oldVIPs =>
      let newServices := (GetServices state).1 in
      let '(toAddMap, toRemove) := splitOld (hostsMap newServices) oldVIPs in
      errors ← addLoop (iface n) ((range toAddMap).*1) [];
      errors ← delLoop (iface n) toRemove errors;
      if decide (0 < length errors)%nat
      then mret (Some (Errorf ("multiple errors: " +:+ strings_Join errors " | ")))
      else mret Datatypes.None
  end.

End SyncVIPs.
End provider.

(** ** The replicated state machine (package engine, src/unnamed/part_000) *)

Module engine.
Import ipvs world.

Definition AddServiceOp : Z := 0.
Definition DelServiceOp : Z := 1.
Definition AddDestinationOp : Z := 2.
Definition DelDestinationOp : Z := 3.

(** [Command]: [CommandOp] is an int, the two payloads are pointers and may
    be nil.  The [Response] field is not serialized and never read. *)
Record Command : Type := mkCommand {
  Op : Z;
  Service : option Service.t;
  Destination : option Destination.t
}.

(** [raft.Log], of which [Apply] reads the [Data] bytes only. *)
Record Log : Type := mkLog { Data : string }.

(** encoding/json, as far as the engine uses it: decoding a [Command] from
    the bytes of a log entry and a slice of Services from a snapshot. *)
Class Json : Type := {
  json_Unmarshal_Command : string -> Command + error;
  json_Decode_Services : string -> list Service.t + error
}.

(** *** Goroutines that talk over channels

    [StateCh] is an unbuffered [chan chan error]; the reply channels made by
    [Apply] and [Restore] are unbuffered [chan error].  A goroutine is a
    tree of steps: work on the shared world, making a reply channel, and the
    four blocking channel operations. *)
Definition chan : Type := nat.

Inductive proc (A : Type) : Type :=
| Ret (a : A)
| Do {B : Type} (m : M B) (k : B -> proc A)
| MakeChan (k : chan -> proc A)
| SendStateCh (rsp : chan) (k : proc A)
| RecvStateCh (k : chan -> proc A)
| SendRsp (rsp : chan) (e : option error) (k : proc A)
| RecvRsp (rsp : chan) (k : option error -> proc A).
Arguments Ret {A} a.
Arguments Do {A B} m k.
Arguments MakeChan {A} k.
Arguments SendStateCh {A} rsp k.
Arguments RecvStateCh {A} k.
Arguments SendRsp {A} rsp e k.
Arguments RecvRsp {A} rsp k.

(** Dereferencing a pointer that may be nil. *)
Definition deref {A : Type} (p : option A) : M A :=
  match p with
  | Some a => mret a
  | None => panic "runtime error: invalid memory address or nil pointer dereference"
  end.

(** A getter of the Catalog run on the shared state. *)
Definition withState {A : Type} (f : FusisState -> A * FusisState) : M A :=
  fun w => let '(a, s) := f (State w) in (Ok a, mkWorld s (trace w)).

Section Engine.
Context {ids : Identity} {order : MapRange} {E : Env} {J : Json}.

(** The first half of [Apply]: decode, then the switch on [c.Op].  The
    Catalog methods take a pointer and read through it. *)
Definition applyCommand (l : Log) : M unit :=
  match json_Unmarshal_Command (Data l) with
  | inr err => panic ("failed to unmarshal command: " +:+ error_text err)
  | inl c =>
      if decide (Op c = AddServiceOp) then
        svc ← deref (Service c); modifyState (AddService svc)
      else if decide (Op c = DelServiceOp) then
        svc ← deref (Service c); modifyState (DeleteService svc)
      else if decide (Op c = AddDestinationOp) then
        dst ← deref (Destination c); modifyState (AddDestination dst)
      else if decide (Op c = DelDestinationOp) then
        dst ← deref (Destination c); modifyState (DeleteDestination dst)
      else mret tt
  end.

(** [rsp := make(chan error); e.StateCh <- rsp; return <-rsp] *)
Definition publish : proc (option error) :=
  MakeChan (fun rsp => SendStateCh rsp (RecvRsp rsp (fun e => Ret e))).

Definition Apply (l : Log) : proc (option error) :=
  Do (applyCommand l) (fun _ => publish).

(** [Snapshot] reads the Catalog under the engine's lock; the handle it
    returns holds the slice. *)
Definition Snapshot : M (list Service.t) :=
  _ ← sys (Lock EngineMu);
  services ← withState GetServices;
  _ ← sys (Unlock EngineMu);
  mret services.

(** The two nested loops of [Restore]. *)
Definition restoreServices (services : list Service.t) (s : FusisState)
  : FusisState :=
  foldl (fun s svc =>
           foldl (fun s d => AddDestination d s) (AddService svc s)
                 (Service.Destinations svc))
        s services.

Definition Restore (rc : string) : proc (option error) :=
  match json_Decode_Services rc with
  | inr err => Ret (Some err)
  | inl services =>
      Do (modifyState (restoreServices services)) (fun _ => publish)
  end.

End Engine.
End engine.

(** ** The cluster coordinator (package fusis, src/fusis/balancer.go) *)

Module fusis.
Import ipvs world engine.

Definition time_Second : Z := 1000000000.
Definition time_Millisecond : Z := 1000000.
Definition raftRemoveGracePeriod : Z := 5 * time_Second.

#[global] Instance raft_state_eq_dec : EqDecision raft_state.
Proof. solve_decision. Defined.

(** What the methods below read of a [Balancer]: the interface name from
    the configuration, whether the [serf] and [raftStore] pointers are set,
    and the local address of the raft transport. *)
Record Balancer : Type := mkBalancer {
  interface : string;
  serf : bool;
  raftStore : bool;
  LocalAddr : string
}.

Section Balancer.
Context {ids : Identity} {order : MapRange} {E : Env} {J : Json}.
Variable b : Balancer.

Definition IsLeader : M bool :=
  st ← sys raft_State; mret (bool_decide (st = Leader)).

(** The error of [SyncVIPs] is not bound to anything; [defer b.Unlock()]
    runs after the return value has been computed. *)
Definition handleStateChange : M (option error) :=
  leader ← IsLeader;
  if (leader : bool) then
    st ← getState;
    _ ← sys (Provider_SyncVIPs st);
    st ← getState;
    (sys (Ipvs_SyncState st) : M (option error))
  else
    _ ← sys (Lock BalancerMu);
    st ← getState;
    r ← sys (Ipvs_SyncState st);
    _ ← sys (Unlock BalancerMu);
    mret r.

(** One turn of the [for { select { ... } }] loop of [watchState]. *)
Definition watchState : proc unit :=
  RecvStateCh (fun rsp =>
    Do handleStateChange (fun r => SendRsp rsp r (Ret tt))).

Definition setVips : M unit :=
  st ← getState;
  err ← sys (Provider_SyncVIPs st);
  match err with
  | Some e => sys_ (logger_Error (error_text e))
  | None => mret tt
  end.

Definition flushVips : M unit :=
  err ← sys (net_DelVips (interface b));
  match err with
  | Some e => sys_ (logger_Error (error_text e))
  | None => mret tt
  end.

(** One turn of the loop of [watchLeaderChanges], for the value read from
    [LeaderCh]. *)
Definition onLeaderChange (isLeader : bool) : M unit :=
  _ ← sys (Lock BalancerMu);
  _ ← (if isLeader then (_ ← flushVips; setVips) else flushVips);
  sys_ (Unlock BalancerMu).

(** The loop run over the values that [LeaderCh] delivers. *)
Fixpoint watchLeaderChanges (leaderCh : list bool) : M unit :=
  match leaderCh with
  | [] => mret tt
  | isLeader :: rest => _ ← onLeaderChange isLeader; watchLeaderChanges rest
  end.

(** [raft.ExcludePeer(peers, local)] and its length. *)
Definition numOtherPeers : M (Z + error) :=
  r ← sys raftPeers_Peers;
  match r with
  | inr err => mret (inr err)
  | inl peers =>
      mret (inl (Z.of_nat (length (filter (fun p => p ≠ LocalAddr b) peers))))
  end.

(** The polling loop of [Leave]; [fuel] bounds the number of turns, [None]
    says it ran out.  The result is [numPeers] when the loop is left. *)
Fixpoint leaveWait (fuel : nat) (limit numPeers : Z) : M (option Z) :=
  match fuel with
  | O => mret None
  | S fuel =>
      if decide (numPeers > 0) then
        now ← sys time_Now;
        if decide (now < limit) then
          r ← numOtherPeers;
          match r with
          | inr err =>
              _ ← sys_ (logger_Error
                         ("balancer: failed to check raft peers: " +:+ error_text err));
              mret (Some 0)
          | inl n =>
              if decide (n = 0) then mret (Some n)
              else (_ ← sys (time_Sleep (50 * time_Millisecond));
                    leaveWait fuel limit n)
          end
        else mret (Some numPeers)
      else mret (Some numPeers)
  end.

(** [Leave]; [None] when the polling loop ran out of fuel. *)
Definition Leave (fuel : nat) : M (option unit) :=
  r ← numOtherPeers;
  match r with
  | inr err =>
      _ ← sys_ (logger_Error
                 ("balancer: failed to check raft peers: " +:+ error_text err));
      mret (Some tt)
  | inl numPeers =>
      isLeader ← IsLeader;
      _ ← (if serf b then
             err ← sys serf_Leave;
             match err with
             | Some e =>
                 sys_ (logger_Error
                        ("balancer: failed to leave LAN Serf cluster: " +:+ error_text e))
             | None => mret tt
             end
           else mret tt);
      if negb isLeader then
        now ← sys time_Now;
        let limit := now + raftRemoveGracePeriod in
        r ← leaveWait fuel limit numPeers;
        match r with
        | None => mret None
        | Some numPeers =>
            if decide (numPeers ≠ 0) then
              _ ← sys_ (logger_Warn
                "balancer: failed to leave raft peer set gracefully, timeout");
              mret (Some tt)
            else mret (Some tt)
        end
      else mret (Some tt)
  end.

Definition Shutdown (fuel : nat) : M (option unit) :=
  r ← Leave fuel;
  match r with
  | None => mret None
  | Some _ =>
      _ ← (if serf b then sys serf_Shutdown
           else panic "runtime error: invalid memory address or nil pointer dereference");
      err ← sys raft_Shutdown;
      _ ← match err with
          | Some e =>
              sys_ (logger_Error
                     ("balancer: Error shutting down raft: " +:+ error_text e))
          | None => mret tt
          end;
      _ ← (if raftStore b then (_ ← sys raftStore_Close; mret tt) else mret tt);
      _ ← sys (raftPeers_SetPeers []);
      mret (Some tt)
  end.

End Balancer.
End fusis.

(** ** The raft goroutine and the state watcher, run together

    [Apply] and [Restore] run on raft's goroutine, [watchState] on its own;
    they meet on the unbuffered channels.  A send and the matching receive
    happen together; every such meeting is recorded. *)

Module sched.
Import ipvs world engine.

Inductive comm : Type :=
| Request (rsp : chan)
| Reply (rsp : chan) (e : option error).

Record system : Type := mkSystem {
  fsm : proc (option error);
  watcher : proc unit;
  shared : World;
  nextChan : chan;
  comms : list comm
}.

Inductive status : Type :=
| Running (s : system)
| Returned (r : option error) (s : system)
| Crashed (msg : string) (s : system)
| Blocked (s : system).

(** A step of the watcher on its own; [loop] is the body it starts again
    when a turn is over. *)
Definition stepWatcher (loop : proc unit) (s : system) : status :=
  match watcher s with
  | Ret _ => Running (mkSystem (fsm s) loop (shared s) (nextChan s) (comms s))
  | Do m k =>
      match m (shared s) with
      | (Ok x, w) => Running (mkSystem (fsm s) (k x) w (nextChan s) (comms s))
      | (Panicked msg, w) =>
          Crashed msg (mkSystem (fsm s) (watcher s) w (nextChan s) (comms s))
      end
  | MakeChan k =>
      Running (mkSystem (fsm s) (k (nextChan s)) (shared s) (S (nextChan s)) (comms s))
  | _ => Blocked s
  end.

Definition step (loop : proc unit) (s : system) : status :=
  match fsm s with
  | Ret r => Returned r s
  | Do m k =>
      match m (shared s) with
      | (Ok x, w) => Running (mkSystem (k x) (watcher s) w (nextChan s) (comms s))
      | (Panicked msg, w) =>
          Crashed msg (mkSystem (fsm s) (watcher s) w (nextChan s) (comms s))
      end
  | MakeChan k =>
      Running (mkSystem (k (nextChan s)) (watcher s) (shared s) (S (nextChan s)) (comms s))
  | SendStateCh rsp k =>
      match watcher s with
      | RecvStateCh k' =>
          Running (mkSystem k (k' rsp) (shared s) (nextChan s)
                            (comms s ++ [Request rsp]))
      | _ => stepWatcher loop s
      end
  | RecvRsp rsp k =>
      match watcher s with
      | SendRsp rsp' e k' =>
          if decide (rsp = rsp') then
            Running (mkSystem (k e) k' (shared s) (nextChan s)
                              (comms s ++ [Reply rsp e]))
          else Blocked s
      | _ => stepWatcher loop s
      end
  | RecvStateCh _ | SendRsp _ _ _ => Blocked s
  end.

Fixpoint run (fuel : nat) (loop : proc unit) (s : system) : status :=
  match fuel with
  | O => Running s
  | S fuel =>
      match step loop s with
      | Running s' => run fuel loop s'
      | st => st
      end
  end.

End sched.

(** ** Concrete instances, for closed examples *)

Module examples.
Import ipvs world engine.

(** The Catalog's lookups take a name ([GetService(name)],
    [GetDestination(name)]; [handleAgentLeave] passes the name of the gossip
    member), so the examples key both records by [Name]. *)
Definition byName : Identity :=
  {| Service_GetId := Service.Name; Destination_GetId := Destination.Name |}.

(** One admissible iteration order: the order of [map_to_list]. *)
Definition listOrder : MapRange :=
  {| range := fun V m => map_to_list m;
     range_perm := fun V m => reflexivity (map_to_list m) |}.

(** An environment in which raft reports [st], the interface has [vips]
    bound, the peer store holds [peers], every call succeeds and the clock
    stands still. *)
Definition calmEnv (st : raft_state) (vips peers : list string) : Env :=
  fun _ c =>
    match c as c' return answer c' with
    | net_GetFusisVipsIps _ => inl vips
    | raftPeers_Peers => inl peers
    | net_AddIp _ _ | net_DelIp _ _ | net_DelVips _
    | Ipvs_SyncState _ | Provider_SyncVIPs _
    | raft_AddPeer _ | raft_RemovePeer _ | raft_Shutdown
    | raftPeers_SetPeers _ | raftStore_Close
    | serf_Leave | serf_Shutdown => None
    | raft_State => st
    | time_Now => 0
    | time_Sleep _ | Lock _ | Unlock _ | logger_Error _ | logger_Warn _ => tt
    end.

(** An environment on the leader in which the provider fails to bind an
    address and everything else succeeds. *)
Definition vipFailure : error :=
  Errorf "multiple errors: error adding ip 10.0.0.1: operation not permitted".

Definition vipFailEnv : Env :=
  fun h c =>
    match c as c' return answer c' with
    | Provider_SyncVIPs _ => Some vipFailure
    | c' => calmEnv Leader [] [] h c'
    end.

(** An environment in which the interface has no address bound and
    refuses every new one. *)
Definition addFailEnv : Env :=
  fun h c =>
    match c as c' return answer c' with
    | net_AddIp _ _ => Some (SysErr "operation not permitted")
    | c' => calmEnv Leader [] [] h c'
    end.

(** A clock that advances by what has been slept, and by nothing else. *)
Fixpoint slept (h : list call) : Z :=
  match h with
  | [] => 0
  | time_Sleep d :: h => Z.max 0 d + slept h
  | _ :: h => slept h
  end.

Definition sleepyEnv (st : raft_state) (peers : list string) : Env :=
  fun h c =>
    match c as c' return answer c' with
    | time_Now => slept h
    | c' => calmEnv st [] peers h c'
    end.

(** A decoder given by a table from data to what it decodes to; data that
    is not in the table does not decode. *)
Definition lookupData {A : Type} (tbl : list (string * A)) (data : string)
  : A + error :=
  match list_find (fun p => p.1 = data) tbl with
  | Some (_, (_, a)) => inl a
  | None => inr (SysErr "unexpected end of JSON input")
  end.

Definition tableJson (cmds : list (string * Command))
    (snaps : list (string * list Service.t)) : Json :=
  {| json_Unmarshal_Command := lookupData cmds;
     json_Decode_Services := lookupData snaps |}.

Definition web : Service.t :=
  Service.mk "web" "10.0.0.1" 80 "tcp" "rr" [].
Definition api : Service.t :=
  Service.mk "api" "10.0.0.2" 443 "tcp" "wlc" [].
Definition web1 : Destination.t :=
  Destination.mk "web-1" "192.168.1.10" 8080 1 "nat" "web".
Definition web2 : Destination.t :=
  Destination.mk "web-2" "192.168.1.11" 8080 1 "nat" "web".

(** A Service whose Name is empty. *)
Definition anon : Service.t :=
  Service.mk "" "10.0.0.3" 53 "udp" "rr" [].

Definition demoJson : Json :=
  tableJson [("add web", mkCommand AddServiceOp (Some web) None);
             ("del web", mkCommand DelServiceOp (Some web) None);
             ("add web-1", mkCommand AddDestinationOp None (Some web1));
             ("del web-1", mkCommand DelDestinationOp None (Some web1))]
            [].

(** The Catalog after AddService(web), AddDestination(web-1). *)
Definition webCatalog : FusisState :=
  AddDestination (ids := byName) web1 (AddService (ids := byName) web NewFusisState).

(** The same Catalog after DeleteService(web): web-1 is an orphan. *)
Definition orphaned : FusisState :=
  DeleteService (ids := byName) web webCatalog.

(** A Balancer with everything set up, at 10.0.0.1, and a peer store that
    lists it next to one other node. *)
Definition node : fusis.Balancer :=
  fusis.mkBalancer "eth0" true true "10.0.0.1:4040".
Definition twoPeers : list string := ["10.0.0.1:4040"; "10.0.0.2:4040"].

End examples.

(** ** Calls and answers, in general

    The code below talks to collaborators that the world above does not
    list (a snapshot sink, the libraries used at start-up, the etcd client).
    Each gets its own type of calls; a computation reads the answers from an
    oracle and records the calls it makes, as [M] does. *)

Module effects.
Import world.

Definition Eff (C : Type) (R : C -> Type) (A : Type) : Type :=
  (list C -> forall c : C, R c) -> list C -> outcome A * list C.

#[global] Instance Eff_ret (C : Type) (R : C -> Type) : MRet (Eff C R) :=
  fun A a _ h => (Ok a, h).
#[global] Instance Eff_bind (C : Type) (R : C -> Type) : MBind (Eff C R) :=
  fun A B f m o h =>
    match m o h with
    | (Ok a, h') => f a o h'
    | (Panicked msg, h') => (Panicked msg, h')
    end.

Definition ask {C : Type} {R : C -> Type} (c : C) : Eff C R (R c) :=
  fun o h => (Ok (o h c), h ++ [c]).

Definition ask_ {C : Type} {R : C -> Type} (c : C) : Eff C R unit :=
  _ ← ask c; mret tt.

Definition crash {C : Type} {R : C -> Type} {A : Type} (msg : string) : Eff C R A :=
  fun _ h => (Panicked msg, h).

End effects.

(** ** Persisting a snapshot ([fusisSnapshot.Persist], src/unnamed/part_000) *)

Module snapshot.
Import world effects.

(** [raft.SnapshotSink], as [Persist] uses it.  [Write] also returns a byte
    count, which [Persist] drops. *)
Inductive sinkCall : Type :=
| sink_Write (b : string)
| sink_Close
| sink_Cancel.

Definition sinkAnswer (c : sinkCall) : Type := option error.

(** [json.Marshal] of the slice of Services. *)
Class Marshal : Type := json_Marshal_Services : list Service.t -> string + error.

Record fusisSnapshot : Type := mkSnapshot { Services : list Service.t }.

Section Persist.
Context {Enc : Marshal}.

(** The closure inside [Persist]: encode, write, close, stopping at the
    first error. *)
Definition persistSteps (f : fusisSnapshot) : Eff sinkCall sinkAnswer (option error) :=
  match json_Marshal_Services (Services f) with
  | inr err => mret (Some err)
  | inl b =>
      err ← ask (sink_Write b);
      match (err : option error) with
      | Some e => mret (Some e)
      | None =>
          err ← ask sink_Close;
          match (err : option error) with
          | Some e => mret (Some e)
          | None => mret None
          end
      end
  end.

Definition Persist (f : fusisSnapshot) : Eff sinkCall sinkAnswer (option error) :=
  err ← persistSteps f;
  match err with
  | Some e => _ ← ask sink_Cancel; mret (Some e)
  | None => mret None
  end.

End Persist.
End snapshot.

(** ** Gossip events (package fusis, src/fusis/balancer.go) *)

Module membership.
Import ipvs world.

(** [serf.Member], as the handlers read it: the name, the address (a
    [net.IP], kept as its bytes) and the tags. *)
Record Member : Type := mkMember {
  Name : string;
  Addr : string;
  Tags : gmap string string
}.

(** [serf.Event] by its [EventType]; the three membership events carry the
    members, every other event is kept as the text that [%#v] prints. *)
Inductive Event : Type :=
| EventMemberJoin (members : list Member)
| EventMemberLeave (members : list Member)
| EventMemberFailed (members : list Member)
| EventOther (text : string).

(** What the handlers use of Go's libraries and of raft: [net.IP.String],
    [net.TCPAddr.String] for an address and a port, [strconv.Atoi] (which
    returns a number next to its error), and the sentinel
    [raft.ErrUnknownPeer]. *)
Class GoLib : Type := {
  IP_String : string -> string;
  TCPAddr_String : string -> Z -> string;
  strconv_Atoi : string -> Z * option error;
  raft_ErrUnknownPeer : error
}.

(** [m.Tags[k]]: the empty string when the tag is missing. *)
Definition tag (m : Member) (k : string) : string := default "" (Tags m !! k).

Definition isBalancer (m : Member) : bool := bool_decide (tag m "role" = "balancer").

(** [for _, x := range l { f(x) }] *)
Fixpoint forEach {A : Type} (f : A -> M unit) (l : list A) : M unit :=
  match l with
  | [] => mret tt
  | x :: rest => _ ← f x; forEach f rest
  end.

Section Handlers.
Context {E : Env} {L : GoLib}.

(** [Balancer.GetDestination] and [Balancer.DeleteDestination] are methods
    of the package that are not among the sources; [handleAgentLeave] is
    stated over them.  Of what the handlers log, the errors and warnings are
    calls of the world; their lines at info level are not recorded. *)
Variable Balancer_GetDestination : string -> M (Destination.t + error).
Variable Balancer_DeleteDestination : Destination.t -> M unit.

(** The address a joining member is added under. *)
Definition remoteAddr (m : Member) : string :=
  IP_String (Addr m) +:+ ":" +:+ tag m "raft-port".

Definition addMemberToPool (m : Member) : M unit :=
  err ← sys (raft_AddPeer (remoteAddr m));
  match err with
  | Some e =>
      sys_ (logger_Error ("node at " +:+ remoteAddr m +:+ " joined failure. err: "
                          +:+ error_text e))
  | None => mret tt
  end.

Definition handleMemberJoin (members : list Member) : M unit :=
  leader ← fusis.IsLeader;
  if negb leader then mret tt
  else forEach (fun m => if isBalancer m then addMemberToPool m else mret tt) members.

(** A failed [Atoi] is logged and the handler goes on with the number that
    [Atoi] returned. *)
Definition handleBalancerLeave (m : Member) : M unit :=
  leader ← fusis.IsLeader;
  if negb leader then mret tt
  else
    let '(raftPort, perr) := strconv_Atoi (tag m "raft-port") in
    _ ← match perr with
        | Some e => sys_ (logger_Error ("handle balancer leaver failed "
                                        +:+ error_text e))
        | None => mret tt
        end;
    let peer := TCPAddr_String (Addr m) raftPort in
    err ← sys (raft_RemovePeer peer);
    match err with
    | Some e =>
        if decide (e <> raft_ErrUnknownPeer) then
          sys_ (logger_Error ("balancer: failed to remove raft peer '" +:+ peer
                              +:+ "': " +:+ error_text e))
        else mret tt
    | None => mret tt
    end.

Definition handleAgentLeave (m : Member) : M unit :=
  r ← Balancer_GetDestination (Name m);
  match r with
  | inr err => sys_ (logger_Error ("handleAgenteLeave failed " +:+ error_text err))
  | inl dst => Balancer_DeleteDestination dst
  end.

Definition handleMemberLeave (members : list Member) : M unit :=
  forEach (fun m => if isBalancer m then handleBalancerLeave m
                    else handleAgentLeave m) members.

(** One turn of the loop of [handleEvents]. *)
Definition handleEvent (e : Event) : M unit :=
  match e with
  | EventMemberJoin members => handleMemberJoin members
  | EventMemberFailed members => handleMemberLeave members
  | EventMemberLeave members => handleMemberLeave members
  | EventOther text => sys_ (logger_Warn ("Balancer: unhandled Serf Event: " +:+ text))
  end.

(** The loop, over the events that the channel delivers. *)
Definition handleEvents (eventCh : list Event) : M unit := forEach handleEvent eventCh.

End Handlers.
End membership.

(** ** Start-up ([NewBalancer], [setupRaft], [setupSerf], [readPeersJSON],
    src/fusis/balancer.go) *)

Module startup.
Import world effects.

Definition retainSnapshotCount : Z := 2.

(** What start-up reads of [config.BalancerConfig]. *)
Record BalancerConfig : Type := mkConfig {
  Name : string;
  ConfigPath : string;
  Bootstrap : bool;
  DevMode : bool;
  Ports : gmap string Z;
  Provider_Params : gmap string string;
  Stats_Interval : Z
}.

(** The fields of [raft.Config] that [setupRaft] sets. *)
Record RaftConfig : Type := mkRaftConfig {
  ShutdownOnRemove : bool;
  EnableSingleNode : bool;
  DisableBootstrapAfterElect : bool
}.

(** The fields of [serf.Config] that [setupSerf] sets. *)
Record SerfConfig : Type := mkSerfConfig {
  Tags : gmap string string;
  BindAddr : string;
  BindPort : Z;
  NodeName : string
}.

(** The constructors and system functions that start-up calls, the
    goroutines it starts, and the line it logs. *)
Inductive setupCall : Type :=
| provider_New
| engine_New
| ioutil_ReadFile (path : string)
| config_GetIpByInterface
| raft_NewTCPTransport (bindAddr : string)
| raft_NewInmemStore
| raft_NewDiscardSnapshotStore
| raft_NewJSONPeers (base : string)
| raft_NewFileSnapshotStore (base : string) (retain : Z)
| raftboltdb_NewBoltStore (path : string)
| go_watchState
| raft_NewRaft (conf : RaftConfig) (inmem : bool)
| serf_Create (conf : SerfConfig)
| go_handleEvents
| fusis_net_DelVips (iface : string)
| go_watchLeaderChanges
| go_collectStats
| logger_Infof (msg : string).

(** [ReadFile] answers the bytes next to an error; the error comes with
    what [os.IsNotExist] says of it. *)
Definition setupAnswer (c : setupCall) : Type :=
  match c with
  | ioutil_ReadFile _ => (string * option (error * bool))%type
  | config_GetIpByInterface => (string + error)%type
  | provider_New | engine_New | raft_NewTCPTransport _
  | raft_NewFileSnapshotStore _ _ | raftboltdb_NewBoltStore _
  | raft_NewRaft _ _ | serf_Create _ | fusis_net_DelVips _ => option error
  | _ => unit
  end.

(** Library functions without effect: [filepath.Join], the text of the
    [net.TCPAddr] made from the parsed ip and a port, [strconv.Itoa], the
    JSON decoder of the peers manifest, and the defaults of raft and serf. *)
Class SetupLib : Type := {
  filepath_Join : string -> string -> string;
  raftAddr_String : string -> Z -> string;
  strconv_Itoa : Z -> string;
  json_Decode_peers : string -> list string + error;
  raft_DefaultConfig : RaftConfig;
  serf_DefaultTags : gmap string string
}.

Abbreviation Setup := (Eff setupCall setupAnswer).

Section Startup.
Context {Lib : SetupLib}.
Variable config : BalancerConfig.

Definition readPeersJSON (path : string) : Setup (list string + error) :=
  r ← ask (ioutil_ReadFile path);
  let '(b, err) := (r : string * option (error * bool)) in
  match err with
  | Some (e, false) => mret (inr e)
  | _ =>
      if decide (String.length b = 0%nat) then mret (inl [])
      else mret (json_Decode_peers b)
  end.

Definition setupRaft : Setup (option error) :=
  let raftConfig := raft_DefaultConfig in
  let raftConfig := mkRaftConfig false (EnableSingleNode raftConfig)
                      (DisableBootstrapAfterElect raftConfig) in
  r ← readPeersJSON (filepath_Join (ConfigPath config) "peers.json");
  match r with
  | inr err => mret (Some err)
  | inl peers =>
      raftConfig ←
        (if Bootstrap config && bool_decide (length peers <= 1)%nat
         then _ ← ask (logger_Infof "enabling single-node mode");
              mret (mkRaftConfig (ShutdownOnRemove raftConfig) true false)
         else mret raftConfig);
      r ← ask config_GetIpByInterface;
      match (r : string + error) with
      | inr err => mret (Some err)
      | inl ip =>
          let raftAddr := raftAddr_String ip (default 0 (Ports config !! "raft")) in
          err ← ask (raft_NewTCPTransport raftAddr);
          match (err : option error) with
          | Some e => mret (Some e)
          | None =>
              err ←
                (if DevMode config then
                   _ ← ask raft_NewInmemStore;
                   _ ← ask raft_NewDiscardSnapshotStore;
                   mret None
                 else
                   _ ← ask (raft_NewJSONPeers (ConfigPath config));
                   err ← ask (raft_NewFileSnapshotStore (ConfigPath config)
                                retainSnapshotCount);
                   match (err : option error) with
                   | Some e =>
                       mret (Some (Errorf ("file snapshot store: " +:+ error_text e)))
                   | None =>
                       err ← ask (raftboltdb_NewBoltStore
                                    (filepath_Join (ConfigPath config) "raft.db"));
                       match (err : option error) with
                       | Some e =>
                           mret (Some (Errorf ("new bolt store: " +:+ error_text e)))
                       | None => mret None
                       end
                   end);
              match (err : option error) with
              | Some e => mret (Some e)
              | None =>
                  _ ← ask go_watchState;
                  err ← ask (raft_NewRaft raftConfig (DevMode config));
                  match (err : option error) with
                  | Some e => mret (Some (Errorf ("new raft: " +:+ error_text e)))
                  | None => mret None
                  end
              end
          end
      end
  end.

Definition setupSerf : Setup (option error) :=
  let tags := <["raft-port" := strconv_Itoa (default 0 (Ports config !! "raft"))]>
                (<["role" := "balancer"]> serf_DefaultTags) in
  r ← ask config_GetIpByInterface;
  match (r : string + error) with
  | inr err => mret (Some err)
  | inl bindAddr =>
      err ← ask (serf_Create (mkSerfConfig tags bindAddr
                                (default 0 (Ports config !! "serf")) (Name config)));
      match (err : option error) with
      | Some e => mret (Some e)
      | None => _ ← ask go_handleEvents; mret None
      end
  end.

(** [NewBalancer]; the result is the error, nil when a Balancer is
    returned. *)
Definition NewBalancer : Setup (option error) :=
  err ← ask provider_New;
  match (err : option error) with
  | Some e => mret (Some e)
  | None =>
      err ← ask engine_New;
      match (err : option error) with
      | Some e => mret (Some e)
      | None =>
          err ← setupRaft;
          match err with
          | Some e => mret (Some (Errorf ("error setting up Raft: " +:+ error_text e)))
          | None =>
              err ← setupSerf;
              match err with
              | Some e =>
                  mret (Some (Errorf ("error setting up Serf: " +:+ error_text e)))
              | None =>
                  err ← ask (fusis_net_DelVips
                               (default "" (Provider_Params config !! "interface")));
                  match (err : option error) with
                  | Some e =>
                      mret (Some (Errorf ("error cleaning up network vips: "
                                          +:+ error_text e)))
                  | None =>
                      _ ← ask go_watchLeaderChanges;
                      _ ← (if decide (Stats_Interval config > 0)
                           then ask_ go_collectStats else mret tt);
                      mret None
                  end
              end
          end
      end
  end.

End Startup.
End startup.

(** ** The etcd store (package etcd, src/store/etcd/etcd.go) *)

Module etcd.
Import world effects.

Definition createEvent : string := "create".
Definition updateEvent : string := "update".
Definition setEvent : string := "set".
Definition deleteEvent : string := "delete".

(** [store.ServiceRequest], by the fields that this file reads. *)
Record ServiceRequest : Type := mkRequest {
  Host : string;
  Port : Z;
  Protocol : string
}.

(** The events that [processServiceChange] builds: [store.ServiceCreate],
    [store.ServiceUpdate] and [store.ServiceDelete]. *)
Inductive Event : Type :=
| ServiceCreate (Service : ServiceRequest)
| ServiceUpdate (Service : ServiceRequest)
| ServiceDelete (Service : ServiceRequest).

(** An error of the etcd client: a [client.Error] with its code, or any
    other error. *)
Inductive kvError : Type :=
| client_Error (Code : Z) (Message : string)
| otherError (e : error).

Definition ErrorCodeKeyNotFound : Z := 100.
Definition ErrorCodeNotFile : Z := 102.
Definition ErrorCodeNotDir : Z := 104.

Module Node.
Record t : Type := mk { Key : string; Value : string }.
End Node.

(** [client.Response]; [Node] and [PrevNode] are pointers. *)
Module Response.
Record t : Type := mk {
  Action : string;
  Node : option Node.t;
  PrevNode : option Node.t
}.
End Response.

(** The calls on [client.KeysAPI] and on the watcher, and the send on the
    channel of changes ([None] is the nil interface value). *)
Inductive kvCall : Type :=
| client_Get (key : string)
| client_Set (key value : string)
| client_Update (key value : string)
| client_Watcher (key : string)
| watcher_Next
| changes_send (event : option Event).

Definition kvAnswer (c : kvCall) : Type :=
  match c with
  | client_Get _ | client_Set _ _ | client_Update _ _ => option kvError
  | watcher_Next => (Response.t + kvError)%type
  | _ => unit
  end.

(** Library functions without effect: what [%v] prints for a port,
    [json.Marshal] of a request, [json.Unmarshal] into a zero request (the
    value it leaves next to its error), and [FindStringSubmatch] of the
    pattern of service keys. *)
Class Lib : Type := {
  fmt_v : Z -> string;
  json_Marshal : ServiceRequest -> string + error;
  json_Unmarshal : string -> ServiceRequest * option error;
  regexp_FindStringSubmatch : string -> list string
}.

Abbreviation Kv := (Eff kvCall kvAnswer).

Section Etcd.
Context {L : Lib}.

(** [fmt.Sprintf("/fusis/services/%s-%v-%s/conf", ...)] *)
Definition serviceKey (svc : ServiceRequest) : string :=
  "/fusis/services/" +:+ Host svc +:+ "-" +:+ fmt_v (Port svc) +:+ "-"
    +:+ Protocol svc +:+ "/conf".

Definition keyNotFound (err : option kvError) : bool :=
  match err with
  | Some (client_Error code _) =>
      bool_decide (code = ErrorCodeKeyNotFound \/ code = ErrorCodeNotFile
                   \/ code = ErrorCodeNotDir)
  | _ => false
  end.

Definition keyExists (key : string) : Kv (bool * option kvError) :=
  err ← ask (client_Get key);
  match (err : option kvError) with
  | Some e => if keyNotFound (Some e) then mret (false, None)
              else mret (false, Some e)
  | None => mret (true, None)
  end.

Definition AddService (svc : ServiceRequest) : Kv (option kvError) :=
  let key := serviceKey svc in
  r ← keyExists key;
  if (r : bool * option kvError).1
  then mret (Some (otherError (Errorf "Services already exists")))
  else
    match json_Marshal svc with
    | inr err => mret (Some (otherError err))
    | inl value => ask (client_Set key value)
    end.

Definition UpdateService (svc : ServiceRequest) : Kv (option kvError) :=
  let key := serviceKey svc in
  r ← keyExists key;
  if negb (r : bool * option kvError).1
  then mret (Some (otherError (Errorf "Services does not exists.")))
  else
    match json_Marshal svc with
    | inr err => mret (Some (otherError err))
    | inl value => ask (client_Update key value)
    end.

(** [getValueFromJson] into a zero request: the request next to the error. *)
Definition getValueFromJson (value : string) : ServiceRequest * option error :=
  json_Unmarshal value.

Definition MatcherFn : Type := Response.t -> outcome (option Event * option error).

(** Reading through a nil [Node] or [PrevNode] panics. *)
Definition processServiceChange : MatcherFn := fun r =>
  match Response.Node r with
  | None => Panicked "invalid memory address or nil pointer dereference"
  | Some node =>
      let out := regexp_FindStringSubmatch (Node.Key node) in
      if decide (length out ≠ 4%nat) then Ok (None, None)
      else if decide (Response.Action r = createEvent \/ Response.Action r = setEvent)
      then Ok (Some (ServiceCreate (getValueFromJson (Node.Value node)).1), None)
      else if decide (Response.Action r = updateEvent)
      then Ok (Some (ServiceUpdate (getValueFromJson (Node.Value node)).1), None)
      else if decide (Response.Action r = deleteEvent)
      then match Response.PrevNode r with
           | None => Panicked "invalid memory address or nil pointer dereference"
           | Some prev =>
               Ok (Some (ServiceDelete (getValueFromJson (Node.Value prev)).1), None)
           end
      else Ok (None, Some (Errorf ("unsupported action on the rate: "
                                   +:+ Response.Action r)))
  end.

(** The loop of [processChange] over its matchers. *)
Fixpoint matchLoop (matchers : list MatcherFn) (response : Response.t)
  : outcome (option Event * option error) :=
  match matchers with
  | [] => Ok (None, None)
  | matcher :: rest =>
      match matcher response with
      | Panicked msg => Panicked msg
      | Ok (v, err) =>
          if decide (v ≠ None \/ err ≠ None) then Ok (v, err)
          else matchLoop rest response
      end
  end.

Definition processChange (response : Response.t)
  : outcome (option Event * option error) :=
  matchLoop [processServiceChange] response.

(** The loop of [Subscribe]; [fuel] bounds the number of turns, [None] says
    it ran out.  The loop is left only by returning the watcher's error. *)
Fixpoint watchLoop (fuel : nat) : Kv (option kvError) :=
  match fuel with
  | O => mret None
  | S fuel =>
      r ← ask watcher_Next;
      match (r : Response.t + kvError) with
      | inr err => mret (Some err)
      | inl response =>
          match processChange response with
          | Panicked msg => crash msg
          | Ok (event, _) => _ ← ask (changes_send event); watchLoop fuel
          end
      end
  end.

Definition Subscribe (fuel : nat) : Kv (option kvError) :=
  _ ← ask (client_Watcher "/fusis/services");
  watchLoop fuel.

End Etcd.
End etcd.

(** ** Further concrete instances *)

Module scenarios.
Import ipvs world engine examples.

(** An environment in which the addresses of the interface cannot be
    listed. *)
Definition listFailEnv : Env :=
  fun h c =>
    match c as c' return answer c' with
    | net_GetFusisVipsIps _ => inr (SysErr "no such device")
    | c' => calmEnv Leader [] [] h c'
    end.

(** An environment in which the peer store cannot be read. *)
Definition peersFailEnv : Env :=
  fun h c =>
    match c as c' return answer c' with
    | raftPeers_Peers => inr (SysErr "open peers.json: permission denied")
    | c' => calmEnv Follower [] [] h c'
    end.

(** A decoder that knows a Command with the op 7 and an AddService without
    its Service. *)
Definition oddJson : Json :=
  tableJson [("op 7", mkCommand 7 None None);
             ("add nothing", mkCommand AddServiceOp None None)] [].

(** Library functions that know the port 4040. *)
Definition goLib : membership.GoLib :=
  {| membership.IP_String := fun ip => ip;
     membership.TCPAddr_String := fun ip port =>
       ip +:+ ":" +:+ (if decide (port = 4040) then "4040" else "0");
     membership.strconv_Atoi := fun s =>
       if decide (s = "4040") then (4040, None)
       else (0, Some (SysErr "strconv.Atoi: invalid syntax"));
     membership.raft_ErrUnknownPeer := SysErr "unknown peer" |}.

(** A balancer of the gossip cluster. *)
Definition lb2 : membership.Member :=
  membership.mkMember "lb-2" "10.0.0.2"
    (<["role" := "balancer"]> (<["raft-port" := "4040"]> ∅)).

(** An agent of the gossip cluster: a member without the role tag. *)
Definition agent1 : membership.Member :=
  membership.mkMember "web-1" "192.168.1.10" ∅.

(** The two methods of the Balancer that the handlers of a departed agent
    call, for a node on which they find and delete nothing. *)
Definition noDestination : string -> M (Destination.t + error) :=
  fun _ => mret (inr ErrDestinationNotFound).
Definition deleteNothing : Destination.t -> M unit := fun _ => mret tt.

(** The etcd side: the key and the stored value of one service, library
    functions that know them, two responses of the watcher, and a watcher
    that answers given responses in turn and then fails. *)
Definition webKey : string := "/fusis/services/web-80-tcp/conf".
Definition webRequest : etcd.ServiceRequest := etcd.mkRequest "10.0.0.1" 80 "tcp".

Definition etcdLib : etcd.Lib :=
  {| etcd.fmt_v := fun _ => "80";
     etcd.json_Marshal := fun _ => inl "{web}";
     etcd.json_Unmarshal := fun v =>
       if decide (v = "{web}") then (webRequest, None)
       else (etcd.mkRequest "" 0 "", Some (SysErr "unexpected end of JSON input"));
     etcd.regexp_FindStringSubmatch := fun k =>
       if decide (k = webKey) then [webKey; "web"; "80"; "tcp"] else [] |}.

Definition created : etcd.Response.t :=
  etcd.Response.mk "create" (Some (etcd.Node.mk webKey "{web}")) None.
Definition unrelated : etcd.Response.t :=
  etcd.Response.mk "set" (Some (etcd.Node.mk "/fusis/leader" "lb-1")) None.

Fixpoint asked (h : list etcd.kvCall) : nat :=
  match h with
  | [] => 0
  | etcd.watcher_Next :: h => S (asked h)
  | _ :: h => asked h
  end.

Definition watcherOf (rs : list etcd.Response.t) (e : etcd.kvError)
  : list etcd.kvCall -> forall c, etcd.kvAnswer c :=
  fun h c =>
    match c as c' return etcd.kvAnswer c' with
    | etcd.watcher_Next =>
        match rs !! asked h with
        | Some r => inl r
        | None => inr e
        end
    | etcd.client_Get _ | etcd.client_Set _ _ | etcd.client_Update _ _ => None
    | etcd.client_Watcher _ | etcd.changes_send _ => tt
    end.

End scenarios.

(** * Vocabulary of the statements *)

Import ipvs world engine.

Section Vocabulary.
Context {ids : Identity} {order : MapRange}.

(** Catalog states as the Catalog's own methods build them. *)
Inductive built : FusisState -> Prop :=
| built_new : built NewFusisState
| built_AddService svc s : built s -> built (AddService svc s)
| built_DeleteService svc s : built s -> built (DeleteService svc s)
| built_AddDestination dst s : built s -> built (AddDestination dst s)
| built_DeleteDestination dst s : built s -> built (DeleteDestination dst s).

(** Every entry sits under its own id. *)
Definition keyed (s : FusisState) : Prop :=
  (forall k svc, Services s !! k = Some svc -> Service_GetId svc = k) /\
  (forall k d, Destinations s !! k = Some d -> Destination_GetId d = k).

(** No Destination is an orphan: its ServiceId names a stored Service. *)
Definition no_orphans (s : FusisState) : Prop :=
  forall k d, Destinations s !! k = Some d ->
    is_Some (Services s !! Destination.ServiceId d).

(** What a client of the Catalog can tell two states apart by: the three
    getters.  [GetServices] is compared up to the order of the slice, which
    the map iteration leaves open. *)
Definition observably_equal (s1 s2 : FusisState) : Prop :=
  (forall name, (GetService name s1).1 = (GetService name s2).1) /\
  (forall name, (GetDestination name s1).1 = (GetDestination name s2).1) /\
  (GetServices s1).1 ≡ₚ (GetServices s2).1.

End Vocabulary.

(** A decoded Command carries the payload its op reads: a Service for the
    two service ops, a Destination for the two destination ops (section 3 of
    the design: exactly one of the two, depending on op). *)
Definition carries_payload (c : Command) : Prop :=
  ((Op c = AddServiceOp \/ Op c = DelServiceOp) -> is_Some (Service c)) /\
  ((Op c = AddDestinationOp \/ Op c = DelDestinationOp) -> is_Some (Destination c)).

Section CallVocabulary.
Context {E : Env}.

(** The call [c], made after the calls [h], did not fail: it answered nil
    where it answers an error, a list where it answers a list or an error. *)
Definition succeeds (h : list call) (c : call) : Prop :=
  match c as c' return answer c' -> Prop with
  | net_GetFusisVipsIps _ | raftPeers_Peers => fun a => exists l, a = inl l
  | net_AddIp _ _ | net_DelIp _ _ | net_DelVips _
  | Ipvs_SyncState _ | Provider_SyncVIPs _
  | raft_AddPeer _ | raft_RemovePeer _ | raft_Shutdown
  | raftPeers_SetPeers _ | raftStore_Close
  | serf_Leave | serf_Shutdown => fun a => a = None
  | _ => fun _ => True
  end (env h c).

(** None of the calls [ops], made one after the other after [h], failed. *)
Definition allSucceed (h : list call) (ops : list call) : Prop :=
  forall i c, ops !! i = Some c -> succeeds (h ++ take i ops) c.

Definition addIp (iface ip : string) : call := net_AddIp (ip +:+ "/32") iface.
Definition delIp (iface ip : string) : call := net_DelIp (ip +:+ "/32") iface.

(** The messages for the adds of [ips], made in that order after [h], that
    failed; and the same for the deletes. *)
Fixpoint addErrors (h : list call) (iface : string) (ips : list string)
  : list string :=
  match ips with
  | [] => []
  | ip :: rest =>
      match env h (net_AddIp (ip +:+ "/32") iface) with
      | Some e => ["error adding ip " +:+ ip +:+ ": " +:+ error_text e]
      | None => []
      end ++ addErrors (h ++ [addIp iface ip]) iface rest
  end.

Fixpoint delErrors (h : list call) (iface : string) (ips : list string)
  : list string :=
  match ips with
  | [] => []
  | ip :: rest =>
      match env h (net_DelIp (ip +:+ "/32") iface) with
      | Some e => ["error deleting ip " +:+ ip +:+ ": " +:+ error_text e]
      | None => []
      end ++ delErrors (h ++ [delIp iface ip]) iface rest
  end.

(** One error out of many messages, nil out of none. *)
Definition compound (msgs : list string) : option error :=
  match msgs with
  | [] => None
  | _ => Some (Errorf ("multiple errors: " +:+ provider.strings_Join msgs " | "))
  end.

End CallVocabulary.

(** A call to the logger. *)
Definition is_log (c : call) : Prop :=
  match c with
  | logger_Error _ | logger_Warn _ => True
  | _ => False
  end.

(** The calls of one turn of the leader watcher, for the value [isLeader]
    read from the channel: under the Balancer's mutex, the flush of the
    interface, and on winning leadership the provider's [SyncVIPs] on the
    Catalog [st] after it; each may be followed by a log line. *)
Definition leader_block (iface : string) (st : FusisState) (isLeader : bool)
    (blk : list call) : Prop :=
  exists log1 log2,
    Forall is_log log1 /\ Forall is_log log2 /\
    blk = [Lock BalancerMu; net_DelVips iface] ++ log1
          ++ (if isLeader then [Provider_SyncVIPs st] ++ log2 else [])
          ++ [Unlock BalancerMu].

(** A call of the polling loop of [Leave]: a clock read, a read of the
    peer store, a sleep of 50ms, or the log line for a failed read. *)
Definition is_poll (c : call) : Prop :=
  match c with
  | time_Now | raftPeers_Peers | logger_Error _ => True
  | time_Sleep d => d = 50 * fusis.time_Millisecond
  | _ => False
  end.

Definition is_RemovePeer (c : call) : Prop :=
  match c with
  | raft_RemovePeer _ => True
  | _ => False
  end.

Section LeaveVocabulary.
Context {E : Env}.

(** The clock never runs backwards, and a sleep of [d] lets at least [d]
    pass. *)
Definition clock_advances : Prop :=
  (forall h c, env h time_Now <= env (h ++ [c]) time_Now) /\
  (forall h d, env h time_Now + d <= env (h ++ [time_Sleep d]) time_Now).

(** Read after the calls [h], the peer store holds no peer but [local]. *)
Definition no_other_peers (local : string) (h : list call) : Prop :=
  exists peers, env h raftPeers_Peers = inl peers /\
                filter (fun p => p <> local) peers = [].

(** Read after the calls [h], the peer store fails. *)
Definition peers_unreadable (h : list call) : Prop :=
  exists e, env h raftPeers_Peers = inr e.

(** How the calls [polls] of the waiting loop, made after [h0], end when
    the loop is left with no peer to wait for: there was none on entry, or
    the last read of the peer store found none or failed (and was logged). *)
Definition wait_is_over (local : string) (n0 : Z) (h0 polls : list call) : Prop :=
  (n0 = 0 /\ polls = []) \/
  exists h log,
    h0 ++ polls = h ++ [raftPeers_Peers] ++ log /\
    ((no_other_peers local h /\ log = []) \/
     (peers_unreadable h /\ exists msg, log = [logger_Error msg])).

(** The calls [polls], made after [h0], end with a clock read that shows
    [limit] reached. *)
Definition grace_is_over (limit : Z) (h0 polls : list call) : Prop :=
  exists h, h0 ++ polls = h ++ [time_Now] /\ limit <= env h time_Now.

(** The waiting loop, turn by turn: [waits local limit h n polls n'] says
    that the loop, entered after the calls [h] with [n] other peers known,
    makes the calls [polls] and is left with [n'].  With no peer known it
    makes no call.  Otherwise a turn reads the clock and stops when the
    clock shows [limit] reached; else it reads the peer store and stops when
    the read fails, which it logs, or when the store holds no peer but
    [local]; else it sleeps 50ms and takes the next turn with the number of
    peers just read. *)
Inductive waits (local : string) (limit : Z)
  : list call -> Z -> list call -> Z -> Prop :=
| waits_nobody h n :
    n <= 0 -> waits local limit h n [] n
| waits_timeout h n :
    0 < n -> limit <= env h time_Now ->
    waits local limit h n [time_Now] n
| waits_unreadable h n err :
    0 < n -> env h time_Now < limit ->
    env (h ++ [time_Now]) raftPeers_Peers = inr err ->
    waits local limit h n
      [time_Now; raftPeers_Peers;
       logger_Error ("balancer: failed to check raft peers: " +:+ error_text err)]
      0
| waits_alone h n peers :
    0 < n -> env h time_Now < limit ->
    env (h ++ [time_Now]) raftPeers_Peers = inl peers ->
    filter (fun p => p <> local) peers = [] ->
    waits local limit h n [time_Now; raftPeers_Peers] 0
| waits_again h n peers polls n' :
    0 < n -> env h time_Now < limit ->
    env (h ++ [time_Now]) raftPeers_Peers = inl peers ->
    filter (fun p => p <> local) peers <> [] ->
    waits local limit
      (h ++ [time_Now; raftPeers_Peers; time_Sleep (50 * fusis.time_Millisecond)])
      (Z.of_nat (length (filter (fun p => p <> local) peers))) polls n' ->
    waits local limit h n
      ([time_Now; raftPeers_Peers; time_Sleep (50 * fusis.time_Millisecond)]
       ++ polls) n'.

End LeaveVocabulary.

(** The addresses the Catalog wants bound: the hosts of its Services. *)
Definition wanted (s : FusisState) (ip : string) : Prop :=
  exists k svc, Services s !! k = Some svc /\ Service.Host svc = ip.

(** ** Vocabulary of the further properties *)

#[global] Instance is_log_dec (c : call) : Decision (is_log c).
Proof. destruct c; simpl; apply _. Defined.

(** The time slept by the calls [h], all sleeps added up. *)
Fixpoint totalSleep (h : list call) : Z :=
  match h with
  | [] => 0
  | time_Sleep d :: h => d + totalSleep h
  | _ :: h => totalSleep h
  end.

Section MembershipVocabulary.
Context {E : Env} {L : membership.GoLib}.

(** The calls of the leader for the joining balancer [m], made after the
    calls [h]: [AddPeer] under the member's address and raft-port tag, and
    the line logged when [AddPeer] failed. *)
Definition join_block (m : membership.Member) (h : list call) : list call :=
  let addr := membership.remoteAddr m in
  raft_AddPeer addr ::
  match env h (raft_AddPeer addr) with
  | Some e => [logger_Error ("node at " +:+ addr +:+ " joined failure. err: "
                             +:+ error_text e)]
  | None => []
  end.

(** The calls of the leader for the members of a join event: one block for
    every member that is a balancer, in the order of the event, each made
    after the blocks before it; nothing for any other member. *)
Fixpoint join_blocks (h : list call) (ms : list membership.Member) : list call :=
  match ms with
  | [] => []
  | m :: ms =>
      if membership.isBalancer m
      then join_block m h ++ join_blocks (h ++ join_block m h) ms
      else join_blocks h ms
  end.

(** The calls for the departed balancer [m], made after the calls [h].  The
    node asks raft for its state; a node that is not the leader calls
    nothing more.  The leader logs a raft-port tag that [Atoi] rejects,
    calls [RemovePeer] for the member's address with the port that [Atoi]
    returned, and logs the answer unless it is nil or the unknown-peer
    error. *)
Definition leave_block (m : membership.Member) (h : list call) : list call :=
  raft_State ::
  if decide (env h raft_State = Leader) then
    let port := (membership.strconv_Atoi (membership.tag m "raft-port")).1 in
    let perr := (membership.strconv_Atoi (membership.tag m "raft-port")).2 in
    let peer := membership.TCPAddr_String (membership.Addr m) port in
    let log1 := match perr with
                | Some e => [logger_Error ("handle balancer leaver failed "
                                           +:+ error_text e)]
                | None => []
                end in
    log1 ++ raft_RemovePeer peer ::
    match env (h ++ [raft_State] ++ log1) (raft_RemovePeer peer) with
    | Some e =>
        if decide (e <> membership.raft_ErrUnknownPeer)
        then [logger_Error ("balancer: failed to remove raft peer '" +:+ peer
                            +:+ "': " +:+ error_text e)]
        else []
    | None => []
    end
  else [].

(** The calls for a list of departed balancers: one block per member, in
    order, each made after the blocks before it. *)
Fixpoint leave_blocks (h : list call) (ms : list membership.Member) : list call :=
  match ms with
  | [] => []
  | m :: ms => leave_block m h ++ leave_blocks (h ++ leave_block m h) ms
  end.

Section Departures.
Variable GetDestination : string -> M (Destination.t + error).
Variable DeleteDestination : Destination.t -> M unit.

(** What the node does for one departed member, from the world [w].  For a
    balancer it makes the calls of [leave_block] and leaves the Catalog
    alone.  For any other member it looks up the Destination of the
    member's name; it deletes the Destination found, and logs the error
    when there is none. *)
Definition departs (m : membership.Member) (w : World) : outcome unit * World :=
  if membership.isBalancer m
  then (Ok tt, mkWorld (State w) (trace w ++ leave_block m (trace w)))
  else
    match GetDestination (membership.Name m) w with
    | (Ok (inl dst), w1) => DeleteDestination dst w1
    | (Ok (inr err), w1) =>
        (Ok tt, mkWorld (State w1)
                  (trace w1 ++ [logger_Error ("handleAgenteLeave failed "
                                              +:+ error_text err)]))
    | (Panicked msg, w1) => (Panicked msg, w1)
    end.

(** The members of an event one after the other, each from the world the
    one before left, up to a panic. *)
Fixpoint depart_all (ms : list membership.Member) (w : World) : outcome unit * World :=
  match ms with
  | [] => (Ok tt, w)
  | m :: ms =>
      match departs m w with
      | (Ok _, w1) => depart_all ms w1
      | (Panicked msg, w1) => (Panicked msg, w1)
      end
  end.

End Departures.

End MembershipVocabulary.

(** The stores that live on disk, and the stores that live in memory. *)
Definition disk_store (c : startup.setupCall) : Prop :=
  match c with
  | startup.raft_NewJSONPeers _ | startup.raft_NewFileSnapshotStore _ _
  | startup.raftboltdb_NewBoltStore _ => True
  | _ => False
  end.

Definition memory_store (c : startup.setupCall) : Prop :=
  match c with
  | startup.raft_NewInmemStore | startup.raft_NewDiscardSnapshotStore => True
  | _ => False
  end.

(** A goroutine that start-up spawns for the leader watcher or the
    statistics ticker. *)
Definition late_goroutine (c : startup.setupCall) : Prop :=
  match c with
  | startup.go_watchLeaderChanges | startup.go_collectStats => True
  | _ => False
  end.

Section StartupVocabulary.
Context {Lib : startup.SetupLib}.

(** The error that an answer of a call of start-up stands for, as
    [setupRaft], [setupSerf] and [NewBalancer] return it (some behind a
    prefix); [None] for an answer that is no error and for a call that
    cannot fail.  The answer of [ReadFile] is judged by [readPeersJSON]. *)
Definition refusal (c : startup.setupCall) : startup.setupAnswer c -> option error :=
  match c as c' return startup.setupAnswer c' -> option error with
  | startup.config_GetIpByInterface =>
      fun a => match a with inr e => Some e | inl _ => None end
  | startup.provider_New | startup.engine_New
  | startup.raft_NewTCPTransport _ | startup.serf_Create _ => fun a => a
  | startup.raft_NewFileSnapshotStore _ _ =>
      fun a => match a with
               | Some e => Some (Errorf ("file snapshot store: " +:+ error_text e))
               | None => None
               end
  | startup.raftboltdb_NewBoltStore _ =>
      fun a => match a with
               | Some e => Some (Errorf ("new bolt store: " +:+ error_text e))
               | None => None
               end
  | startup.raft_NewRaft _ _ =>
      fun a => match a with
               | Some e => Some (Errorf ("new raft: " +:+ error_text e))
               | None => None
               end
  | startup.fusis_net_DelVips _ =>
      fun a => match a with
               | Some e => Some (Errorf ("error cleaning up network vips: "
                                         +:+ error_text e))
               | None => None
               end
  | _ => fun _ => None
  end.

(** The calls of [plan] made one after the other, after the calls [h], up
    to and including the first that fails: the error of that call ([None]
    when none failed) and the calls made. *)
Fixpoint upToFailure (o : list startup.setupCall -> forall c, startup.setupAnswer c)
    (h : list startup.setupCall) (plan : list startup.setupCall)
  : option error * list startup.setupCall :=
  match plan with
  | [] => (None, [])
  | c :: plan =>
      match refusal c (o h c) with
      | Some e => (Some e, [c])
      | None => let rest := upToFailure o (h ++ [c]) plan in (rest.1, c :: rest.2)
      end
  end.

(** Every call of [plan], made in order after the calls [h], succeeds. *)
Fixpoint all_succeed (o : list startup.setupCall -> forall c, startup.setupAnswer c)
    (h : list startup.setupCall) (plan : list startup.setupCall) : Prop :=
  match plan with
  | [] => True
  | c :: plan => refusal c (o h c) = None /\ all_succeed o (h ++ [c]) plan
  end.

(** Whether raft is set up as a single node: Bootstrap is configured and
    the peers manifest names at most one peer. *)
Definition single_node (config : startup.BalancerConfig) (peers : list string) : bool :=
  startup.Bootstrap config && bool_decide (length peers <= 1)%nat.

(** The configuration that raft is created with: ShutdownOnRemove off, and
    single-node mode on top of raft's defaults when [single_node] holds. *)
Definition raft_conf (config : startup.BalancerConfig) (peers : list string)
  : startup.RaftConfig :=
  if single_node config peers then startup.mkRaftConfig false true false
  else startup.mkRaftConfig false
         (startup.EnableSingleNode startup.raft_DefaultConfig)
         (startup.DisableBootstrapAfterElect startup.raft_DefaultConfig).

(** The stores of the mode: in memory in DevMode, on disk under the
    ConfigPath otherwise. *)
Definition raft_stores (config : startup.BalancerConfig) : list startup.setupCall :=
  if startup.DevMode config
  then [startup.raft_NewInmemStore; startup.raft_NewDiscardSnapshotStore]
  else [startup.raft_NewJSONPeers (startup.ConfigPath config);
        startup.raft_NewFileSnapshotStore (startup.ConfigPath config)
          startup.retainSnapshotCount;
        startup.raftboltdb_NewBoltStore
          (startup.filepath_Join (startup.ConfigPath config) "raft.db")].

(** What [setupRaft] sets out to do once the peers are read, at the address
    [ip] of the interface: the note on single-node mode, the address and the
    transport, the stores, the state watcher and then raft. *)
Definition raft_plan (config : startup.BalancerConfig) (peers : list string)
    (ip : string) : list startup.setupCall :=
  (if single_node config peers
   then [startup.logger_Infof "enabling single-node mode"] else [])
  ++ [startup.config_GetIpByInterface;
      startup.raft_NewTCPTransport
        (startup.raftAddr_String ip (default 0 (startup.Ports config !! "raft")))]
  ++ raft_stores config
  ++ [startup.go_watchState;
      startup.raft_NewRaft (raft_conf config peers) (startup.DevMode config)].

(** The configuration that serf is created with at the address [ip]. *)
Definition serf_conf (config : startup.BalancerConfig) (ip : string)
  : startup.SerfConfig :=
  startup.mkSerfConfig
    (<["raft-port" :=
         startup.strconv_Itoa (default 0 (startup.Ports config !! "raft"))]>
       (<["role" := "balancer"]> startup.serf_DefaultTags))
    ip (default 0 (startup.Ports config !! "serf")) (startup.Name config).

(** What [setupSerf] sets out to do at the address [ip]. *)
Definition serf_plan (config : startup.BalancerConfig) (ip : string)
  : list startup.setupCall :=
  [startup.config_GetIpByInterface; startup.serf_Create (serf_conf config ip);
   startup.go_handleEvents].

(** The address that the interface answers after the calls [h]; the empty
    string stands in when it answers an error. *)
Definition ip_after (o : list startup.setupCall -> forall c, startup.setupAnswer c)
    (h : list startup.setupCall) : string :=
  match o h startup.config_GetIpByInterface with
  | inl ip => ip
  | inr _ => ""
  end.

End StartupVocabulary.

Section EtcdVocabulary.
Context {L : etcd.Lib}.

(** The key of the response is a key of a service: the pattern matches it,
    with its three groups. *)
Definition service_key (r : etcd.Response.t) : Prop :=
  exists node, etcd.Response.Node r = Some node /\
    length (etcd.regexp_FindStringSubmatch (etcd.Node.Key node)) = 4%nat.

(** The value that [Subscribe] sends for a response. *)
Definition eventOf (r : etcd.Response.t) : option etcd.Event :=
  match etcd.processChange r with
  | Ok (event, _) => event
  | Panicked _ => None
  end.

(** The calls of the turns of the loop of [Subscribe] for the responses
    [rs]. *)
Definition turns (rs : list etcd.Response.t) : list etcd.kvCall :=
  rs ≫= fun r => [etcd.watcher_Next; etcd.changes_send (eventOf r)].

(** After the calls [h] the watcher answers the responses [rs], one in each
    turn, and then the error [e]. *)
Fixpoint feeds (o : list etcd.kvCall -> forall c, etcd.kvAnswer c)
    (h : list etcd.kvCall) (rs : list etcd.Response.t) (e : etcd.kvError) : Prop :=
  match rs with
  | [] => o h etcd.watcher_Next = inr e
  | r :: rs =>
      o h etcd.watcher_Next = inl r /\
      feeds o (h ++ [etcd.watcher_Next; etcd.changes_send (eventOf r)]) rs e
  end.

(** [processChange] returns for the response. *)
Definition handled (r : etcd.Response.t) : Prop :=
  exists res, etcd.processChange r = Ok res.

End EtcdVocabulary.

(** * Properties *)

(** ** The Catalog *)

Section CatalogFacts.
Context {ids : Identity} {order : MapRange}.

Lemma built_keyed s : built s -> keyed s.
Proof.
  induction 1 as [|svc s _ [IHs IHd]|svc s _ [IHs IHd]
                  |dst s _ [IHs IHd]|dst s _ [IHs IHd]];
    split; simpl; intros k x.
  - by rewrite lookup_empty.
  - by rewrite lookup_empty.
  - rewrite lookup_insert. case_decide; [congruence | apply IHs].
  - apply IHd.
  - rewrite lookup_delete. case_decide; [done | apply IHs].
  - apply IHd.
  - apply IHs.
  - rewrite lookup_insert. case_decide; [congruence | apply IHd].
  - apply IHs.
  - rewrite lookup_delete. case_decide; [done | apply IHd].
Qed.

(** The values of a map, in the order the oracle ranges over it. *)
Lemma elem_of_range_values {V : Type} (m : gmap string V) (v : V) :
  v ∈ (range m).*2 <-> exists k, m !! k = Some v.
Proof.
  rewrite (range_perm V m). rewrite list_elem_of_fmap. split.
  - intros [[k v'] [-> Hin]]. exists k. by apply elem_of_map_to_list.
  - intros [k Hk]. exists (k, v). split; [done | by apply elem_of_map_to_list].
Qed.

Lemma getDestinations_fields s svc :
  Service.Name (getDestinations s svc) = Service.Name svc /\
  Service.Host (getDestinations s svc) = Service.Host svc /\
  Service.Port (getDestinations s svc) = Service.Port svc /\
  Service.Protocol (getDestinations s svc) = Service.Protocol svc /\
  Service.Scheduler (getDestinations s svc) = Service.Scheduler svc.
Proof. done. Qed.

Lemma elem_of_getDestinations s svc d :
  d ∈ Service.Destinations (getDestinations s svc) <->
  (exists k, Destinations s !! k = Some d) /\
  Destination.ServiceId d = Service_GetId svc.
Proof.
  unfold getDestinations. simpl. rewrite list_elem_of_filter.
  rewrite elem_of_range_values. tauto.
Qed.

Lemma getDestinations_perm s svc :
  Service.Destinations (getDestinations s svc) ≡ₚ
  filter (fun d => Destination.ServiceId d = Service_GetId svc)
         ((map_to_list (Destinations s)).*2).
Proof.
  unfold getDestinations. simpl. by rewrite (range_perm _ (Destinations s)).
Qed.

Lemma elem_of_GetServices s svc' :
  svc' ∈ (GetServices s).1 <->
  exists k svc, Services s !! k = Some svc /\ svc' = getDestinations s svc.
Proof.
  unfold GetServices. simpl. rewrite list_elem_of_fmap. split.
  - intros [svc [-> Hin]]. apply elem_of_range_values in Hin as [k Hk]. eauto.
  - intros (k & svc & Hk & ->). exists svc. split; [done|].
    apply elem_of_range_values. eauto.
Qed.

End CatalogFacts.

Section CatalogClaims.
Context {ids : Identity} {order : MapRange}.

Lemma FusisState_eq (s1 s2 : FusisState) :
  Services s1 = Services s2 -> Destinations s1 = Destinations s2 -> s1 = s2.
Proof. destruct s1, s2; simpl; congruence. Qed.

(** C6.  Catalog mutations are idempotent.  [AddService] with an id that is
    present overwrites the entry under that id and touches nothing else, so
    adding an entry that is already stored leaves the Catalog as it was, and
    adding twice is adding once; [DeleteService] of an id that is not present
    leaves the Catalog as it was, and deleting twice is deleting once.  The
    same holds of [AddDestination] and [DeleteDestination]. *)
Theorem Catalog_mutations_idempotent
    (s : FusisState) (svc : Service.t) (dst : Destination.t) :
  (Services (AddService svc s) !! Service_GetId svc = Some svc /\
   (forall k, k <> Service_GetId svc ->
      Services (AddService svc s) !! k = Services s !! k) /\
   Destinations (AddService svc s) = Destinations s) /\
  (Services s !! Service_GetId svc = Some svc -> AddService svc s = s) /\
  AddService svc (AddService svc s) = AddService svc s /\
  (Services s !! Service_GetId svc = None -> DeleteService svc s = s) /\
  DeleteService svc (DeleteService svc s) = DeleteService svc s /\
  (Destinations (AddDestination dst s) !! Destination_GetId dst = Some dst /\
   (forall k, k <> Destination_GetId dst ->
      Destinations (AddDestination dst s) !! k = Destinations s !! k) /\
   Services (AddDestination dst s) = Services s) /\
  (Destinations s !! Destination_GetId dst = Some dst -> AddDestination dst s = s) /\
  AddDestination dst (AddDestination dst s) = AddDestination dst s /\
  (Destinations s !! Destination_GetId dst = None -> DeleteDestination dst s = s) /\
  DeleteDestination dst (DeleteDestination dst s) = DeleteDestination dst s.
Proof.
  repeat split; simpl.
  - apply lookup_insert_eq.
  - intros k Hk. by apply lookup_insert_ne.
  - intros Hin. apply FusisState_eq; simpl; [by apply insert_id | done].
  - apply FusisState_eq; simpl; [apply insert_insert_eq | done].
  - intros Hout. apply FusisState_eq; simpl; [by apply delete_id | done].
  - apply FusisState_eq; simpl; [apply delete_delete_eq | done].
  - apply lookup_insert_eq.
  - intros k Hk. by apply lookup_insert_ne.
  - intros Hin. apply FusisState_eq; simpl; [done | by apply insert_id].
  - apply FusisState_eq; simpl; [done | apply insert_insert_eq].
  - intros Hout. apply FusisState_eq; simpl; [done | by apply delete_id].
  - apply FusisState_eq; simpl; [done | apply delete_delete_eq].
Qed.

(** C8, as the code has it.  [GetService name] leaves the Catalog as it
    was.  When a Service with a non-empty Name is stored under [name] it
    returns a copy of it whose Destinations are the stored Destinations that
    carry its id as ServiceId, each once; in every other case, that is when
    nothing is stored under [name] or the entry stored there has an empty
    Name, it returns [ErrServiceNotFound]. *)
Theorem GetService_copy_or_not_found (s : FusisState) (name : string) :
  (GetService name s).2 = s /\
  (forall svc, Services s !! name = Some svc -> Service.Name svc <> "" ->
     exists dsts,
       (GetService name s).1 = inl (Service.with_Destinations dsts svc) /\
       dsts ≡ₚ filter (fun d => Destination.ServiceId d = Service_GetId svc)
                      ((map_to_list (Destinations s)).*2)) /\
  ((GetService name s).1 = inr ErrServiceNotFound <->
     (forall svc, Services s !! name = Some svc -> Service.Name svc = "")).
Proof.
  unfold GetService. split; [by case_decide|]. split.
  - intros svc Hsvc Hname. rewrite Hsvc. cbn [default from_option id].
    rewrite decide_False by done. cbn [fst].
    exists (Service.Destinations (getDestinations s svc)).
    split; [done | apply getDestinations_perm].
  - destruct (Services s !! name) as [svc|] eqn:Hsvc; cbn [default from_option id].
    + case_decide as Hname; cbn [fst].
      * split; [|done]. intros _ svc' [= <-]. done.
      * split; [done|]. intros Hall. destruct Hname. by apply Hall.
    + rewrite decide_True by done. cbn [fst]. split; [|done]. by intros _ svc' [=].
Qed.

End CatalogClaims.

(** ** Snapshot and restore *)

Section RestoreFacts.
Context {ids : Identity} {order : MapRange}.

Local Abbreviation addDestinations := (foldl (fun s d => AddDestination d s)).

Lemma addDestinations_Services ds s :
  Services (addDestinations s ds) = Services s.
Proof. revert s. induction ds as [|d ds IH]; intros s; [done|]. simpl. by rewrite IH. Qed.

Lemma addDestinations_sub (DD : gmap string Destination.t) ds s :
  Destinations s ⊆ DD ->
  (forall d, d ∈ ds -> DD !! Destination_GetId d = Some d) ->
  Destinations (addDestinations s ds) ⊆ DD.
Proof.
  revert s. induction ds as [|d ds IH]; intros s Hsub Hds; [done|]. simpl.
  apply IH.
  - simpl. apply insert_subseteq_l; [|done]. apply Hds. left.
  - intros d' Hd'. apply Hds. by right.
Qed.

Lemma addDestinations_mono ds s k :
  is_Some (Destinations s !! k) ->
  is_Some (Destinations (addDestinations s ds) !! k).
Proof.
  revert s. induction ds as [|d ds IH]; intros s Hk; [done|]. simpl.
  apply IH. simpl. apply lookup_insert_is_Some.
  destruct (decide (Destination_GetId d = k)); [by left | by right].
Qed.

Lemma addDestinations_cover ds s d :
  d ∈ ds -> is_Some (Destinations (addDestinations s ds) !! Destination_GetId d).
Proof.
  revert s. induction ds as [|d0 ds IH]; intros s Hd.
  - by apply elem_of_nil in Hd.
  - simpl. apply elem_of_cons in Hd as [->|Hd]; [|by apply IH].
    apply addDestinations_mono. simpl. rewrite lookup_insert_eq. eauto.
Qed.

Lemma restoreServices_cons svc L s :
  restoreServices (svc :: L) s =
  restoreServices L (addDestinations (AddService svc s) (Service.Destinations svc)).
Proof. done. Qed.

Lemma restoreServices_sub (DS : gmap string Service.t)
    (DD : gmap string Destination.t) L s :
  Services s ⊆ DS -> Destinations s ⊆ DD ->
  (forall svc, svc ∈ L ->
     DS !! Service_GetId svc = Some svc /\
     forall d, d ∈ Service.Destinations svc -> DD !! Destination_GetId d = Some d) ->
  Services (restoreServices L s) ⊆ DS /\ Destinations (restoreServices L s) ⊆ DD.
Proof.
  revert s. induction L as [|svc L IH]; intros s HS HD HL; [done|].
  rewrite restoreServices_cons.
  destruct (HL svc) as [Hsvc Hds]; [left|].
  apply IH.
  - rewrite addDestinations_Services. simpl. by apply insert_subseteq_l.
  - by apply addDestinations_sub.
  - intros svc' Hin. apply HL. by right.
Qed.

Lemma restoreServices_mono L s :
  (forall k, is_Some (Services s !! k) ->
     is_Some (Services (restoreServices L s) !! k)) /\
  (forall k, is_Some (Destinations s !! k) ->
     is_Some (Destinations (restoreServices L s) !! k)).
Proof.
  revert s. induction L as [|svc L IH]; intros s; [done|].
  rewrite restoreServices_cons.
  destruct (IH (addDestinations (AddService svc s) (Service.Destinations svc)))
    as [IHs IHd].
  split; intros k Hk.
  - apply IHs. rewrite addDestinations_Services. simpl.
    apply lookup_insert_is_Some.
    destruct (decide (Service_GetId svc = k)); [by left | by right].
  - apply IHd. by apply addDestinations_mono.
Qed.

Lemma restoreServices_cover L s svc :
  svc ∈ L ->
  is_Some (Services (restoreServices L s) !! Service_GetId svc) /\
  forall d, d ∈ Service.Destinations svc ->
    is_Some (Destinations (restoreServices L s) !! Destination_GetId d).
Proof.
  revert s. induction L as [|svc0 L IH]; intros s Hin.
  - by apply elem_of_nil in Hin.
  - rewrite restoreServices_cons.
    apply elem_of_cons in Hin as [->|Hin]; [|by apply IH].
    destruct (restoreServices_mono L
                (addDestinations (AddService svc0 s) (Service.Destinations svc0)))
      as [Hs Hd].
    split.
    + apply Hs. rewrite addDestinations_Services. simpl.
      rewrite lookup_insert_eq. eauto.
    + intros d Hdin. apply Hd. by apply addDestinations_cover.
Qed.

Lemma map_sub_cover_eq {V : Type} (m1 m2 : gmap string V) :
  m1 ⊆ m2 -> (forall k, is_Some (m2 !! k) -> is_Some (m1 !! k)) -> m1 = m2.
Proof.
  intros Hsub Hcov. apply map_eq. intros k.
  destruct (m2 !! k) as [v|] eqn:H2.
  - destruct (Hcov k) as [v' Hv']; [eauto|].
    rewrite Hv'. pose proof (lookup_weaken _ _ _ _ Hv' Hsub). congruence.
  - destruct (m1 !! k) as [v|] eqn:H1; [|done].
    pose proof (lookup_weaken _ _ _ _ H1 Hsub). congruence.
Qed.

(** What restoring the slice of [GetServices] into the empty Catalog
    stores: the Destinations map of the source, and each Service of the
    source with its Destinations inlined. *)
Lemma restore_of_GetServices (s : FusisState) :
  (forall dsts svc,
     Service_GetId (Service.with_Destinations dsts svc) = Service_GetId svc) ->
  keyed s -> no_orphans s ->
  Services (restoreServices (GetServices s).1 NewFusisState)
    = getDestinations s <$> Services s /\
  Destinations (restoreServices (GetServices s).1 NewFusisState)
    = Destinations s.
Proof.
  intros Hid [Hks Hkd] Horph.
  assert (Hid' : forall svc,
            Service_GetId (getDestinations s svc) = Service_GetId svc).
  { intros svc. apply Hid. }
  assert (Hcons : forall svc', svc' ∈ (GetServices s).1 ->
            (getDestinations s <$> Services s) !! Service_GetId svc' = Some svc' /\
            forall d, d ∈ Service.Destinations svc' ->
              Destinations s !! Destination_GetId d = Some d).
  { intros svc' (k & svc & Hk & ->)%elem_of_GetServices. split.
    - rewrite Hid', (Hks _ _ Hk). by rewrite lookup_fmap, Hk.
    - intros d [[k' Hk'] _]%elem_of_getDestinations.
      by rewrite (Hkd _ _ Hk'). }
  destruct (restoreServices_sub (getDestinations s <$> Services s)
              (Destinations s) (GetServices s).1 NewFusisState)
    as [HsubS HsubD]; [apply map_empty_subseteq | apply map_empty_subseteq | done |].
  split; apply map_sub_cover_eq; try done.
  - intros k [v Hv]. rewrite lookup_fmap in Hv.
    destruct (Services s !! k) as [svc|] eqn:Hk; [|done].
    destruct (restoreServices_cover (GetServices s).1 NewFusisState
                (getDestinations s svc)) as [Hc _].
    { apply elem_of_GetServices. eauto. }
    by rewrite Hid', (Hks _ _ Hk) in Hc.
  - intros k [d Hd].
    destruct (Horph _ _ Hd) as [svc Hsvc].
    destruct (restoreServices_cover (GetServices s).1 NewFusisState
                (getDestinations s svc)) as [_ Hc].
    { apply elem_of_GetServices. eauto. }
    specialize (Hc d). rewrite (Hkd _ _ Hd) in Hc. apply Hc.
    apply elem_of_getDestinations. split; [eauto|].
    by rewrite (Hks _ _ Hsvc).
Qed.

End RestoreFacts.

Section RestoreClaim.
Context {ids : Identity} {order : MapRange}.

Lemma with_Destinations_twice dsts dsts' svc :
  Service.with_Destinations dsts (Service.with_Destinations dsts' svc)
  = Service.with_Destinations dsts svc.
Proof. done. Qed.

(** C5, as the code has it.  Take a Catalog built by the Catalog's own
    methods in which no Destination is an orphan, and ids that do not depend
    on the inlined Destinations.  Restoring the slice that [GetServices]
    returns for it into the empty Catalog, by [AddService] for each Service
    and [AddDestination] for each nested Destination, gives a Catalog that
    the getters cannot tell from the source. *)
Theorem snapshot_restore_roundtrip (s : FusisState) :
  (forall dsts svc,
     Service_GetId (Service.with_Destinations dsts svc) = Service_GetId svc) ->
  built s -> no_orphans s ->
  observably_equal (restoreServices (GetServices s).1 NewFusisState) s.
Proof.
  intros Hid Hbuilt Horph.
  destruct (restore_of_GetServices s Hid (built_keyed s Hbuilt) Horph) as [HS HD].
  set (s' := restoreServices (GetServices s).1 NewFusisState) in *.
  assert (Hget : forall svc, getDestinations s' (getDestinations s svc)
                             = getDestinations s svc).
  { intros svc. unfold getDestinations. cbv zeta. by rewrite HD, Hid. }
  split; [|split].
  - intros name. unfold GetService. rewrite HS, lookup_fmap.
    destruct (Services s !! name) as [svc|]; cbn [fmap option_fmap option_map
      default from_option id]; [|done].
    change (Service.Name (getDestinations s svc)) with (Service.Name svc).
    case_decide; [done|]. cbn [fst]. by rewrite Hget.
  - intros name. unfold GetDestination. rewrite HD. by case_decide.
  - unfold GetServices. cbn [fst].
    rewrite (range_perm _ (Services s')), (range_perm _ (Services s)), HS.
    rewrite map_to_list_fmap, <- !list_fmap_compose.
    match goal with |- ?l1 ≡ₚ ?l2 => assert (l1 = l2) as ->; [|done] end.
    apply list_fmap_ext. intros i [k svc] _. simpl. apply Hget.
Qed.

End RestoreClaim.

(** ** Running the world monad *)

Section MonadFacts.
Context {E : Env}.

Lemma bind_Ok {A B : Type} (m : M A) (f : A -> M B) w a w' :
  m w = (Ok a, w') -> (m ≫= f) w = f a w'.
Proof. intros Hm. unfold mbind, M_bind. by rewrite Hm. Qed.

Lemma bind_Panicked {A B : Type} (m : M A) (f : A -> M B) w msg w' :
  m w = (Panicked msg, w') -> (m ≫= f) w = (Panicked msg, w').
Proof. intros Hm. unfold mbind, M_bind. by rewrite Hm. Qed.

Lemma sys_run (c : call) w :
  sys c w = (Ok (env (trace w) c), mkWorld (State w) (trace w ++ [c])).
Proof. done. Qed.

End MonadFacts.

(** Unfold one layer of the monad and compute. *)
Ltac mrun :=
  repeat (unfold sys_, mbind, M_bind, mret, M_ret, sys, getState, modifyState,
            panic, deref, withState;
          cbn [State trace fst snd]).

(** ** The engine: [Apply] *)

Section ApplyFacts.
Context {ids : Identity} {order : MapRange} {E : Env} {J : Json}.

(** The Catalog that the switch of [Apply] leaves for command [c]. *)
Lemma applyCommand_decoded (l : Log) (c : Command) (w : World) :
  json_Unmarshal_Command (Data l) = inl c ->
  carries_payload c ->
  exists st',
    applyCommand l w = (Ok tt, mkWorld st' (trace w)) /\
    (forall svc, Op c = AddServiceOp -> Service c = Some svc ->
       st' = AddService svc (State w)) /\
    (forall svc, Op c = DelServiceOp -> Service c = Some svc ->
       st' = DeleteService svc (State w)) /\
    (forall dst, Op c = AddDestinationOp -> Destination c = Some dst ->
       st' = AddDestination dst (State w)) /\
    (forall dst, Op c = DelDestinationOp -> Destination c = Some dst ->
       st' = DeleteDestination dst (State w)) /\
    (Op c <> AddServiceOp -> Op c <> DelServiceOp ->
     Op c <> AddDestinationOp -> Op c <> DelDestinationOp -> st' = State w).
Proof.
  intros Hdec [Hsvc Hdst]. unfold applyCommand. rewrite Hdec.
  unfold AddServiceOp, DelServiceOp, AddDestinationOp, DelDestinationOp in *.
  repeat case_decide.
  - destruct Hsvc as [svc Hs]; [by left|]. rewrite Hs.
    eexists. split; [reflexivity|].
    repeat split; intros; try congruence; try lia.
  - destruct Hsvc as [svc Hs]; [by right|]. rewrite Hs.
    eexists. split; [reflexivity|].
    repeat split; intros; try congruence; try lia.
  - destruct Hdst as [dst Hd]; [by left|]. rewrite Hd.
    eexists. split; [reflexivity|].
    repeat split; intros; try congruence; try lia.
  - destruct Hdst as [dst Hd]; [by right|]. rewrite Hd.
    eexists. split; [reflexivity|].
    repeat split; intros; try congruence; try lia.
  - exists (State w). split; [by destruct w|].
    repeat split; intros; congruence.
Qed.

End ApplyFacts.

(** ** The state watcher *)

Section WatchStateFacts.
Context {ids : Identity} {order : MapRange} {E : Env} {J : Json}.

(** What one reconciliation pass calls and what it returns.  The pass never
    panics, leaves the Catalog alone, and its result is the answer of
    [Ipvs.SyncState] on either branch. *)
Lemma handleStateChange_run (w : World) :
  fusis.handleStateChange w =
    if bool_decide (env (trace w) raft_State = Leader) then
      (Ok (env (trace w ++ [raft_State; Provider_SyncVIPs (State w)])
               (Ipvs_SyncState (State w))),
       mkWorld (State w)
               (trace w ++ [raft_State; Provider_SyncVIPs (State w);
                            Ipvs_SyncState (State w)]))
    else
      (Ok (env (trace w ++ [raft_State; Lock BalancerMu])
               (Ipvs_SyncState (State w))),
       mkWorld (State w)
               (trace w ++ [raft_State; Lock BalancerMu;
                            Ipvs_SyncState (State w); Unlock BalancerMu])).
Proof.
  unfold fusis.handleStateChange, fusis.IsLeader. mrun.
  destruct (bool_decide _); mrun; by rewrite <- !app_assoc.
Qed.

Lemma handleStateChange_total (w : World) :
  exists err w', fusis.handleStateChange w = (Ok err, w') /\ State w' = State w.
Proof.
  rewrite handleStateChange_run. destruct (bool_decide _); eauto.
Qed.

(** C1, as the code has it.  For a log entry whose data decodes to a
    Command that carries the payload of its op, [Apply] first changes the
    Catalog as the op says: AddServiceOp stores the Service under its id,
    DelServiceOp removes the entry under the Service's id, both leaving the
    Destinations alone; AddDestinationOp stores the Destination under its
    id, DelDestinationOp removes the entry under the Destination's id, both
    leaving the Services alone.  It then meets the state watcher exactly
    once on the request channel, waits for the one reply on the channel it
    sent, and returns that reply, which is the error that
    [handleStateChange] returned for the changed Catalog; the pass leaves
    the Catalog as [Apply] changed it.  A decoded Command without the
    payload of its op is outside this statement: on it [Apply] panics. *)
Theorem Apply_mutates_publishes_and_returns_reply
    (l : Log) (c : Command) (w : World) (n : chan) :
  json_Unmarshal_Command (Data l) = inl c ->
  carries_payload c ->
  exists st' err w',
    (forall svc, Op c = AddServiceOp -> Service c = Some svc ->
       st' = AddService svc (State w) /\
       Services st' = <[Service_GetId svc := svc]> (Services (State w)) /\
       Destinations st' = Destinations (State w)) /\
    (forall svc, Op c = DelServiceOp -> Service c = Some svc ->
       st' = DeleteService svc (State w) /\
       Services st' = delete (Service_GetId svc) (Services (State w)) /\
       Destinations st' = Destinations (State w)) /\
    (forall dst, Op c = AddDestinationOp -> Destination c = Some dst ->
       st' = AddDestination dst (State w) /\
       Services st' = Services (State w) /\
       Destinations st' = <[Destination_GetId dst := dst]> (Destinations (State w))) /\
    (forall dst, Op c = DelDestinationOp -> Destination c = Some dst ->
       st' = DeleteDestination dst (State w) /\
       Services st' = Services (State w) /\
       Destinations st' = delete (Destination_GetId dst) (Destinations (State w))) /\
    fusis.handleStateChange (mkWorld st' (trace w)) = (Ok err, w') /\
    State w' = st' /\
    sched.run 6 fusis.watchState
      (sched.mkSystem (Apply l) fusis.watchState w n [])
    = sched.Returned err
        (sched.mkSystem (Ret err) (Ret tt) w' (S n)
                        [sched.Request n; sched.Reply n err]).
Proof.
  intros Hdec Hpay.
  destruct (applyCommand_decoded l c w Hdec Hpay)
    as (st' & Happly & Hadd & Hdel & Hadd' & Hdel' & _).
  destruct (handleStateChange_total (mkWorld st' (trace w)))
    as (err & w' & Hpass & Hst).
  exists st', err, w'.
  split; [intros svc Hop Hs; by rewrite (Hadd svc Hop Hs)|].
  split; [intros svc Hop Hs; by rewrite (Hdel svc Hop Hs)|].
  split; [intros dst Hop Hd; by rewrite (Hadd' dst Hop Hd)|].
  split; [intros dst Hop Hd; by rewrite (Hdel' dst Hop Hd)|].
  split; [done|]. split; [done|].
  unfold Apply, publish, fusis.watchState.
  cbn [sched.run sched.step sched.fsm sched.watcher sched.shared
       sched.nextChan sched.comms].
  rewrite Happly.
  cbn [sched.run sched.step sched.stepWatcher sched.fsm sched.watcher
       sched.shared sched.nextChan sched.comms app].
  rewrite Hpass.
  cbn [sched.run sched.step sched.stepWatcher sched.fsm sched.watcher
       sched.shared sched.nextChan sched.comms app].
  by rewrite decide_True.
Qed.

(** C10.  When the data of a log entry does not decode to a Command,
    [Apply] panics: the run ends crashed, with no value returned, nothing
    sent on the request channel, no call made and the Catalog as it was. *)
Theorem Apply_panics_on_undecodable_entry
    (l : Log) (err : error) (w : World) (n : chan) (fuel : nat) :
  json_Unmarshal_Command (Data l) = inr err ->
  sched.run (S fuel) fusis.watchState
    (sched.mkSystem (Apply l) fusis.watchState w n [])
  = sched.Crashed ("failed to unmarshal command: " +:+ error_text err)
      (sched.mkSystem (Apply l) fusis.watchState w n []).
Proof.
  intros Hdec. unfold Apply at 1.
  cbn [sched.run sched.step sched.fsm sched.watcher sched.shared
       sched.nextChan sched.comms].
  unfold applyCommand at 1. rewrite Hdec. unfold panic. by destruct w.
Qed.

End WatchStateFacts.

(** ** Deleting a Service *)

Section DelServiceFacts.
Context {ids : Identity} {order : MapRange} {J : Json}.

(** A Destination stays readable after its Service is deleted, whatever
    the ids are. *)
Lemma GetDestination_after_DeleteService (s : FusisState) (svc : Service.t)
    (name : string) :
  GetDestination name (DeleteService svc s)
  = ((GetDestination name s).1, DeleteService svc s).
Proof. unfold GetDestination. simpl. by case_decide. Qed.

(** C3, as the code has it.  Applying a DelService command for [svc] to a
    Catalog built by the Catalog's methods deletes the Service and nothing
    else: no Service is stored under its id any more, so no Service that
    [GetServices] returns lists a Destination that references it; the
    Destinations map is untouched, so [GetDestination] answers as before. *)
Theorem DelService_deletes_the_Service_only
    (l : Log) (c : Command) (svc : Service.t) (w : World) :
  json_Unmarshal_Command (Data l) = inl c ->
  Op c = DelServiceOp -> Service c = Some svc ->
  built (State w) ->
  exists st',
    applyCommand l w = (Ok tt, mkWorld st' (trace w)) /\
    st' = DeleteService svc (State w) /\
    Services st' !! Service_GetId svc = None /\
    (forall svc' d, svc' ∈ (GetServices st').1 ->
       d ∈ Service.Destinations svc' ->
       Destination.ServiceId d <> Service_GetId svc) /\
    Destinations st' = Destinations (State w) /\
    (forall name, (GetDestination name st').1 = (GetDestination name (State w)).1).
Proof.
  intros Hdec Hop Hsvc Hbuilt.
  exists (DeleteService svc (State w)). split; [|split; [done|]].
  { unfold applyCommand. rewrite Hdec, Hop, Hsvc.
    unfold AddServiceOp, DelServiceOp. rewrite decide_False by done.
    by rewrite decide_True. }
  split; [apply lookup_delete_eq|]. split; [|split; [done|]].
  - intros svc' d (k & svc0 & Hk & ->)%elem_of_GetServices
      [_ Hd]%elem_of_getDestinations.
    destruct (built_keyed _ (built_DeleteService svc _ Hbuilt)) as [Hkeyed _].
    rewrite Hd, (Hkeyed _ _ Hk). intros ->.
    simpl in Hk. by rewrite lookup_delete_eq in Hk.
  - intros name. by rewrite GetDestination_after_DeleteService.
Qed.

End DelServiceFacts.

(** ** Closed examples on the Catalog *)

Section CatalogExamples.
Import examples.
#[local] Existing Instance byName.
#[local] Existing Instance listOrder.
#[local] Existing Instance demoJson.

Lemma Catalog_mutations_idempotent_witness :
  AddService web webCatalog = webCatalog /\
  DeleteService api webCatalog = webCatalog /\
  AddDestination web1 webCatalog = webCatalog /\
  DeleteDestination web2 webCatalog = webCatalog.
Proof.
  destruct (Catalog_mutations_idempotent webCatalog web web1)
    as (_ & Hadd & _ & _ & _ & _ & Hadd' & _).
  destruct (Catalog_mutations_idempotent webCatalog api web2)
    as (_ & _ & _ & Hdel & _ & _ & _ & _ & Hdel' & _).
  split; [apply Hadd; reflexivity|].
  split; [apply Hdel; reflexivity|].
  split; [apply Hadd'; reflexivity|].
  apply Hdel'; reflexivity.
Defined.

(** A Service with an empty Name is stored, and [GetService] on the key it
    is stored under reports that no Service was found. *)
Lemma GetService_not_found_for_stored_Service :
  Services (AddService anon NewFusisState) !! Service_GetId anon = Some anon /\
  (GetService (Service_GetId anon) (AddService anon NewFusisState)).1
  = inr ErrServiceNotFound.
Proof. split; reflexivity. Qed.

Lemma GetService_copy_or_not_found_witness :
  exists dsts,
    (GetService "web" webCatalog).1 = inl (Service.with_Destinations dsts web) /\
    dsts ≡ₚ filter (fun d => Destination.ServiceId d = Service_GetId web)
                   ((map_to_list (Destinations webCatalog)).*2).
Proof.
  destruct (GetService_copy_or_not_found webCatalog "web") as (_ & Hfound & _).
  apply Hfound; [reflexivity | discriminate].
Defined.

(** After the DelService command for web, web-1 still references web and
    [GetDestination] still returns it. *)
Lemma DelService_leaves_Destination_observable :
  exists st',
    applyCommand (mkLog "del web") (mkWorld webCatalog []) = (Ok tt, mkWorld st' []) /\
    (GetService "web" st').1 = inr ErrServiceNotFound /\
    (GetDestination "web-1" st').1 = inl web1 /\
    Destination.ServiceId web1 = Service_GetId web.
Proof. exists orphaned. repeat split; reflexivity. Qed.

Lemma built_webCatalog : built webCatalog.
Proof. repeat constructor. Qed.

Lemma DelService_deletes_the_Service_only_witness :
  exists st',
    applyCommand (mkLog "del web") (mkWorld webCatalog []) = (Ok tt, mkWorld st' []) /\
    st' = DeleteService web webCatalog /\
    Services st' !! Service_GetId web = None /\
    (forall svc' d, svc' ∈ (GetServices st').1 ->
       d ∈ Service.Destinations svc' ->
       Destination.ServiceId d <> Service_GetId web) /\
    Destinations st' = Destinations webCatalog /\
    (forall name, (GetDestination name st').1 = (GetDestination name webCatalog).1).
Proof.
  apply (DelService_deletes_the_Service_only (mkLog "del web")
           (mkCommand DelServiceOp (Some web) None) web (mkWorld webCatalog []));
    [reflexivity | reflexivity | reflexivity | apply built_webCatalog].
Defined.

(** The orphan web-1 is in the source and not in what restore rebuilds from
    the snapshot of the source. *)
Lemma restore_loses_orphan_Destination :
  built orphaned /\
  ~ observably_equal (restoreServices (GetServices orphaned).1 NewFusisState)
                     orphaned.
Proof.
  split; [repeat constructor|].
  intros (_ & Hdst & _). specialize (Hdst "web-1"). discriminate Hdst.
Qed.

Lemma snapshot_restore_roundtrip_witness :
  observably_equal (restoreServices (GetServices webCatalog).1 NewFusisState)
                   webCatalog.
Proof.
  apply snapshot_restore_roundtrip; [done | apply built_webCatalog |].
  intros k d Hd. unfold webCatalog in *. simpl in *.
  apply lookup_insert_Some in Hd as [[_ <-]|[_ Hd]]; [|by rewrite lookup_empty in Hd].
  by eexists.
Defined.

End CatalogExamples.

(** ** The provider: [SyncVIPs] *)

Section SyncVIPsFacts.
Context {ids : Identity} {order : MapRange} {E : Env}.

Lemma hostsMap_fold_lookup (L : list Service.t) (m : gmap string unit) ip :
  is_Some (foldl (fun m s => <[Service.Host s := tt]> m) m L !! ip) <->
  is_Some (m !! ip) \/ exists s, s ∈ L /\ Service.Host s = ip.
Proof.
  revert m. induction L as [|s L IH]; intros m; simpl.
  - split; [by left|]. intros [?|(s & Hs & _)]; [done|]. by apply elem_of_nil in Hs.
  - rewrite IH, lookup_insert_is_Some. split.
    + intros [[Heq|[_ ?]]|(s' & Hs' & Heq)].
      * right. exists s. split; [left|done].
      * by left.
      * right. exists s'. split; [by right|done].
    + intros [Hm|(s' & Hs' & Heq)].
      * destruct (decide (Service.Host s = ip)); left; [by left|by right].
      * apply elem_of_cons in Hs' as [Hs'|Hs'].
        -- left. left. by rewrite <- Hs'.
        -- right. eauto.
Qed.

Lemma hostsMap_wanted (s : FusisState) ip :
  is_Some (provider.hostsMap (GetServices s).1 !! ip) <-> wanted s ip.
Proof.
  unfold provider.hostsMap. rewrite hostsMap_fold_lookup, lookup_empty. split.
  - intros [[? [=]]|(svc' & (k & svc & Hk & ->)%elem_of_GetServices & <-)].
    by exists k, svc.
  - intros (k & svc & Hk & <-). right. exists (getDestinations s svc).
    split; [|done]. apply elem_of_GetServices. eauto.
Qed.

Lemma splitOld_fst_notin (old : list string) (m : gmap string unit) rm k :
  k ∉ old ->
  (foldl (fun '(m, toRemove) ip =>
            match m !! ip with
            | Some _ => (delete ip m, toRemove)
            | None => (m, toRemove ++ [ip])
            end) (m, rm) old).1 !! k = m !! k.
Proof.
  revert m rm. induction old as [|ip old IH]; intros m rm Hk; [done|].
  apply not_elem_of_cons in Hk as [Hne Hk]. cbn [foldl].
  destruct (m !! ip) as [[]|] eqn:Hip; rewrite IH by done; [|done].
  by apply lookup_delete_ne.
Qed.

Lemma splitOld_fst_in (old : list string) (m : gmap string unit) rm k :
  k ∈ old ->
  (foldl (fun '(m, toRemove) ip =>
            match m !! ip with
            | Some _ => (delete ip m, toRemove)
            | None => (m, toRemove ++ [ip])
            end) (m, rm) old).1 !! k = None.
Proof.
  revert m rm. induction old as [|ip old IH]; intros m rm Hk.
  - by apply elem_of_nil in Hk.
  - cbn [foldl]. destruct (decide (k ∈ old)) as [Hin|Hout].
    + destruct (m !! ip) as [[]|]; by apply IH.
    + apply elem_of_cons in Hk as [->|Hk]; [|done].
      destruct (m !! ip) as [[]|] eqn:Hip;
        rewrite splitOld_fst_notin by done; [apply lookup_delete_eq | done].
Qed.

Lemma filter_ext_elem (P Q : string -> Prop)
    `{!forall x, Decision (P x)} `{!forall x, Decision (Q x)} (l : list string) :
  (forall x, x ∈ l -> P x <-> Q x) -> filter P l = filter Q l.
Proof.
  induction l as [|x l IH]; intros Hext; [done|].
  rewrite !filter_cons.
  rewrite IH by (intros y Hy; apply Hext; by right).
  destruct (decide (P x)) as [HP|HP], (decide (Q x)) as [HQ|HQ]; try done.
  - destruct HQ. apply Hext; [left|done].
  - destruct HP. apply Hext; [left|done].
Qed.

Lemma splitOld_snd (old : list string) (m : gmap string unit) rm :
  NoDup old ->
  (foldl (fun '(m, toRemove) ip =>
            match m !! ip with
            | Some _ => (delete ip m, toRemove)
            | None => (m, toRemove ++ [ip])
            end) (m, rm) old).2
  = rm ++ filter (fun ip => m !! ip = None) old.
Proof.
  revert m rm. induction old as [|ip old IH]; intros m rm Hnd; simpl.
  - by rewrite app_nil_r.
  - apply NoDup_cons in Hnd as [Hnotin Hnd].
    rewrite filter_cons.
    destruct (m !! ip) as [[]|] eqn:Hip; rewrite IH by done.
    + rewrite decide_False by done. f_equal.
      apply filter_ext_elem. intros x Hx.
      rewrite lookup_delete_ne; [done|]. by intros ->.
    + rewrite decide_True by done. by rewrite <- app_assoc.
Qed.

Lemma allSucceed_nil h : allSucceed h [].
Proof. intros i c Hi. by rewrite lookup_nil in Hi. Qed.

Lemma allSucceed_cons h c ops :
  allSucceed h (c :: ops) <-> succeeds h c /\ allSucceed (h ++ [c]) ops.
Proof.
  split.
  - intros Hall. split.
    + specialize (Hall 0%nat c eq_refl). by rewrite take_0, app_nil_r in Hall.
    + intros i c' Hi. specialize (Hall (S i) c' Hi).
      by rewrite <- app_assoc.
  - intros [Hc Hops] [|i] c' Hi.
    + injection Hi as <-. by rewrite take_0, app_nil_r.
    + specialize (Hops i c' Hi). by rewrite <- app_assoc in Hops.
Qed.

Lemma allSucceed_app h ops1 ops2 :
  allSucceed h (ops1 ++ ops2) <->
  allSucceed h ops1 /\ allSucceed (h ++ ops1) ops2.
Proof.
  revert h. induction ops1 as [|c ops1 IH]; intros h.
  - rewrite app_nil_r. simpl. split; [|tauto].
    intros ?. split; [apply allSucceed_nil | done].
  - simpl. rewrite !allSucceed_cons, IH.
    replace (h ++ c :: ops1) with ((h ++ [c]) ++ ops1) by by rewrite <- app_assoc.
    tauto.
Qed.

Lemma addErrors_nil h iface ips :
  addErrors h iface ips = [] <-> allSucceed h (addIp iface <$> ips).
Proof.
  revert h. induction ips as [|ip ips IH]; intros h.
  - split; [intros _; apply allSucceed_nil | done].
  - rewrite fmap_cons, allSucceed_cons, <- IH. simpl.
    unfold succeeds, addIp.
    destruct (env h (net_AddIp (ip +:+ "/32") iface)); simpl; [|tauto].
    split; [done | by intros [? _]].
Qed.

Lemma delErrors_nil h iface ips :
  delErrors h iface ips = [] <-> allSucceed h (delIp iface <$> ips).
Proof.
  revert h. induction ips as [|ip ips IH]; intros h.
  - split; [intros _; apply allSucceed_nil | done].
  - rewrite fmap_cons, allSucceed_cons, <- IH. simpl.
    unfold succeeds, delIp.
    destruct (env h (net_DelIp (ip +:+ "/32") iface)); simpl; [|tauto].
    split; [done | by intros [? _]].
Qed.

Lemma addLoop_run iface ips errors w :
  provider.addLoop iface ips errors w
  = (Ok (errors ++ addErrors (trace w) iface ips),
     mkWorld (State w) (trace w ++ (addIp iface <$> ips))).
Proof.
  revert errors w. induction ips as [|ip ips IH]; intros errors w.
  - simpl. rewrite !app_nil_r. by destruct w.
  - cbn [provider.addLoop]. mrun.
    destruct (env (trace w) (net_AddIp (ip +:+ "/32") iface)) as [e|] eqn:He;
      rewrite IH; cbn [State trace addErrors fmap list_fmap];
      rewrite He, <- !app_assoc; reflexivity.
Qed.

Lemma delLoop_run iface ips errors w :
  provider.delLoop iface ips errors w
  = (Ok (errors ++ delErrors (trace w) iface ips),
     mkWorld (State w) (trace w ++ (delIp iface <$> ips))).
Proof.
  revert errors w. induction ips as [|ip ips IH]; intros errors w.
  - simpl. rewrite !app_nil_r. by destruct w.
  - cbn [provider.delLoop]. mrun.
    destruct (env (trace w) (net_DelIp (ip +:+ "/32") iface)) as [e|] eqn:He;
      rewrite IH; cbn [State trace delErrors fmap list_fmap];
      rewrite He, <- !app_assoc; reflexivity.
Qed.

End SyncVIPsFacts.

Section SyncVIPsClaim.
Context {ids : Identity} {order : MapRange} {E : Env}.

Lemma elem_of_range_keys {V : Type} (m : gmap string V) (k : string) :
  k ∈ (range m).*1 <-> is_Some (m !! k).
Proof.
  rewrite (range_perm V m), list_elem_of_fmap. split.
  - intros [[k' v] [-> Hin]]. exists v. by apply elem_of_map_to_list.
  - intros [v Hv]. exists (k, v). split; [done | by apply elem_of_map_to_list].
Qed.

Lemma NoDup_range_keys {V : Type} (m : gmap string V) : NoDup ((range m).*1).
Proof. rewrite (range_perm V m). apply NoDup_fst_map_to_list. Qed.

(** C4.  Let [old] be the addresses that the interface lists as bound,
    each once.  [SyncVIPs] then calls [AddIp], with a /32 mask, exactly for
    the hosts of the Catalog's Services that are not in [old], each once and
    in the order the map iteration picks, and [DelIp] exactly for the
    addresses of [old] that no Service has as host, each once.  Every one of
    these calls is made whether or not earlier ones failed; the messages of
    the failed ones are joined into one error, and the result is nil exactly
    when none of the calls failed.  The Catalog is left as it was. *)
Theorem SyncVIPs_adds_missing_removes_extra
    (n : provider.None) (st : FusisState) (w : World) (old : list string) :
  env (trace w) (net_GetFusisVipsIps (provider.iface n)) = inl old ->
  NoDup old ->
  exists adds dels,
    NoDup adds /\ (forall ip, ip ∈ adds <-> wanted st ip /\ ip ∉ old) /\
    NoDup dels /\ (forall ip, ip ∈ dels <-> ip ∈ old /\ ~ wanted st ip) /\
    let iface := provider.iface n in
    let h0 := trace w ++ [net_GetFusisVipsIps iface] in
    let ops := (addIp iface <$> adds) ++ (delIp iface <$> dels) in
    let msgs := addErrors h0 iface adds
                ++ delErrors (h0 ++ (addIp iface <$> adds)) iface dels in
    provider.SyncVIPs n st w = (Ok (compound msgs), mkWorld (State w) (h0 ++ ops)) /\
    (compound msgs = None <-> allSucceed h0 ops).
Proof.
  intros Hold Hnd.
  set (hosts := provider.hostsMap (GetServices st).1).
  destruct (provider.splitOld hosts old) as [toAddMap toRemove] eqn:Hsplit.
  assert (HtoAdd : forall ip, is_Some (toAddMap !! ip) <-> wanted st ip /\ ip ∉ old).
  { intros ip. replace toAddMap with (provider.splitOld hosts old).1
      by by rewrite Hsplit.
    unfold provider.splitOld. destruct (decide (ip ∈ old)) as [Hin|Hout].
    - rewrite splitOld_fst_in by done. split; [by intros [? [=]] | tauto].
    - rewrite splitOld_fst_notin by done. unfold hosts.
      rewrite hostsMap_wanted. tauto. }
  assert (HtoRemove : toRemove = filter (fun ip => hosts !! ip = None) old).
  { replace toRemove with (provider.splitOld hosts old).2 by by rewrite Hsplit.
    unfold provider.splitOld. by rewrite splitOld_snd. }
  exists ((range toAddMap).*1), toRemove.
  split; [apply NoDup_range_keys|].
  split; [intros ip; by rewrite elem_of_range_keys|].
  split; [rewrite HtoRemove; by apply NoDup_filter|].
  split.
  { intros ip. rewrite HtoRemove, list_elem_of_filter.
    rewrite <- hostsMap_wanted. fold hosts.
    rewrite eq_None_not_Some. tauto. }
  cbv zeta. split.
  - unfold provider.SyncVIPs. mrun. rewrite Hold. fold hosts. rewrite Hsplit.
    mrun. rewrite addLoop_run. cbn [State trace]. rewrite delLoop_run.
    cbn [State trace app]. rewrite <- !app_assoc.
    destruct (addErrors _ _ _ ++ delErrors _ _ _) as [|msg msgs] eqn:Hmsgs.
    + by rewrite decide_False by (simpl; lia).
    + by rewrite decide_True by (simpl; lia).
  - rewrite allSucceed_app, <- addErrors_nil, <- delErrors_nil.
    unfold compound.
    destruct (addErrors _ _ _) as [|m1 ms1]; simpl.
    + destruct (delErrors _ _ _); simpl; split; try done. by intros [_ ?].
    + split; [done | by intros [? _]].
Qed.

End SyncVIPsClaim.

(** ** The leader watcher *)

Section LeaderFacts.
Context {E : Env}.
Variable b : fusis.Balancer.

Lemma flushVips_run (w : World) :
  exists log,
    Forall is_log log /\
    fusis.flushVips b w
    = (Ok tt, mkWorld (State w)
                (trace w ++ [net_DelVips (fusis.interface b)] ++ log)).
Proof.
  unfold fusis.flushVips. mrun.
  destruct (env (trace w) (net_DelVips (fusis.interface b))) as [e|].
  - exists [logger_Error (error_text e)]. split; [by repeat constructor|].
    mrun. by rewrite <- app_assoc.
  - exists []. split; [constructor|]. by rewrite app_nil_r.
Qed.

Lemma setVips_run (w : World) :
  exists log,
    Forall is_log log /\
    fusis.setVips w
    = (Ok tt, mkWorld (State w)
                (trace w ++ [Provider_SyncVIPs (State w)] ++ log)).
Proof.
  unfold fusis.setVips. mrun.
  destruct (env (trace w) (Provider_SyncVIPs (State w))) as [e|].
  - exists [logger_Error (error_text e)]. split; [by repeat constructor|].
    mrun. by rewrite <- app_assoc.
  - exists []. split; [constructor|]. by rewrite app_nil_r.
Qed.

Lemma onLeaderChange_run (isLeader : bool) (w : World) :
  exists blk,
    leader_block (fusis.interface b) (State w) isLeader blk /\
    fusis.onLeaderChange b isLeader w = (Ok tt, mkWorld (State w) (trace w ++ blk)).
Proof.
  unfold fusis.onLeaderChange.
  set (w1 := mkWorld (State w) (trace w ++ [Lock BalancerMu])).
  destruct (flushVips_run w1) as (log1 & Hlog1 & Hflush).
  rewrite (bind_Ok _ _ w _ w1 (sys_run _ w)).
  destruct isLeader.
  - set (w2 := mkWorld (State w1) (trace w1 ++ [net_DelVips (fusis.interface b)] ++ log1)) in *.
    destruct (setVips_run w2) as (log2 & Hlog2 & Hset).
    eexists. split; [exists log1, log2; repeat split; done|].
    erewrite bind_Ok; [|erewrite bind_Ok; [apply Hset | apply Hflush]].
    mrun. subst w2 w1. cbn [State trace]. by rewrite <- !app_assoc.
  - eexists. split; [exists log1, []; repeat split; done|].
    erewrite bind_Ok; [|apply Hflush].
    mrun. subst w1. cbn [State trace]. by rewrite <- !app_assoc.
Qed.

(** C7.  For the values that the leadership channel delivers, the watcher
    runs one block of calls per value, one block after the other.  A block
    is bracketed by Lock and Unlock of the Balancer's mutex.  When the node
    became leader the block flushes the VIPs of the interface and then calls
    the provider's [SyncVIPs] on the current Catalog; when it lost
    leadership the block flushes the VIPs and binds nothing.  Failures are
    logged and change nothing of this. *)
Theorem watchLeaderChanges_flush_then_rebind (leaderCh : list bool) (w : World) :
  exists blocks,
    Forall2 (leader_block (fusis.interface b) (State w)) leaderCh blocks /\
    fusis.watchLeaderChanges b leaderCh w
    = (Ok tt, mkWorld (State w) (trace w ++ concat blocks)).
Proof.
  revert w. induction leaderCh as [|isLeader rest IH]; intros w.
  - exists []. split; [constructor|]. simpl. rewrite app_nil_r. by destruct w.
  - destruct (onLeaderChange_run isLeader w) as (blk & Hblk & Hrun).
    destruct (IH (mkWorld (State w) (trace w ++ blk))) as (blocks & Hblocks & Hrest).
    exists (blk :: blocks). split; [by constructor|].
    cbn [fusis.watchLeaderChanges]. erewrite bind_Ok; [|apply Hrun].
    rewrite Hrest. simpl. by rewrite <- app_assoc.
Qed.

End LeaderFacts.

(** ** Leaving and shutting down *)

Section LeaveFacts.
Context {E : Env}.
Variable b : fusis.Balancer.

Lemma numOtherPeers_run (w : World) :
  fusis.numOtherPeers b w
  = (Ok match env (trace w) raftPeers_Peers with
        | inl peers =>
            inl (Z.of_nat (length (filter (fun p => p <> fusis.LocalAddr b) peers)))
        | inr err => inr err
        end,
     mkWorld (State w) (trace w ++ [raftPeers_Peers])).
Proof.
  unfold fusis.numOtherPeers. mrun.
  by destruct (env (trace w) raftPeers_Peers).
Qed.

(** One turn of the polling loop. *)
Lemma leaveWait_step (fuel : nat) (limit n : Z) (w : World) :
  fusis.leaveWait b (S fuel) limit n w =
  if decide (n > 0) then
    if decide (env (trace w) time_Now < limit) then
      match env (trace w ++ [time_Now]) raftPeers_Peers with
      | inr err =>
          (Ok (Some 0),
           mkWorld (State w)
             (trace w ++ [time_Now; raftPeers_Peers;
                          logger_Error ("balancer: failed to check raft peers: "
                                        +:+ error_text err)]))
      | inl peers =>
          let cnt := Z.of_nat (length (filter (fun p => p <> fusis.LocalAddr b) peers)) in
          if decide (cnt = 0) then
            (Ok (Some cnt),
             mkWorld (State w) (trace w ++ [time_Now; raftPeers_Peers]))
          else
            fusis.leaveWait b fuel limit cnt
              (mkWorld (State w)
                 (trace w ++ [time_Now; raftPeers_Peers;
                              time_Sleep (50 * fusis.time_Millisecond)]))
      end
    else (Ok (Some n), mkWorld (State w) (trace w ++ [time_Now]))
  else (Ok (Some n), w).
Proof.
  cbn [fusis.leaveWait]. case_decide; [|done].
  rewrite (bind_Ok _ _ w _ _ (sys_run time_Now w)). cbn [State trace].
  case_decide; [|done].
  erewrite bind_Ok; [|apply numOtherPeers_run]. cbn [State trace].
  destruct (env (trace w ++ [time_Now]) raftPeers_Peers) as [peers|err].
  - cbv zeta. case_decide.
    + mrun. by rewrite <- !app_assoc.
    + rewrite (bind_Ok _ _ _ _ _ (sys_run (time_Sleep _) _)). cbn [State trace].
      by rewrite <- !app_assoc.
  - mrun. by rewrite <- !app_assoc.
Qed.

Lemma leaveWait_run (fuel : nat) (limit n : Z) (w : World) :
  clock_advances -> 0 <= n ->
  limit - env (trace w) time_Now <= Z.of_nat fuel * (50 * fusis.time_Millisecond) ->
  exists n' polls,
    fusis.leaveWait b (S fuel) limit n w
    = (Ok (Some n'), mkWorld (State w) (trace w ++ polls)) /\
    Forall is_poll polls /\
    ((n' = 0 /\ wait_is_over (fusis.LocalAddr b) n (trace w) polls) \/
     (n' <> 0 /\ grace_is_over limit (trace w) polls)).
Proof.
  intros [Hmono Hsleep]. revert n w.
  induction fuel as [|fuel IH]; intros n w Hn Hfuel; rewrite leaveWait_step.
  - (* no turn left to spare: the clock already shows the limit *)
    case_decide as Hpos.
    + rewrite decide_False by (unfold fusis.time_Millisecond in *; lia).
      exists n, [time_Now]. split; [done|]. split; [by repeat constructor|].
      right. split; [lia|]. exists (trace w). split; [done|].
      unfold fusis.time_Millisecond in *; lia.
    + exists n, []. split; [by rewrite app_nil_r; destruct w|].
      split; [constructor|]. left. split; [lia|]. left. split; [lia|done].
  - case_decide as Hpos.
    + case_decide as Hnow.
      * destruct (env (trace w ++ [time_Now]) raftPeers_Peers) as [peers|err] eqn:Hp.
        -- cbv zeta. case_decide as Hcnt.
           ++ exists 0, [time_Now; raftPeers_Peers]. rewrite Hcnt.
              split; [done|]. split; [by repeat constructor|].
              left. split; [done|]. right.
              exists (trace w ++ [time_Now]), []. split; [by rewrite <- app_assoc|].
              left. split; [|done]. exists peers. split; [done|].
              destruct (filter _ peers); [done | simpl in Hcnt; lia].
           ++ set (w3 := mkWorld _ _).
              destruct (IH (Z.of_nat (length (filter (fun p => p <> fusis.LocalAddr b) peers))) w3)
                as (n' & polls & Hrun & Hpolls & Hexit); [lia| |].
              { subst w3. cbn [trace].
                pose proof (Hmono (trace w) time_Now) as H1.
                pose proof (Hmono (trace w ++ [time_Now]) raftPeers_Peers) as H2.
                pose proof (Hsleep (trace w ++ [time_Now; raftPeers_Peers])
                              (50 * fusis.time_Millisecond)) as H3.
                rewrite <- app_assoc in H2, H3. cbn [app] in H2, H3.
                unfold fusis.time_Millisecond in *. lia. }
              exists n', ([time_Now; raftPeers_Peers;
                           time_Sleep (50 * fusis.time_Millisecond)] ++ polls).
              split; [rewrite Hrun; subst w3; cbn [State trace]; by rewrite <- app_assoc|].
              split; [by repeat constructor|].
              subst w3. cbn [trace] in Hexit.
              destruct Hexit as [[-> Hover]|[Hne Hover]]; [left|right]; split; try done.
              ** right. destruct Hover as [[Hz _]|(h & log & Heq & Hcase)]; [done|].
                 exists h, log. split; [|done]. by rewrite <- Heq, <- !app_assoc.
              ** destruct Hover as (h & Heq & Hlim). exists h.
                 split; [|done]. by rewrite <- Heq, <- !app_assoc.
        -- eexists 0, _. split; [done|]. split; [by repeat constructor|].
           left. split; [done|]. right.
           eexists (trace w ++ [time_Now]), [logger_Error _].
           split; [by rewrite <- app_assoc|]. right. split; [by exists err|eauto].
      * exists n, [time_Now]. split; [done|]. split; [by repeat constructor|].
        right. split; [lia|]. exists (trace w). split; [done|lia].
    + exists n, []. split; [by rewrite app_nil_r; destruct w|].
      split; [constructor|]. left. split; [lia|]. left. split; [lia|done].
Qed.

(** Whatever the answers, the loop only adds calls, and when it is left its
    calls are those of [waits]. *)
Lemma leaveWait_waits (fuel : nat) (limit : Z) :
  forall (n : Z) (w : World),
  exists r polls,
    fusis.leaveWait b fuel limit n w = (Ok r, mkWorld (State w) (trace w ++ polls)) /\
    forall n', r = Some n' -> waits (fusis.LocalAddr b) limit (trace w) n polls n'.
Proof.
  induction fuel as [|fuel IH]; intros n w.
  { exists None, []. split; [by rewrite app_nil_r; destruct w|done]. }
  rewrite leaveWait_step. case_decide as Hpos.
  2: { exists (Some n), []. split; [by rewrite app_nil_r; destruct w|].
       intros n' [= <-]. constructor. lia. }
  case_decide as Hnow.
  2: { exists (Some n), [time_Now]. split; [done|].
       intros n' [= <-]. apply waits_timeout; lia. }
  destruct (env (trace w ++ [time_Now]) raftPeers_Peers) as [peers|err] eqn:Hp.
  - cbv zeta. case_decide as Hcnt.
    + eexists (Some _), [time_Now; raftPeers_Peers]. split; [done|].
      intros n' [= <-]. rewrite Hcnt. eapply waits_alone; [lia|done|done|].
      destruct (filter _ peers); [done|simpl in Hcnt; lia].
    + set (turn := [time_Now; raftPeers_Peers;
                    time_Sleep (50 * fusis.time_Millisecond)]).
      destruct (IH (Z.of_nat (length (filter (fun p => p <> fusis.LocalAddr b) peers)))
                   (mkWorld (State w) (trace w ++ turn)))
        as (r & polls & Hrun & Hw).
      exists r, (turn ++ polls). cbn [State trace] in Hrun, Hw.
      split; [by rewrite Hrun, <- app_assoc|].
      intros n' Hr. eapply waits_again; [lia|done|done| |by apply Hw].
      intros Hnil. by rewrite Hnil in Hcnt.
  - eexists (Some 0), _. split; [done|].
    intros n' [= <-]. by apply waits_unreadable; [lia|done|].
Qed.

End LeaveFacts.

Section ShutdownClaim.
Context {E : Env}.
Variable b : fusis.Balancer.

Lemma is_log_not_RemovePeer (l : list call) :
  Forall is_log l -> Forall (fun c => ~ is_RemovePeer c) l.
Proof.
  intros Hl. eapply Forall_impl; [exact Hl|]. intros c. destruct c; simpl; tauto.
Qed.

Lemma is_poll_not_RemovePeer (l : list call) :
  Forall is_poll l -> Forall (fun c => ~ is_RemovePeer c) l.
Proof.
  intros Hl. eapply Forall_impl; [exact Hl|]. intros c. destruct c; simpl; tauto.
Qed.

(** [Leave], when the first read of the peer store succeeds and the serf
    pointer is set. *)
Lemma Leave_run (fuel : nat) (w : World) (peers : list string) :
  (101 <= fuel)%nat ->
  fusis.serf b = true ->
  env (trace w) raftPeers_Peers = inl peers ->
  clock_advances ->
  exists leaveLog wait,
    Forall is_log leaveLog /\
    Forall (fun c => ~ is_RemovePeer c) wait /\
    leaveLog = match env (trace w ++ [raftPeers_Peers; raft_State]) serf_Leave with
               | Some e => [logger_Error ("balancer: failed to leave LAN Serf cluster: "
                                          +:+ error_text e)]
               | None => []
               end /\
    let h0 := trace w ++ [raftPeers_Peers; raft_State; serf_Leave] ++ leaveLog in
    fusis.Leave b fuel w = (Ok (Some tt), mkWorld (State w) (h0 ++ wait)) /\
    if bool_decide (env (trace w ++ [raftPeers_Peers]) raft_State = Leader)
    then wait = []
    else exists polls warn n',
      wait = time_Now :: polls ++ warn /\ Forall is_poll polls /\
      let n0 := Z.of_nat (length (filter (fun p => p <> fusis.LocalAddr b) peers)) in
      let limit := env h0 time_Now + fusis.raftRemoveGracePeriod in
      ((warn = [] /\ wait_is_over (fusis.LocalAddr b) n0 (h0 ++ [time_Now]) polls) \/
       ((exists msg, warn = [logger_Warn msg]) /\
        grace_is_over limit (h0 ++ [time_Now]) polls)) /\
      waits (fusis.LocalAddr b) limit (h0 ++ [time_Now]) n0 polls n' /\
      warn = if decide (n' <> 0)
             then [logger_Warn
                     "balancer: failed to leave raft peer set gracefully, timeout"]
             else [].
Proof.
  intros Hfuel Hserf Hpeers Hclock.
  destruct fuel as [|fuel]; [lia|].
  unfold fusis.Leave.
  erewrite bind_Ok; [|apply numOtherPeers_run]. rewrite Hpeers. cbn [State trace].
  set (n0 := Z.of_nat (length (filter _ peers))).
  unfold fusis.IsLeader.
  erewrite bind_Ok; [|erewrite bind_Ok; [reflexivity | apply (sys_run raft_State)]].
  cbn [State trace]. rewrite <- app_assoc. cbn [app].
  rewrite Hserf.
  (* the gossip leave and its log line *)
  set (h1 := trace w ++ [raftPeers_Peers; raft_State]).
  set (leaveLog :=
         match env h1 serf_Leave with
         | Some e => [logger_Error ("balancer: failed to leave LAN Serf cluster: "
                                    +:+ error_text e)]
         | None => []
         end).
  assert (HleaveLog : Forall is_log leaveLog).
  { subst leaveLog. destruct (env h1 serf_Leave); by repeat constructor. }
  set (h0 := trace w ++ [raftPeers_Peers; raft_State; serf_Leave] ++ leaveLog).
  erewrite (bind_Ok _ _ _ tt (mkWorld (State w) h0)); cycle 1.
  { rewrite (bind_Ok _ _ _ _ _ (sys_run serf_Leave _)). cbn [State trace].
    fold h1. subst h0 leaveLog h1.
    destruct (env _ serf_Leave); mrun; rewrite <- !app_assoc; reflexivity. }
  exists leaveLog.
  destruct (decide (env (trace w ++ [raftPeers_Peers]) raft_State = Leader))
    as [Hleader|Hfollower].
  - rewrite !bool_decide_eq_true_2 by done.
    exists []. split; [done|]. split; [constructor|]. split; [done|]. cbv zeta.
    fold h0. rewrite app_nil_r. done.
  - rewrite !bool_decide_eq_false_2 by done. cbn [negb].
    rewrite (bind_Ok _ _ _ _ _ (sys_run time_Now _)). cbn [State trace].
    set (limit := env h0 time_Now + fusis.raftRemoveGracePeriod).
    destruct (leaveWait_run b fuel limit n0 (mkWorld (State w) (h0 ++ [time_Now])))
      as (n' & polls & Hrun & Hpolls & Hexit); [done | lia | |].
    { cbn [trace]. destruct Hclock as [Hmono _].
      pose proof (Hmono h0 time_Now). subst limit.
      unfold fusis.raftRemoveGracePeriod, fusis.time_Second,
        fusis.time_Millisecond. lia. }
    destruct (leaveWait_waits b (S fuel) limit n0
                (mkWorld (State w) (h0 ++ [time_Now])))
      as (r & polls2 & Hrun2 & Hwaits).
    rewrite Hrun in Hrun2. injection Hrun2 as <- Hpolls2.
    apply app_inv_head in Hpolls2. subst polls2.
    specialize (Hwaits n' eq_refl).
    rewrite (bind_Ok _ _ _ _ _ Hrun). cbn [State trace] in *.
    destruct Hexit as [[-> Hover]|[Hne Hover]].
    + exists (time_Now :: polls). split; [done|].
      split; [constructor; [by intros []|by apply is_poll_not_RemovePeer]|].
      split; [done|].
      cbv zeta. fold h0. split.
      * rewrite decide_False by lia. by rewrite <- app_assoc.
      * exists polls, [], 0. rewrite app_nil_r. split; [done|]. split; [done|].
        split; [by left|]. split; [done|]. by rewrite decide_False by lia.
    + exists (time_Now :: polls ++ [logger_Warn
        "balancer: failed to leave raft peer set gracefully, timeout"]).
      split; [done|].
      split.
      { constructor; [by intros []|]. apply Forall_app. split.
        - by apply is_poll_not_RemovePeer.
        - apply Forall_singleton. by intros []. }
      split; [done|].
      cbv zeta. fold h0. split.
      * rewrite decide_True by done. mrun. subst h0. by rewrite <- !app_assoc.
      * eexists polls, _, n'. split; [done|]. split; [done|].
        split; [right; split; [eauto|done]|]. split; [done|].
        by rewrite decide_True by done.
Qed.

(** C9, as the code has it.  Take a Balancer whose serf pointer is set, a
    first read of the peer store that succeeds, and a clock that a sleep
    advances.  [Shutdown] then reads the peers and the raft state, leaves the
    gossip cluster (logging the error of a failed leave), and, when the node
    is not the leader, waits: it reads the clock for the deadline of 5s and
    then takes the turns of [waits].  With no other peer known it takes
    none.  Every turn reads the clock and then the peer store; the loop is
    left at the first clock read that shows the deadline reached, at the
    first read of the store that fails (which is logged), and at the first
    read that shows no peer but the local one; otherwise the turn ends with
    a sleep of 50ms.  A timeout is logged exactly when the loop is left
    with peers remaining.  A leader does not wait at all.  Only after that
    come, in this order, the shutdown of serf and of raft (an error of the
    latter logged), the close of the store when there is one, and the
    clearing of the peer list.  [RemovePeer] is never called, and with 101
    turns of fuel or more the polling loop always ends. *)
Theorem Shutdown_leaves_then_waits_then_stops
    (fuel : nat) (w : World) (peers : list string) :
  (101 <= fuel)%nat ->
  fusis.serf b = true ->
  env (trace w) raftPeers_Peers = inl peers ->
  clock_advances ->
  exists leaveLog wait stopLog,
    Forall is_log leaveLog /\ Forall is_log stopLog /\
    leaveLog = match env (trace w ++ [raftPeers_Peers; raft_State]) serf_Leave with
               | Some e => [logger_Error ("balancer: failed to leave LAN Serf cluster: "
                                          +:+ error_text e)]
               | None => []
               end /\
    let h0 := trace w ++ [raftPeers_Peers; raft_State; serf_Leave] ++ leaveLog in
    let stop := [serf_Shutdown; raft_Shutdown] ++ stopLog
                ++ (if fusis.raftStore b then [raftStore_Close] else [])
                ++ [raftPeers_SetPeers []] in
    stopLog = match env ((h0 ++ wait) ++ [serf_Shutdown]) raft_Shutdown with
              | Some e => [logger_Error ("balancer: Error shutting down raft: "
                                         +:+ error_text e)]
              | None => []
              end /\
    fusis.Shutdown b fuel w
    = (Ok (Some tt), mkWorld (State w) (h0 ++ wait ++ stop)) /\
    Forall (fun c => ~ is_RemovePeer c)
           ([raftPeers_Peers; raft_State; serf_Leave] ++ leaveLog ++ wait ++ stop) /\
    if bool_decide (env (trace w ++ [raftPeers_Peers]) raft_State = Leader)
    then wait = []
    else exists polls warn n',
      wait = time_Now :: polls ++ warn /\ Forall is_poll polls /\
      let n0 := Z.of_nat (length (filter (fun p => p <> fusis.LocalAddr b) peers)) in
      let limit := env h0 time_Now + fusis.raftRemoveGracePeriod in
      ((warn = [] /\ wait_is_over (fusis.LocalAddr b) n0 (h0 ++ [time_Now]) polls) \/
       ((exists msg, warn = [logger_Warn msg]) /\
        grace_is_over limit (h0 ++ [time_Now]) polls)) /\
      waits (fusis.LocalAddr b) limit (h0 ++ [time_Now]) n0 polls n' /\
      warn = if decide (n' <> 0)
             then [logger_Warn
                     "balancer: failed to leave raft peer set gracefully, timeout"]
             else [].
Proof.
  intros Hfuel Hserf Hpeers Hclock.
  destruct (Leave_run fuel w peers Hfuel Hserf Hpeers Hclock)
    as (leaveLog & wait & HleaveLog & Hwait & HleaveEq & Hleave & Hcond).
  cbv zeta in Hleave, Hcond.
  set (h0 := trace w ++ [raftPeers_Peers; raft_State; serf_Leave] ++ leaveLog) in *.
  set (h2 := (h0 ++ wait) ++ [serf_Shutdown]).
  set (stopLog :=
         match env h2 raft_Shutdown with
         | Some e => [logger_Error ("balancer: Error shutting down raft: "
                                    +:+ error_text e)]
         | None => []
         end).
  assert (HstopLog : Forall is_log stopLog).
  { subst stopLog. destruct (env h2 raft_Shutdown); by repeat constructor. }
  exists leaveLog, wait, stopLog. split; [done|]. split; [done|].
  split; [done|].
  cbv zeta. fold h0. split; [done|]. split; [|split; [|done]].
  - unfold fusis.Shutdown. rewrite (bind_Ok _ _ _ _ _ Hleave). rewrite Hserf.
    rewrite (bind_Ok _ _ _ _ _ (sys_run serf_Shutdown _)). cbn [State trace].
    rewrite (bind_Ok _ _ _ _ _ (sys_run raft_Shutdown _)). cbn [State trace].
    fold h2. subst stopLog.
    destruct (env h2 raft_Shutdown) as [e|]; destruct (fusis.raftStore b);
      mrun; subst h2; rewrite <- !app_assoc; reflexivity.
  - rewrite !Forall_app. split; [by repeat constructor; intros []|].
    split; [by apply is_log_not_RemovePeer|]. split; [done|].
    split; [repeat constructor; by intros []|].
    split; [by apply is_log_not_RemovePeer|].
    split; [destruct (fusis.raftStore b); repeat constructor; by intros []|].
    repeat constructor; by intros [].
Qed.

End ShutdownClaim.

(** ** Closed examples on the engine, the provider and the coordinator *)

Section RunExamples.
Import examples.
#[local] Existing Instance byName.
#[local] Existing Instance listOrder.
#[local] Existing Instance demoJson.

Lemma Apply_mutates_publishes_and_returns_reply_witness :
  exists st' err w',
    (forall svc, AddServiceOp = AddServiceOp -> Some web = Some svc ->
       st' = AddService svc NewFusisState /\
       Services st' = <[Service_GetId svc := svc]> (Services NewFusisState) /\
       Destinations st' = Destinations NewFusisState) /\
    (forall svc, AddServiceOp = DelServiceOp -> Some web = Some svc ->
       st' = DeleteService svc NewFusisState /\
       Services st' = delete (Service_GetId svc) (Services NewFusisState) /\
       Destinations st' = Destinations NewFusisState) /\
    (forall dst, AddServiceOp = AddDestinationOp -> @None Destination.t = Some dst ->
       st' = AddDestination dst NewFusisState /\
       Services st' = Services NewFusisState /\
       Destinations st'
         = <[Destination_GetId dst := dst]> (Destinations NewFusisState)) /\
    (forall dst, AddServiceOp = DelDestinationOp -> @None Destination.t = Some dst ->
       st' = DeleteDestination dst NewFusisState /\
       Services st' = Services NewFusisState /\
       Destinations st'
         = delete (Destination_GetId dst) (Destinations NewFusisState)) /\
    fusis.handleStateChange (E := calmEnv Follower [] []) (mkWorld st' [])
      = (Ok err, w') /\
    State w' = st' /\
    sched.run 6 (fusis.watchState (E := calmEnv Follower [] []))
      (sched.mkSystem (Apply (mkLog "add web"))
                      (fusis.watchState (E := calmEnv Follower [] []))
                      (mkWorld NewFusisState []) 0%nat [])
    = sched.Returned err
        (sched.mkSystem (Ret err) (Ret tt) w' 1%nat
                        [sched.Request 0%nat; sched.Reply 0%nat err]).
Proof.
  apply (Apply_mutates_publishes_and_returns_reply
           (E := calmEnv Follower [] []) (mkLog "add web")
           (mkCommand AddServiceOp (Some web) None) (mkWorld NewFusisState []) 0%nat).
  - reflexivity.
  - split; [intros _; by eexists | intros [?|?]; done].
Defined.

Lemma Apply_panics_on_undecodable_entry_witness :
  sched.run 1 (fusis.watchState (E := calmEnv Follower [] []))
    (sched.mkSystem (Apply (mkLog "{"))
                    (fusis.watchState (E := calmEnv Follower [] []))
                    (mkWorld webCatalog []) 0%nat [])
  = sched.Crashed "failed to unmarshal command: unexpected end of JSON input"
      (sched.mkSystem (Apply (mkLog "{"))
                      (fusis.watchState (E := calmEnv Follower [] []))
                      (mkWorld webCatalog []) 0%nat []).
Proof.
  apply (Apply_panics_on_undecodable_entry (E := calmEnv Follower [] [])
           (mkLog "{") (SysErr "unexpected end of JSON input")
           (mkWorld webCatalog []) 0%nat 0%nat).
  reflexivity.
Defined.

(** C2, at a failing input.  On the leader, with a provider whose
    [SyncVIPs] fails and an IPVS sync that succeeds, [Apply] of an AddService
    command returns nil: the pass called [SyncVIPs], was answered the error,
    and the reply that [Apply] returns does not carry it. *)
Theorem Apply_on_leader_returns_nil_when_SyncVIPs_fails :
  let st := AddService web NewFusisState in
  env (Env := vipFailEnv) [raft_State] (Provider_SyncVIPs st) = Some vipFailure /\
  sched.run 6 (fusis.watchState (E := vipFailEnv))
    (sched.mkSystem (Apply (mkLog "add web")) (fusis.watchState (E := vipFailEnv))
                    (mkWorld NewFusisState []) 0%nat [])
  = sched.Returned None
      (sched.mkSystem (Ret None) (Ret tt)
         (mkWorld st [raft_State; Provider_SyncVIPs st; Ipvs_SyncState st])
         1%nat [sched.Request 0%nat; sched.Reply 0%nat None]).
Proof. split; reflexivity. Qed.

(** The error of that example is what the default provider returns when
    the interface refuses the address. *)
Example SyncVIPs_reports_refused_address :
  let st := AddService web NewFusisState in
  provider.SyncVIPs (E := addFailEnv) (provider.mkNone "eth0") st (mkWorld st [])
  = (Ok (Some vipFailure),
     mkWorld st [net_GetFusisVipsIps "eth0"; net_AddIp "10.0.0.1/32" "eth0"]).
Proof. reflexivity. Qed.

(** Two Services, one of their hosts bound already next to a stale address:
    the missing host is added and the stale address removed. *)
Example SyncVIPs_adds_one_removes_one :
  let st := AddService api webCatalog in
  provider.SyncVIPs (E := calmEnv Leader ["10.0.0.9"; "10.0.0.1"] [])
    (provider.mkNone "eth0") st (mkWorld st [])
  = (Ok None,
     mkWorld st [net_GetFusisVipsIps "eth0"; net_AddIp "10.0.0.2/32" "eth0";
                 net_DelIp "10.0.0.9/32" "eth0"]).
Proof. reflexivity. Qed.

(** Why the listing has to name each bound address once: listed twice, a
    wanted address is removed. *)
Example SyncVIPs_removes_wanted_address_listed_twice :
  let st := AddService web NewFusisState in
  provider.SyncVIPs (E := calmEnv Leader ["10.0.0.1"; "10.0.0.1"] [])
    (provider.mkNone "eth0") st (mkWorld st [])
  = (Ok None,
     mkWorld st [net_GetFusisVipsIps "eth0"; net_DelIp "10.0.0.1/32" "eth0"]).
Proof. reflexivity. Qed.

Lemma SyncVIPs_adds_missing_removes_extra_witness :
  let E := calmEnv Leader ["10.0.0.9"; "10.0.0.1"] [] in
  let st := AddService api webCatalog in
  exists adds dels,
    NoDup adds /\
    (forall ip, ip ∈ adds <-> wanted st ip /\ ip ∉ ["10.0.0.9"; "10.0.0.1"]) /\
    NoDup dels /\
    (forall ip, ip ∈ dels <-> ip ∈ ["10.0.0.9"; "10.0.0.1"] /\ ~ wanted st ip) /\
    provider.SyncVIPs (provider.mkNone "eth0") st (mkWorld st [])
    = (Ok (compound (addErrors [net_GetFusisVipsIps "eth0"] "eth0" adds
                     ++ delErrors ([net_GetFusisVipsIps "eth0"]
                                   ++ (addIp "eth0" <$> adds)) "eth0" dels)),
       mkWorld st ([net_GetFusisVipsIps "eth0"]
                   ++ (addIp "eth0" <$> adds) ++ (delIp "eth0" <$> dels))) /\
    (compound (addErrors [net_GetFusisVipsIps "eth0"] "eth0" adds
               ++ delErrors ([net_GetFusisVipsIps "eth0"]
                             ++ (addIp "eth0" <$> adds)) "eth0" dels) = None
     <-> allSucceed [net_GetFusisVipsIps "eth0"]
           ((addIp "eth0" <$> adds) ++ (delIp "eth0" <$> dels))).
Proof.
  cbv zeta.
  apply (SyncVIPs_adds_missing_removes_extra
           (E := calmEnv Leader ["10.0.0.9"; "10.0.0.1"] [])
           (provider.mkNone "eth0") (AddService api webCatalog)
           (mkWorld (AddService api webCatalog) []) ["10.0.0.9"; "10.0.0.1"]).
  - reflexivity.
  - compute_done.
Defined.

(** A leader with another peer in the peer store shuts down at once: it
    polls nothing and sleeps nothing between the gossip leave and the
    shutdown of raft, while the peer store still lists the node itself and
    the clock has not moved. *)
Lemma leader_Shutdown_does_not_wait :
  fusis.Shutdown (E := calmEnv Leader [] twoPeers) node 101
                 (mkWorld NewFusisState [])
  = (Ok (Some tt),
     mkWorld NewFusisState
       [raftPeers_Peers; raft_State; serf_Leave; serf_Shutdown; raft_Shutdown;
        raftStore_Close; raftPeers_SetPeers []]) /\
  env (Env := calmEnv Leader [] twoPeers)
      [raftPeers_Peers; raft_State; serf_Leave; serf_Shutdown] raftPeers_Peers
  = inl twoPeers /\
  fusis.LocalAddr node ∈ twoPeers /\
  env (Env := calmEnv Leader [] twoPeers)
      [raftPeers_Peers; raft_State; serf_Leave; serf_Shutdown] time_Now
  = env (Env := calmEnv Leader [] twoPeers) [] time_Now.
Proof. repeat split; try reflexivity. left. Qed.

Lemma slept_snoc (h : list call) (c : call) : slept (h ++ [c]) = slept h + slept [c].
Proof.
  induction h as [|c' h IH]; simpl; [lia|].
  destruct c'; rewrite ?IH; simpl; lia.
Qed.

Lemma sleepyEnv_clock_advances st peers :
  clock_advances (E := sleepyEnv st peers).
Proof.
  split; intros h c; unfold env, sleepyEnv; rewrite slept_snoc.
  - destruct c; simpl; lia.
  - simpl. lia.
Qed.

Lemma Shutdown_leaves_then_waits_then_stops_witness :
  let E := sleepyEnv Follower twoPeers in
  exists leaveLog wait stopLog,
    Forall is_log leaveLog /\ Forall is_log stopLog /\
    leaveLog = match env [raftPeers_Peers; raft_State] serf_Leave with
               | Some e => [logger_Error ("balancer: failed to leave LAN Serf cluster: "
                                          +:+ error_text e)]
               | None => []
               end /\
    let h0 := [raftPeers_Peers; raft_State; serf_Leave] ++ leaveLog in
    let stop := [serf_Shutdown; raft_Shutdown] ++ stopLog
                ++ [raftStore_Close] ++ [raftPeers_SetPeers []] in
    stopLog = match env ((h0 ++ wait) ++ [serf_Shutdown]) raft_Shutdown with
              | Some e => [logger_Error ("balancer: Error shutting down raft: "
                                         +:+ error_text e)]
              | None => []
              end /\
    fusis.Shutdown node 101 (mkWorld NewFusisState [])
    = (Ok (Some tt), mkWorld NewFusisState (h0 ++ wait ++ stop)) /\
    Forall (fun c => ~ is_RemovePeer c)
           ([raftPeers_Peers; raft_State; serf_Leave] ++ leaveLog ++ wait ++ stop) /\
    exists polls warn n',
      wait = time_Now :: polls ++ warn /\ Forall is_poll polls /\
      ((warn = [] /\
        wait_is_over "10.0.0.1:4040" 1 (h0 ++ [time_Now]) polls) \/
       ((exists msg, warn = [logger_Warn msg]) /\
        grace_is_over (env h0 time_Now + fusis.raftRemoveGracePeriod)
                      (h0 ++ [time_Now]) polls)) /\
      waits "10.0.0.1:4040" (env h0 time_Now + fusis.raftRemoveGracePeriod)
            (h0 ++ [time_Now]) 1 polls n' /\
      warn = if decide (n' <> 0)
             then [logger_Warn
                     "balancer: failed to leave raft peer set gracefully, timeout"]
             else [].
Proof.
  cbv zeta.
  apply (Shutdown_leaves_then_waits_then_stops (E := sleepyEnv Follower twoPeers)
           node 101 (mkWorld NewFusisState []) twoPeers).
  - lia.
  - reflexivity.
  - reflexivity.
  - apply sleepyEnv_clock_advances.
Defined.

End RunExamples.

(** ** Further facts about the engine *)

Section EngineRemarks.
Context {ids : Identity} {order : MapRange} {E : Env} {J : Json}.

(** X25.  A decoded Command whose op reads a payload that is nil makes
    [Apply] panic on the nil pointer, before anything is stored or sent. *)
Remark Apply_panics_on_missing_payload
    (l : Log) (c : Command) (w : World) (n : chan) (fuel : nat) :
  json_Unmarshal_Command (Data l) = inl c ->
  (((Op c = AddServiceOp \/ Op c = DelServiceOp) /\ Service c = None) \/
   ((Op c = AddDestinationOp \/ Op c = DelDestinationOp) /\ Destination c = None)) ->
  sched.run (S fuel) fusis.watchState
    (sched.mkSystem (Apply l) fusis.watchState w n [])
  = sched.Crashed "runtime error: invalid memory address or nil pointer dereference"
      (sched.mkSystem (Apply l) fusis.watchState w n []).
Proof.
  intros Hdec Hnil. unfold Apply at 1.
  cbn [sched.run sched.step sched.fsm sched.watcher sched.shared
       sched.nextChan sched.comms].
  unfold applyCommand at 1. rewrite Hdec.
  unfold AddServiceOp, DelServiceOp, AddDestinationOp, DelDestinationOp in *.
  destruct Hnil as [[Hop ->]|[Hop ->]]; repeat case_decide; try lia;
    mrun; by destruct w.
Qed.

(** [Snapshot] takes the engine's lock, reads the slice of [GetServices]
    and releases the lock; the Catalog stays as it was. *)
Remark Snapshot_run (w : World) :
  Snapshot w
  = (Ok (GetServices (State w)).1,
     mkWorld (State w) (trace w ++ [Lock EngineMu; Unlock EngineMu])).
Proof.
  unfold Snapshot. mrun. unfold GetServices. cbn [fst snd State trace].
  by rewrite <- app_assoc.
Qed.

(** [Restore] of a slice that decodes stores it with [restoreServices] and
    then asks for a reconciliation pass, whose error it returns, as [Apply]
    does. *)
Remark Restore_run (rc : string) (services : list Service.t) (w : World) (n : chan) :
  json_Decode_Services rc = inl services ->
  exists err w',
    fusis.handleStateChange
      (mkWorld (restoreServices services (State w)) (trace w)) = (Ok err, w') /\
    sched.run 6 fusis.watchState
      (sched.mkSystem (Restore rc) fusis.watchState w n [])
    = sched.Returned err
        (sched.mkSystem (Ret err) (Ret tt) w' (S n)
                        [sched.Request n; sched.Reply n err]).
Proof.
  intros Hdec.
  destruct (handleStateChange_total
              (mkWorld (restoreServices services (State w)) (trace w)))
    as (err & w' & Hpass & _).
  exists err, w'. split; [done|].
  unfold Restore. rewrite Hdec. unfold publish, fusis.watchState.
  cbn [sched.run sched.step sched.stepWatcher sched.fsm sched.watcher
       sched.shared sched.nextChan sched.comms app modifyState].
  rewrite Hpass.
  cbn [sched.run sched.step sched.stepWatcher sched.fsm sched.watcher
       sched.shared sched.nextChan sched.comms app].
  by rewrite decide_True.
Qed.

(** A [Restore] whose data does not decode returns the decoder's error and
    asks for no pass. *)
Remark Restore_undecodable (rc : string) (err : error) (w : World) (n : chan) :
  json_Decode_Services rc = inr err ->
  sched.run 1 fusis.watchState
    (sched.mkSystem (Restore rc) fusis.watchState w n [])
  = sched.Returned (Some err)
      (sched.mkSystem (Ret (Some err)) fusis.watchState w n []).
Proof. intros Hdec. unfold Restore. by rewrite Hdec. Qed.

End EngineRemarks.

(** * Further properties of the code *)

(** ** The Catalog: lookups, round trips and composition *)

Section CatalogMore.
Context {ids : Identity} {order : MapRange}.

(** X1.  In a Catalog built by its own methods every Service and every
    Destination is stored under its own id, so a Destination that
    [GetDestination name] returns has the id [name]. *)
Theorem built_Catalog_stores_entries_under_their_id (s : FusisState) :
  built s ->
  (forall k svc, Services s !! k = Some svc -> Service_GetId svc = k) /\
  (forall k d, Destinations s !! k = Some d -> Destination_GetId d = k) /\
  (forall name d, (GetDestination name s).1 = inl d -> Destination_GetId d = name).
Proof.
  intros Hbuilt. destruct (built_keyed s Hbuilt) as [Hs Hd].
  split; [done|]. split; [done|].
  intros name d. unfold GetDestination.
  destruct (Destinations s !! name) as [d'|] eqn:Hname;
    cbn [default from_option id]; case_decide; cbn [fst]; try done.
  intros [= <-]. by apply Hd.
Qed.

(** X2.  [GetDestination name] leaves the Catalog as it was; it returns the
    Destination stored under [name] when that one has a non-empty Name, and
    [ErrDestinationNotFound] exactly when nothing is stored under [name] or
    the entry stored there has an empty Name. *)
Theorem GetDestination_stored_or_not_found (s : FusisState) (name : string) :
  (GetDestination name s).2 = s /\
  (forall d, Destinations s !! name = Some d -> Destination.Name d <> "" ->
     (GetDestination name s).1 = inl d) /\
  ((GetDestination name s).1 = inr ErrDestinationNotFound <->
     (forall d, Destinations s !! name = Some d -> Destination.Name d = "")).
Proof.
  unfold GetDestination. split; [by case_decide|]. split.
  - intros d Hd Hname. rewrite Hd. cbn [default from_option id].
    by rewrite decide_False.
  - destruct (Destinations s !! name) as [d|] eqn:Hd; cbn [default from_option id].
    + case_decide as Hname; cbn [fst].
      * split; [|done]. by intros _ d' [= <-].
      * split; [done|]. intros Hall. destruct Hname. by apply Hall.
    + rewrite decide_True by done. cbn [fst]. split; [|done]. by intros _ d' [=].
Qed.

(** X3.  What is added can be read back, what is deleted cannot.  After
    [AddService svc], [GetService] on the id of [svc] returns [svc] with the
    Destinations that reference it, and after [AddDestination dst],
    [GetDestination] on the id of [dst] returns [dst], provided the Name is
    not empty; after [DeleteService] or [DeleteDestination] the same lookup
    reports not found. *)
Theorem add_then_get_delete_then_get
    (s : FusisState) (svc : Service.t) (dst : Destination.t) :
  Service.Name svc <> "" -> Destination.Name dst <> "" ->
  (exists dsts,
     (GetService (Service_GetId svc) (AddService svc s)).1
       = inl (Service.with_Destinations dsts svc) /\
     forall d, d ∈ dsts <->
       (exists k, Destinations s !! k = Some d) /\
       Destination.ServiceId d = Service_GetId svc) /\
  (GetService (Service_GetId svc) (DeleteService svc s)).1
    = inr ErrServiceNotFound /\
  (GetDestination (Destination_GetId dst) (AddDestination dst s)).1 = inl dst /\
  (GetDestination (Destination_GetId dst) (DeleteDestination dst s)).1
    = inr ErrDestinationNotFound.
Proof.
  intros Hsvc Hdst. repeat split.
  - exists (Service.Destinations (getDestinations (AddService svc s) svc)).
    split.
    + unfold GetService. cbn [Services AddService].
      rewrite lookup_insert_eq. cbn [default from_option id].
      by rewrite decide_False.
    + intros d. by rewrite elem_of_getDestinations.
  - unfold GetService. cbn [Services DeleteService].
    rewrite lookup_delete_eq. cbn [default from_option id].
    by rewrite decide_True.
  - unfold GetDestination. cbn [Destinations AddDestination].
    rewrite lookup_insert_eq. cbn [default from_option id].
    by rewrite decide_False.
  - unfold GetDestination. cbn [Destinations DeleteDestination].
    rewrite lookup_delete_eq. cbn [default from_option id].
    by rewrite decide_True.
Qed.

(** X4.  [GetServices] leaves the Catalog as it was and returns one entry
    per stored Service: as many entries as Services, each a stored Service
    whose Destinations are exactly the stored Destinations that carry its
    id as ServiceId, each stored Service among them.  In a Catalog built by
    its own methods a Destination listed under some entry therefore
    references a stored Service: an orphan is listed nowhere. *)
Theorem GetServices_lists_each_Service_with_its_Destinations (s : FusisState) :
  (GetServices s).2 = s /\
  length (GetServices s).1 = size (Services s) /\
  (forall svc', svc' ∈ (GetServices s).1 <->
     exists k svc, Services s !! k = Some svc /\ svc' = getDestinations s svc) /\
  (forall svc, exists dsts, getDestinations s svc = Service.with_Destinations dsts svc) /\
  (forall svc d, d ∈ Service.Destinations (getDestinations s svc) <->
     (exists k, Destinations s !! k = Some d) /\
     Destination.ServiceId d = Service_GetId svc) /\
  (built s -> forall svc' d,
     svc' ∈ (GetServices s).1 -> d ∈ Service.Destinations svc' ->
     is_Some (Services s !! Destination.ServiceId d)).
Proof.
  split; [done|]. split.
  { unfold GetServices. cbn [fst]. rewrite !length_fmap.
    rewrite (range_perm _ (Services s)). by rewrite length_map_to_list. }
  split; [apply elem_of_GetServices|].
  split; [intros svc; by eexists|].
  split; [apply elem_of_getDestinations|].
  intros Hbuilt svc' d (k & svc & Hk & ->)%elem_of_GetServices
    [_ Hd]%elem_of_getDestinations.
  destruct (built_keyed s Hbuilt) as [Hkeyed _].
  rewrite Hd, (Hkeyed _ _ Hk). eauto.
Qed.

(** X5.  Mutations of entries with different ids commute, and so do a
    mutation of a Service and a mutation of a Destination, in all four
    pairings of add and delete: the order in which independent commands are
    applied does not show in the Catalog.  A mutation of a Service leaves
    the Destinations as they were, and a mutation of a Destination the
    Services. *)
Theorem independent_mutations_commute
    (s : FusisState) (a b : Service.t) (c d : Destination.t) :
  Service_GetId a <> Service_GetId b ->
  Destination_GetId c <> Destination_GetId d ->
  AddService a (AddService b s) = AddService b (AddService a s) /\
  AddService a (DeleteService b s) = DeleteService b (AddService a s) /\
  DeleteService a (DeleteService b s) = DeleteService b (DeleteService a s) /\
  AddDestination c (AddDestination d s) = AddDestination d (AddDestination c s) /\
  AddDestination c (DeleteDestination d s) = DeleteDestination d (AddDestination c s) /\
  DeleteDestination c (DeleteDestination d s)
    = DeleteDestination d (DeleteDestination c s) /\
  AddService a (AddDestination c s) = AddDestination c (AddService a s) /\
  AddService a (DeleteDestination c s) = DeleteDestination c (AddService a s) /\
  DeleteService a (AddDestination c s) = AddDestination c (DeleteService a s) /\
  DeleteService a (DeleteDestination c s) = DeleteDestination c (DeleteService a s) /\
  Destinations (AddService a s) = Destinations s /\
  Destinations (DeleteService a s) = Destinations s /\
  Services (AddDestination c s) = Services s /\
  Services (DeleteDestination c s) = Services s.
Proof.
  intros Hab Hcd. repeat split; try apply FusisState_eq; simpl; try done.
  - by apply insert_insert_ne.
  - by rewrite delete_insert_ne.
  - apply delete_delete.
  - by apply insert_insert_ne.
  - by rewrite delete_insert_ne.
  - apply delete_delete.
Qed.

End CatalogMore.

(** ** The provider: failures of the listing, and an interface in sync *)

Section SyncVIPsMore.
Context {ids : Identity} {order : MapRange} {E : Env}.

(** X6.  When the addresses of the interface cannot be listed, [SyncVIPs]
    returns the error of the listing and calls nothing else: no address is
    added or removed. *)
Theorem SyncVIPs_returns_the_listing_error
    (n : provider.None) (st : FusisState) (w : World) (err : error) :
  env (trace w) (net_GetFusisVipsIps (provider.iface n)) = inr err ->
  provider.SyncVIPs n st w
  = (Ok (Some err),
     mkWorld (State w) (trace w ++ [net_GetFusisVipsIps (provider.iface n)])).
Proof. intros Herr. unfold provider.SyncVIPs. mrun. by rewrite Herr. Qed.

Lemma filter_none (P : string -> Prop) `{!forall x, Decision (P x)} (l : list string) :
  (forall x, x ∈ l -> ~ P x) -> filter P l = [].
Proof.
  induction l as [|x l IH]; intros Hnone; [done|].
  rewrite filter_cons, decide_False by (apply Hnone; left).
  apply IH. intros y Hy. apply Hnone. by right.
Qed.

(** X7.  When the interface has exactly the hosts of the Catalog's Services
    bound, each listed once, [SyncVIPs] lists the addresses and does nothing
    more: it adds nothing, removes nothing and returns nil. *)
Theorem SyncVIPs_in_sync_changes_nothing
    (n : provider.None) (st : FusisState) (w : World) (old : list string) :
  env (trace w) (net_GetFusisVipsIps (provider.iface n)) = inl old ->
  NoDup old ->
  (forall ip, ip ∈ old <-> wanted st ip) ->
  provider.SyncVIPs n st w
  = (Ok None,
     mkWorld (State w) (trace w ++ [net_GetFusisVipsIps (provider.iface n)])).
Proof.
  intros Hold Hnd Hsync.
  set (hosts := provider.hostsMap (GetServices st).1).
  assert (Hsplit : provider.splitOld hosts old = (∅, [])).
  { rewrite (surjective_pairing (provider.splitOld hosts old)). f_equal.
    - apply map_eq. intros ip. rewrite lookup_empty. unfold provider.splitOld.
      destruct (decide (ip ∈ old)) as [Hin|Hout].
      + by apply splitOld_fst_in.
      + rewrite splitOld_fst_notin by done. apply eq_None_not_Some.
        unfold hosts. rewrite hostsMap_wanted, <- Hsync. done.
    - unfold provider.splitOld. rewrite splitOld_snd by done.
      apply filter_none. intros ip Hin Hnone.
      apply Hsync, hostsMap_wanted in Hin. fold hosts in Hin.
      rewrite Hnone in Hin. by destruct Hin. }
  assert (Hrange : (range (∅ : gmap string unit)).*1 = []).
  { apply Permutation_nil_r. rewrite (range_perm _ ∅). by rewrite map_to_list_empty. }
  unfold provider.SyncVIPs. mrun. rewrite Hold. fold hosts. rewrite Hsplit.
  rewrite Hrange. mrun. rewrite addLoop_run. cbn [State trace].
  rewrite delLoop_run.
  cbn [State trace addErrors delErrors app fmap list_fmap length].
  rewrite decide_False by (simpl; lia). by rewrite !app_nil_r.
Qed.

End SyncVIPsMore.

(** ** The engine: odd commands, the next request, restore *)

Section EngineMore.
Context {ids : Identity} {order : MapRange} {E : Env} {J : Json}.

(** X8.  A Command whose op is none of the four changes nothing in the
    Catalog; [Apply] still asks for a reconciliation pass, waits for the
    reply and returns it. *)
Theorem Apply_of_an_unknown_op_only_reconciles
    (l : Log) (c : Command) (w : World) (n : chan) :
  json_Unmarshal_Command (Data l) = inl c ->
  Op c <> AddServiceOp -> Op c <> DelServiceOp ->
  Op c <> AddDestinationOp -> Op c <> DelDestinationOp ->
  exists err w',
    fusis.handleStateChange w = (Ok err, w') /\
    State w' = State w /\
    sched.run 6 fusis.watchState
      (sched.mkSystem (Apply l) fusis.watchState w n [])
    = sched.Returned err
        (sched.mkSystem (Ret err) (Ret tt) w' (S n)
                        [sched.Request n; sched.Reply n err]).
Proof.
  intros Hdec H0 H1 H2 H3.
  destruct (applyCommand_decoded l c w Hdec) as (st' & Happly & _ & _ & _ & _ & Hsame).
  { split; intros [?|?]; done. }
  rewrite (Hsame H0 H1 H2 H3) in Happly.
  destruct (handleStateChange_total w) as (err & w' & Hpass & Hst).
  exists err, w'. split; [done|]. split; [done|].
  unfold Apply, publish, fusis.watchState.
  cbn [sched.run sched.step sched.fsm sched.watcher sched.shared
       sched.nextChan sched.comms].
  rewrite Happly.
  cbn [sched.run sched.step sched.stepWatcher sched.fsm sched.watcher
       sched.shared sched.nextChan sched.comms app].
  replace (mkWorld (State w) (trace w)) with w by by destruct w.
  rewrite Hpass.
  cbn [sched.run sched.step sched.stepWatcher sched.fsm sched.watcher
       sched.shared sched.nextChan sched.comms app].
  by rewrite decide_True.
Qed.

(** X9.  The watcher that has sent a reply is ready for the next request:
    an [Apply] that finds it where the previous run left it is served as the
    first one was, on a fresh reply channel, and its request and reply come
    after those recorded before. *)
Theorem Apply_is_served_after_an_earlier_reply
    (l : Log) (c : Command) (w : World) (n : chan) (before : list sched.comm) :
  json_Unmarshal_Command (Data l) = inl c ->
  carries_payload c ->
  exists st' err w',
    applyCommand l w = (Ok tt, mkWorld st' (trace w)) /\
    fusis.handleStateChange (mkWorld st' (trace w)) = (Ok err, w') /\
    sched.run 7 fusis.watchState
      (sched.mkSystem (Apply l) (Ret tt) w n before)
    = sched.Returned err
        (sched.mkSystem (Ret err) (Ret tt) w' (S n)
                        (before ++ [sched.Request n; sched.Reply n err])).
Proof.
  intros Hdec Hpay.
  destruct (applyCommand_decoded l c w Hdec Hpay) as (st' & Happly & _).
  destruct (handleStateChange_total (mkWorld st' (trace w)))
    as (err & w' & Hpass & _).
  exists st', err, w'. split; [done|]. split; [done|].
  unfold Apply, publish.
  cbn [sched.run sched.step sched.fsm sched.watcher sched.shared
       sched.nextChan sched.comms].
  rewrite Happly.
  cbn [sched.run sched.step sched.stepWatcher sched.fsm sched.watcher
       sched.shared sched.nextChan sched.comms].
  unfold fusis.watchState at 1.
  cbn [sched.run sched.step sched.stepWatcher sched.fsm sched.watcher
       sched.shared sched.nextChan sched.comms].
  rewrite Hpass.
  cbn [sched.run sched.step sched.stepWatcher sched.fsm sched.watcher
       sched.shared sched.nextChan sched.comms].
  rewrite decide_True by done. by rewrite <- app_assoc.
Qed.

Local Abbreviation addDests := (foldl (fun s d => AddDestination d s)).

Lemma addDests_other_keys ds s k :
  (forall d, d ∈ ds -> Destination_GetId d <> k) ->
  Destinations (addDests s ds) !! k = Destinations s !! k.
Proof.
  revert s. induction ds as [|d ds IH]; intros s Hk; [done|]. simpl.
  rewrite IH by (intros d' Hd'; apply Hk; by right). simpl.
  apply lookup_insert_ne, Hk. left.
Qed.

Lemma restoreServices_other_keys services s :
  (forall k, (forall svc, svc ∈ services -> Service_GetId svc <> k) ->
     Services (restoreServices services s) !! k = Services s !! k) /\
  (forall k, (forall svc d, svc ∈ services -> d ∈ Service.Destinations svc ->
                            Destination_GetId d <> k) ->
     Destinations (restoreServices services s) !! k = Destinations s !! k).
Proof.
  revert s. induction services as [|svc services IH]; intros s; [done|].
  rewrite restoreServices_cons.
  destruct (IH (addDests (AddService svc s) (Service.Destinations svc))) as [IHs IHd].
  split; intros k Hk.
  - rewrite IHs by (intros svc' Hin; apply Hk; by right).
    rewrite addDestinations_Services. simpl. apply lookup_insert_ne, Hk. left.
  - rewrite IHd by (intros svc' d Hin; apply Hk; by right).
    rewrite addDests_other_keys; [done|]. intros d Hd. apply (Hk svc); [left|done].
Qed.

(** X10.  [Restore] does not clear the Catalog.  Data that decodes is
    stored on top of what is there: every id stored before is stored after,
    an id that the slice does not name keeps its entry, every Service of the
    slice is stored; then a reconciliation pass is asked for and its error
    returned.  Data that does not decode makes [Restore] return the
    decoder's error with the Catalog untouched and no pass asked for. *)
Theorem Restore_stores_on_top_and_reconciles
    (rc : string) (w : World) (n : chan) :
  (forall services, json_Decode_Services rc = inl services ->
     exists err w',
       sched.run 6 fusis.watchState
         (sched.mkSystem (Restore rc) fusis.watchState w n [])
       = sched.Returned err
           (sched.mkSystem (Ret err) (Ret tt) w' (S n)
                           [sched.Request n; sched.Reply n err]) /\
       State w' = restoreServices services (State w) /\
       (forall k, is_Some (Services (State w) !! k) ->
                  is_Some (Services (State w') !! k)) /\
       (forall k, is_Some (Destinations (State w) !! k) ->
                  is_Some (Destinations (State w') !! k)) /\
       (forall k, (forall svc, svc ∈ services -> Service_GetId svc <> k) ->
                  Services (State w') !! k = Services (State w) !! k) /\
       (forall k, (forall svc d, svc ∈ services -> d ∈ Service.Destinations svc ->
                                 Destination_GetId d <> k) ->
                  Destinations (State w') !! k = Destinations (State w) !! k) /\
       (forall svc, svc ∈ services ->
                    is_Some (Services (State w') !! Service_GetId svc))) /\
  (forall err, json_Decode_Services rc = inr err ->
     sched.run 1 fusis.watchState
       (sched.mkSystem (Restore rc) fusis.watchState w n [])
     = sched.Returned (Some err)
         (sched.mkSystem (Ret (Some err)) fusis.watchState w n [])).
Proof.
  split.
  - intros services Hdec.
    destruct (handleStateChange_total
                (mkWorld (restoreServices services (State w)) (trace w)))
      as (err & w' & Hpass & Hst).
    exists err, w'. split.
    { unfold Restore. rewrite Hdec. unfold publish, fusis.watchState.
      cbn [sched.run sched.step sched.stepWatcher sched.fsm sched.watcher
           sched.shared sched.nextChan sched.comms app modifyState].
      rewrite Hpass.
      cbn [sched.run sched.step sched.stepWatcher sched.fsm sched.watcher
           sched.shared sched.nextChan sched.comms app].
      by rewrite decide_True. }
    cbn [State] in Hst. rewrite Hst. split; [done|].
    destruct (restoreServices_mono services (State w)) as [Hms Hmd].
    destruct (restoreServices_other_keys services (State w)) as [Hos Hod].
    repeat split; try done.
    intros svc Hin. by apply restoreServices_cover.
  - intros err Hdec. unfold Restore. by rewrite Hdec.
Qed.

End EngineMore.

(** ** Persisting a snapshot *)

Section PersistFacts.
Import effects snapshot.
Context {Enc : Marshal}.

(** X11.  [Persist] encodes the slice, writes the bytes to the sink once
    and closes it, stopping at the first of the three that fails.  When all
    three succeed it returns nil and the sink is not cancelled; otherwise it
    cancels the sink as its last call and returns the failure: nothing is
    written after a failed encode, nothing closed after a failed write.  So
    it returns nil exactly when encode, write and close all succeeded, and
    it cancels the sink exactly when it returns an error. *)
Theorem Persist_closes_on_success_and_cancels_on_failure
    (f : fusisSnapshot) (o : list sinkCall -> forall c, sinkAnswer c)
    (h : list sinkCall) :
  exists r calls,
    Persist f o h = (Ok r, h ++ calls) /\
    (r, calls) =
      match json_Marshal_Services (Services f) with
      | inr e => (Some e, [sink_Cancel])
      | inl b =>
          match o h (sink_Write b) with
          | Some e => (Some e, [sink_Write b; sink_Cancel])
          | None =>
              match o (h ++ [sink_Write b]) sink_Close with
              | Some e => (Some e, [sink_Write b; sink_Close; sink_Cancel])
              | None => (None, [sink_Write b; sink_Close])
              end
          end
      end /\
    (r = None <->
       exists b, json_Marshal_Services (Services f) = inl b /\
                 o h (sink_Write b) = None /\
                 o (h ++ [sink_Write b]) sink_Close = None) /\
    (sink_Cancel ∈ calls <-> r <> None) /\
    (forall e, r = Some e ->
       exists pre,
         calls = pre ++ [sink_Cancel] /\ (sink_Cancel ∉ pre) /\
         ((pre = [] /\ json_Marshal_Services (Services f) = inr e) \/
          exists b, json_Marshal_Services (Services f) = inl b /\
            ((pre = [sink_Write b] /\ o h (sink_Write b) = Some e) \/
             (pre = [sink_Write b; sink_Close] /\
              o h (sink_Write b) = None /\
              o (h ++ [sink_Write b]) sink_Close = Some e)))).
Proof.
  unfold Persist, persistSteps.
  destruct (json_Marshal_Services (Services f)) as [b|e0] eqn:Henc.
  - unfold mbind, Eff_bind, ask, mret, Eff_ret.
    destruct (o h (sink_Write b)) as [e1|] eqn:Hw.
    + exists (Some e1), [sink_Write b; sink_Cancel].
      split; [by rewrite <- app_assoc|]. split; [done|].
      split; [split; [done|intros (b' & [= <-] & Hb & _); congruence]|].
      split; [split; [done|intros _; repeat constructor]|].
      intros e [= <-]. exists [sink_Write b]. split; [done|].
      split; [by intros [=]%list_elem_of_singleton|].
      right. exists b. split; [done|]. by left.
    + destruct (o (h ++ [sink_Write b]) sink_Close) as [e2|] eqn:Hc.
      * exists (Some e2), [sink_Write b; sink_Close; sink_Cancel].
        split; [by rewrite <- !app_assoc|]. split; [done|].
        split; [split; [done|intros (b' & [= <-] & _ & Hb); congruence]|].
        split; [split; [done|intros _; repeat constructor]|].
        intros e [= <-]. exists [sink_Write b; sink_Close]. split; [done|].
        split.
        { intros Hin. apply elem_of_cons in Hin as [?|Hin]; [done|].
          by apply list_elem_of_singleton in Hin. }
        right. exists b. split; [done|]. by right.
      * exists None, [sink_Write b; sink_Close].
        split; [by rewrite <- !app_assoc|]. split; [done|].
        split; [split; [intros _; by exists b|done]|].
        split; [|done]. split; [|done].
        intros Hin. apply elem_of_cons in Hin as [?|Hin]; [done|].
        by apply list_elem_of_singleton in Hin.
  - exists (Some e0), [sink_Cancel]. split; [done|]. split; [done|].
    split; [split; [done|by intros (b' & [=] & _)]|].
    split; [split; [done|intros _; repeat constructor]|].
    intros e [= <-]. exists []. split; [done|].
    split; [apply not_elem_of_nil|]. by left.
Qed.

End PersistFacts.

(** ** Gossip events *)

Section MembershipFacts.
Import membership.
Context {E : Env} {L : GoLib}.
Variable GD : string -> M (Destination.t + error).
Variable DD : Destination.t -> M unit.

Lemma addMemberToPool_run (m : Member) (w : World) :
  addMemberToPool m w
  = (Ok tt, mkWorld (State w) (trace w ++ join_block m (trace w))).
Proof.
  unfold addMemberToPool, join_block. mrun.
  destruct (env (trace w) (raft_AddPeer (remoteAddr m))) as [e|].
  - mrun. by rewrite <- app_assoc.
  - done.
Qed.

Lemma join_loop_run (ms : list Member) (w : World) :
  forEach (fun m => if isBalancer m then addMemberToPool m else mret tt) ms w
  = (Ok tt, mkWorld (State w) (trace w ++ join_blocks (trace w) ms)).
Proof.
  revert w. induction ms as [|m ms IH]; intros w.
  - simpl. rewrite app_nil_r. by destruct w.
  - cbn [forEach join_blocks]. destruct (isBalancer m).
    + rewrite (bind_Ok _ _ _ _ _ (addMemberToPool_run m w)).
      rewrite IH. cbn [State trace]. by rewrite <- app_assoc.
    + rewrite (bind_Ok _ _ w tt w) by done. apply IH.
Qed.

Lemma filter_logs_out (log : list call) :
  Forall is_log log -> filter (fun c => ~ is_log c) log = [].
Proof.
  induction 1 as [|c log Hc _ IH]; [done|].
  rewrite filter_cons, decide_False by tauto. done.
Qed.

(** Of the calls of a join, the ones that are no log lines. *)
Lemma join_blocks_peers (ms : list Member) (h : list call) :
  filter (fun c => ~ is_log c) (join_blocks h ms)
  = (fun m => raft_AddPeer (remoteAddr m)) <$> filter (fun m => isBalancer m = true) ms.
Proof.
  revert h. induction ms as [|m ms IH]; intros h; [done|].
  cbn [join_blocks]. rewrite (filter_cons _ m).
  destruct (isBalancer m) eqn:Hrole.
  - rewrite decide_True by done. rewrite fmap_cons, filter_app, IH.
    f_equal. unfold join_block. cbv zeta.
    rewrite filter_cons, decide_True by (simpl; tauto).
    rewrite filter_logs_out; [done|].
    destruct (env h _); by repeat constructor.
  - rewrite decide_False by done. apply IH.
Qed.

(** X12.  A member-join event makes the node ask raft for its state.  A
    node that is not the leader does nothing more.  The leader goes through
    the members in the order of the event: for every member whose role tag
    is balancer it calls [AddPeer] once, under the member's address and
    raft-port tag, and logs the error when [AddPeer] failed, then goes on
    with the next member; for any other member it calls nothing.  The
    Catalog is not touched. *)
Theorem join_event_adds_its_balancers_on_the_leader
    (members : list Member) (w : World) :
  let calls := if decide (env (trace w) raft_State = Leader)
               then join_blocks (trace w ++ [raft_State]) members
               else [] in
  handleEvent GD DD (EventMemberJoin members) w
  = (Ok tt, mkWorld (State w) (trace w ++ raft_State :: calls)) /\
  (env (trace w) raft_State = Leader ->
   filter (fun c => ~ is_log c) calls
   = (fun m => raft_AddPeer (remoteAddr m))
       <$> filter (fun m => isBalancer m = true) members).
Proof.
  cbv zeta. split.
  - cbn [handleEvent]. unfold handleMemberJoin, fusis.IsLeader.
    erewrite bind_Ok; [|erewrite bind_Ok; [reflexivity | apply (sys_run raft_State)]].
    cbn [State trace].
    destruct (decide (env (trace w) raft_State = Leader)) as [Hl|Hf].
    + rewrite bool_decide_eq_true_2 by done. cbn [negb].
      rewrite join_loop_run. cbn [State trace]. by rewrite <- app_assoc.
    + rewrite bool_decide_eq_false_2 by done. done.
  - intros Hl. rewrite decide_True by done. apply join_blocks_peers.
Qed.

Lemma handleBalancerLeave_run (m : Member) (w : World) :
  handleBalancerLeave m w
  = (Ok tt, mkWorld (State w) (trace w ++ leave_block m (trace w))).
Proof.
  unfold handleBalancerLeave, leave_block, fusis.IsLeader.
  erewrite bind_Ok; [|erewrite bind_Ok; [reflexivity | apply (sys_run raft_State)]].
  cbn [State trace].
  destruct (decide (env (trace w) raft_State = Leader)) as [Hl|Hf].
  - rewrite bool_decide_eq_true_2 by done. cbn [negb].
    destruct (strconv_Atoi (tag m "raft-port")) as [port perr]. cbn [fst snd].
    cbv zeta.
    set (peer := TCPAddr_String (Addr m) port).
    set (log1 := match perr with
                 | Some e => [logger_Error ("handle balancer leaver failed "
                                            +:+ error_text e)]
                 | None => []
                 end).
    erewrite (bind_Ok _ _ _ tt (mkWorld (State w) (trace w ++ [raft_State] ++ log1)));
      cycle 1.
    { subst log1. destruct perr; mrun; rewrite <- ?app_assoc, ?app_nil_r; reflexivity. }
    rewrite (bind_Ok _ _ _ _ _ (sys_run (raft_RemovePeer peer) _)).
    cbn [State trace].
    destruct (env (trace w ++ [raft_State] ++ log1) (raft_RemovePeer peer))
      as [e|] eqn:Hanswer.
    + case_decide as Hunknown; mrun; rewrite <- ?app_assoc, ?app_nil_r;
        cbn [app]; by rewrite <- ?app_assoc.
    + mrun. rewrite <- ?app_assoc. cbn [app]. by rewrite <- ?app_assoc.
  - rewrite bool_decide_eq_false_2 by done. done.
Qed.

Lemma handleAgentLeave_run (m : Member) (w : World) :
  handleAgentLeave GD DD m w
  = match GD (Name m) w with
    | (Ok (inl dst), w1) => DD dst w1
    | (Ok (inr err), w1) =>
        (Ok tt, mkWorld (State w1)
                  (trace w1 ++ [logger_Error ("handleAgenteLeave failed "
                                              +:+ error_text err)]))
    | (Panicked msg, w1) => (Panicked msg, w1)
    end.
Proof.
  unfold handleAgentLeave. unfold mbind, M_bind.
  by destruct (GD (Name m) w) as [[[dst|err]|msg] w1].
Qed.

(** X13.  A member-leave event and a member-failed event are handled
    alike: the node goes through all the members in the order of the
    event, each from the world that the one before left.  For a member that
    is a balancer it asks raft for its state; where that says it is not the
    leader nothing more is called for the member; the leader calls
    [RemovePeer] under the member's address and the port that [Atoi]
    returned for the raft-port tag (also when [Atoi] failed, which is
    logged), and logs the answer unless it is nil or the unknown-peer error.
    For any other member it looks up the Destination of the member's name,
    deletes the one found, and logs the error when there is none.  So for
    an event of balancers only the calls are those of [leave_blocks] and
    the Catalog stays as it was. *)
Theorem leave_event_removes_its_balancers_on_the_leader
    (failed : bool) (members : list Member) (w : World) :
  handleEvent GD DD (if failed then EventMemberFailed members
                     else EventMemberLeave members) w
  = depart_all GD DD members w /\
  (Forall (fun m => isBalancer m = true) members ->
   depart_all GD DD members w
   = (Ok tt, mkWorld (State w) (trace w ++ leave_blocks (trace w) members))).
Proof.
  split.
  - assert (Hloop : handleMemberLeave GD DD members w = depart_all GD DD members w).
    { unfold handleMemberLeave. revert w.
      induction members as [|m ms IH]; intros w; [done|].
      cbn [forEach depart_all]. unfold departs.
      destruct (isBalancer m).
      - rewrite (bind_Ok _ _ _ _ _ (handleBalancerLeave_run m w)). apply IH.
      - rewrite <- handleAgentLeave_run.
        destruct (handleAgentLeave GD DD m w) as [[[]|msg] w1] eqn:Hagent.
        + rewrite (bind_Ok _ _ _ _ _ Hagent). apply IH.
        + by rewrite (bind_Panicked _ _ _ _ _ Hagent). }
    destruct failed; exact Hloop.
  - revert w. induction members as [|m ms IH]; intros w Hroles.
    + simpl. rewrite app_nil_r. by destruct w.
    + apply Forall_cons in Hroles as [Hm Hms].
      cbn [depart_all leave_blocks]. unfold departs. rewrite Hm.
      rewrite (IH _ Hms). cbn [State trace]. by rewrite <- app_assoc.
Qed.

End MembershipFacts.

(** ** Leaving: an unreadable peer store, and the time slept *)

Section LeaveMore.
Context {E : Env}.
Variable b : fusis.Balancer.

(** X14.  When the first read of the peer store fails, [Leave] logs the
    failure and returns at once: the gossip cluster is not left and nothing
    is waited for.  [Shutdown] goes on all the same: it shuts down serf and
    raft, closes the store when there is one and clears the peer list. *)
Theorem Shutdown_with_unreadable_peers_skips_the_leave
    (fuel : nat) (w : World) (err : error) :
  fusis.serf b = true ->
  env (trace w) raftPeers_Peers = inr err ->
  exists stopLog,
    Forall is_log stopLog /\
    fusis.Leave b fuel w
    = (Ok (Some tt),
       mkWorld (State w)
         (trace w ++ [raftPeers_Peers;
                      logger_Error ("balancer: failed to check raft peers: "
                                    +:+ error_text err)])) /\
    fusis.Shutdown b fuel w
    = (Ok (Some tt),
       mkWorld (State w)
         (trace w ++ [raftPeers_Peers;
                      logger_Error ("balancer: failed to check raft peers: "
                                    +:+ error_text err)]
                 ++ [serf_Shutdown; raft_Shutdown] ++ stopLog
                 ++ (if fusis.raftStore b then [raftStore_Close] else [])
                 ++ [raftPeers_SetPeers []])).
Proof.
  intros Hserf Hpeers.
  set (h1 := trace w ++ [raftPeers_Peers;
                         logger_Error ("balancer: failed to check raft peers: "
                                       +:+ error_text err)]).
  assert (Hleave : fusis.Leave b fuel w = (Ok (Some tt), mkWorld (State w) h1)).
  { unfold fusis.Leave. erewrite bind_Ok; [|apply numOtherPeers_run].
    rewrite Hpeers. mrun. subst h1. by rewrite <- app_assoc. }
  set (h2 := h1 ++ [serf_Shutdown]).
  set (stopLog :=
         match env h2 raft_Shutdown with
         | Some e => [logger_Error ("balancer: Error shutting down raft: "
                                    +:+ error_text e)]
         | None => []
         end).
  exists stopLog. split.
  { subst stopLog. destruct (env h2 raft_Shutdown); by repeat constructor. }
  split; [done|].
  unfold fusis.Shutdown. rewrite (bind_Ok _ _ _ _ _ Hleave). rewrite Hserf.
  rewrite (bind_Ok _ _ _ _ _ (sys_run serf_Shutdown _)). cbn [State trace].
  rewrite (bind_Ok _ _ _ _ _ (sys_run raft_Shutdown _)). cbn [State trace].
  fold h2. subst stopLog.
  destruct (env h2 raft_Shutdown) as [e|]; destruct (fusis.raftStore b);
    mrun; subst h2 h1; rewrite <- !app_assoc; reflexivity.
Qed.

Lemma totalSleep_app (h1 h2 : list call) :
  totalSleep (h1 ++ h2) = totalSleep h1 + totalSleep h2.
Proof.
  induction h1 as [|c h1 IH]; simpl; [done|].
  destruct c; rewrite ?IH; lia.
Qed.

(** The polling loop entered with at most [k] sleeps of time left sleeps at
    most [k] times, and ends within [k] further turns. *)
Lemma leaveWait_sleeps (k fuel : nat) (limit n : Z) (w : World) :
  clock_advances -> (k <= fuel)%nat ->
  limit - env (trace w) time_Now <= Z.of_nat k * (50 * fusis.time_Millisecond) ->
  exists n' polls,
    fusis.leaveWait b (S fuel) limit n w
    = (Ok (Some n'), mkWorld (State w) (trace w ++ polls)) /\
    totalSleep polls <= Z.of_nat k * (50 * fusis.time_Millisecond).
Proof.
  intros [Hmono Hsleep]. revert fuel n w.
  induction k as [|k IH]; intros fuel n w Hk Hleft; rewrite leaveWait_step.
  - case_decide.
    + rewrite decide_False by (unfold fusis.time_Millisecond in *; lia).
      exists n, [time_Now]. split; [done|]. simpl. lia.
    + exists n, []. rewrite app_nil_r. split; [by destruct w|]. simpl. lia.
  - case_decide.
    + case_decide.
      * destruct (env (trace w ++ [time_Now]) raftPeers_Peers) as [peers|err].
        -- cbv zeta. case_decide as Hcnt.
           ++ eexists _, [time_Now; raftPeers_Peers]. split; [done|].
              simpl. unfold fusis.time_Millisecond. lia.
           ++ destruct fuel as [|fuel]; [lia|].
              set (w3 := mkWorld _ _).
              destruct (IH fuel
                          (Z.of_nat (length (filter (fun p => p <> fusis.LocalAddr b) peers)))
                          w3)
                as (n' & polls & Hrun & Htotal); [lia| |].
              { subst w3. cbn [trace].
                pose proof (Hmono (trace w) time_Now) as H1.
                pose proof (Hmono (trace w ++ [time_Now]) raftPeers_Peers) as H2.
                pose proof (Hsleep (trace w ++ [time_Now; raftPeers_Peers])
                              (50 * fusis.time_Millisecond)) as H3.
                rewrite <- app_assoc in H2, H3. cbn [app] in H2, H3.
                unfold fusis.time_Millisecond in *. lia. }
              exists n', ([time_Now; raftPeers_Peers;
                           time_Sleep (50 * fusis.time_Millisecond)] ++ polls).
              split.
              ** rewrite Hrun. subst w3. cbn [State trace]. by rewrite <- app_assoc.
              ** rewrite totalSleep_app. cbn [totalSleep].
                 unfold fusis.time_Millisecond in *. lia.
        -- eexists 0, _. split; [done|]. simpl. unfold fusis.time_Millisecond. lia.
      * exists n, [time_Now]. split; [done|]. simpl.
        unfold fusis.time_Millisecond. lia.
    + exists n, []. rewrite app_nil_r. split; [by destruct w|]. simpl.
      unfold fusis.time_Millisecond. lia.
Qed.

(** What a node that is not the leader does after the gossip leave. *)
Lemma Leave_wait_sleeps (fuel : nat) (n0 : Z) (w : World) :
  clock_advances -> (101 <= fuel)%nat ->
  exists calls,
    (sys time_Now ≫= fun now =>
       fusis.leaveWait b fuel (now + fusis.raftRemoveGracePeriod) n0 ≫= fun r =>
         match r with
         | None => mret None
         | Some numPeers =>
             if decide (numPeers <> 0) then
               sys_ (logger_Warn
                 "balancer: failed to leave raft peer set gracefully, timeout")
               ≫= fun _ => mret (Some tt)
             else mret (Some tt)
         end) w
    = (Ok (Some tt), mkWorld (State w) (trace w ++ calls)) /\
    totalSleep calls <= fusis.raftRemoveGracePeriod.
Proof.
  intros Hclock Hfuel. destruct fuel as [|fuel]; [lia|].
  rewrite (bind_Ok _ _ _ _ _ (sys_run time_Now _)). cbn [State trace]. cbv zeta.
  destruct (leaveWait_sleeps 100 fuel
              (env (trace w) time_Now + fusis.raftRemoveGracePeriod) n0
              (mkWorld (State w) (trace w ++ [time_Now])) Hclock)
    as (n' & polls & Hrun & Htotal); [lia| |].
  { cbn [trace]. destruct Hclock as [Hmono _].
    pose proof (Hmono (trace w) time_Now).
    unfold fusis.raftRemoveGracePeriod, fusis.time_Second, fusis.time_Millisecond.
    lia. }
  rewrite (bind_Ok _ _ _ _ _ Hrun). cbn [State trace].
  assert (Hgrace : Z.of_nat 100 * (50 * fusis.time_Millisecond)
                   = fusis.raftRemoveGracePeriod) by reflexivity.
  case_decide.
  - eexists ([time_Now] ++ polls ++ [logger_Warn _]). split.
    + mrun. by rewrite <- !app_assoc.
    + rewrite !totalSleep_app. simpl. lia.
  - exists ([time_Now] ++ polls). split.
    + mrun. by rewrite <- !app_assoc.
    + rewrite !totalSleep_app. simpl. lia.
Qed.

(** X15.  Under a clock that a sleep advances, [Leave] always returns, and
    the sleeps it made add up to no more than the grace period of five
    seconds, whatever the peer store, raft and serf answer; 101 turns of
    the polling loop are enough. *)
Theorem Leave_sleeps_no_longer_than_the_grace_period (fuel : nat) (w : World) :
  clock_advances -> (101 <= fuel)%nat ->
  exists calls,
    fusis.Leave b fuel w = (Ok (Some tt), mkWorld (State w) (trace w ++ calls)) /\
    totalSleep calls <= fusis.raftRemoveGracePeriod.
Proof.
  intros Hclock Hfuel.
  assert (Hpos : 0 <= fusis.raftRemoveGracePeriod) by done.
  unfold fusis.Leave. erewrite bind_Ok; [|apply numOtherPeers_run].
  cbn [State trace].
  destruct (env (trace w) raftPeers_Peers) as [peers|err].
  - unfold fusis.IsLeader.
    erewrite bind_Ok; [|erewrite bind_Ok; [reflexivity | apply (sys_run raft_State)]].
    cbn [State trace].
    set (n0 := Z.of_nat (length (filter _ peers))).
    set (h1 := (trace w ++ [raftPeers_Peers]) ++ [raft_State]).
    assert (Hgossip : exists gossip,
              (if fusis.serf b
               then sys serf_Leave ≫= fun err =>
                      match err with
                      | Some e =>
                          sys_ (logger_Error
                                  ("balancer: failed to leave LAN Serf cluster: "
                                   +:+ error_text e))
                      | None => mret tt
                      end
               else mret tt) (mkWorld (State w) h1)
              = (Ok tt, mkWorld (State w) (h1 ++ gossip)) /\
              totalSleep gossip = 0).
    { destruct (fusis.serf b).
      - rewrite (bind_Ok _ _ _ _ _ (sys_run serf_Leave _)). cbn [State trace].
        destruct (env h1 serf_Leave) as [e|].
        + eexists [serf_Leave; logger_Error _]. split; [|done].
          mrun. by rewrite <- app_assoc.
        + exists [serf_Leave]. split; [|done]. done.
      - exists []. split; [|done]. by rewrite app_nil_r. }
    destruct Hgossip as (gossip & Hgossip & Hquiet).
    rewrite (bind_Ok _ _ _ _ _ Hgossip).
    destruct (bool_decide _); cbn [negb].
    + exists ([raftPeers_Peers; raft_State] ++ gossip). split.
      * subst h1. by rewrite <- !app_assoc.
      * rewrite totalSleep_app. simpl. lia.
    + destruct (Leave_wait_sleeps fuel n0 (mkWorld (State w) (h1 ++ gossip))
                  Hclock Hfuel) as (calls & Hwait & Htotal).
      exists ([raftPeers_Peers; raft_State] ++ gossip ++ calls). split.
      * rewrite Hwait. cbn [State trace]. subst h1. by rewrite <- !app_assoc.
      * rewrite !totalSleep_app. simpl. lia.
  - eexists [raftPeers_Peers; logger_Error _]. split; [|done].
    mrun. by rewrite <- app_assoc.
Qed.

End LeaveMore.

(** ** Start-up *)

Ltac eff_unfold :=
  unfold effects.ask_;
  unfold mbind, effects.Eff_bind, effects.ask, mret, effects.Eff_ret;
  cbn beta iota.

(** Case analysis on every answer that a start-up computation reads. *)
Ltac eff_cases o :=
  repeat match goal with
         | |- context [decide (String.length ?x = 0%nat)] =>
             destruct (decide (String.length x = 0%nat)); cbn beta iota
         | |- context [startup.json_Decode_peers ?x] =>
             destruct (startup.json_Decode_peers x) as [?peers|?derr] eqn:?Hdec;
             cbn beta iota
         | |- context [match o ?h' ?c with _ => _ end] =>
             destruct (o h' c) eqn:?; cbn beta iota
         | |- context [if ?b && bool_decide ?P then _ else _] =>
             destruct (b && bool_decide P) eqn:?Hboot; cbn beta iota
         | |- context [if startup.DevMode ?cfg then _ else _] =>
             destruct (startup.DevMode cfg) eqn:?Hdev; cbn beta iota
         | |- context [decide (startup.Stats_Interval ?cfg > 0)] =>
             destruct (decide (startup.Stats_Interval cfg > 0)); cbn beta iota
         end.

(** Membership in a list of calls that is written out. *)
Ltac in_calls H :=
  repeat (apply elem_of_cons in H as [H|H]; [try discriminate H|]);
  try (by apply elem_of_nil in H).

Section StartupFacts.
Import effects startup.
Context {Lib : SetupLib}.
Variable config : BalancerConfig.

(** X16.  [readPeersJSON] reads the file once.  A read error other than
    not-exist is returned.  A file that does not exist, and a file that is
    empty, give no peers and no error; any other content gives what the
    decoder gives. *)
Theorem readPeersJSON_missing_or_empty_is_no_peers
    (path : string) (o : list setupCall -> forall c, setupAnswer c)
    (h : list setupCall) :
  exists r,
    readPeersJSON path o h = (Ok r, h ++ [ioutil_ReadFile path]) /\
    (forall b e, o h (ioutil_ReadFile path) = (b, Some (e, false)) -> r = inr e) /\
    (forall e, o h (ioutil_ReadFile path) = ("", Some (e, true)) -> r = inl []) /\
    (o h (ioutil_ReadFile path) = ("", None) -> r = inl []) /\
    (forall b, o h (ioutil_ReadFile path) = (b, None) -> b <> "" ->
               r = json_Decode_peers b).
Proof.
  unfold readPeersJSON. eff_unfold.
  destruct (o h (ioutil_ReadFile path)) as [b [[e []]|]] eqn:Hread; cbn beta iota.
  all: try case_decide; eexists; (split; [reflexivity|]).
  all: repeat split; intros; try congruence.
  all: simplify_eq; try done.
  all: match goal with
       | H : String.length ?x = 0%nat, H' : ?x <> EmptyString |- _ => by destruct x
       end.
Qed.

(** *** Plans: running calls up to the first failure *)

Lemma upToFailure_None (o : list setupCall -> forall c, setupAnswer c)
    (plan : list setupCall) :
  forall h, (upToFailure o h plan).1 = None <-> all_succeed o h plan.
Proof.
  induction plan as [|c plan IH]; intros h; cbn [upToFailure all_succeed].
  - done.
  - destruct (refusal c (o h c)) as [e|]; cbn [fst].
    + split; [done|by intros [? _]].
    + rewrite IH. tauto.
Qed.

Lemma upToFailure_all (o : list setupCall -> forall c, setupAnswer c)
    (plan : list setupCall) :
  forall h, all_succeed o h plan -> (upToFailure o h plan).2 = plan.
Proof.
  induction plan as [|c plan IH]; intros h; cbn [upToFailure all_succeed]; [done|].
  intros [-> Hrest]. cbn [snd]. by rewrite IH.
Qed.

Lemma upToFailure_prefix (o : list setupCall -> forall c, setupAnswer c)
    (plan : list setupCall) :
  forall h, exists rest, plan = (upToFailure o h plan).2 ++ rest.
Proof.
  induction plan as [|c plan IH]; intros h; cbn [upToFailure].
  - by exists [].
  - destruct (refusal c (o h c)); cbn [snd].
    + by exists plan.
    + destruct (IH (h ++ [c])) as [rest Hrest]. exists rest. cbn [app]. by f_equal.
Qed.

Lemma upToFailure_app (o : list setupCall -> forall c, setupAnswer c)
    (p1 p2 : list setupCall) :
  forall h,
    upToFailure o h (p1 ++ p2) =
    match (upToFailure o h p1).1 with
    | Some e => upToFailure o h p1
    | None => ((upToFailure o (h ++ p1) p2).1, p1 ++ (upToFailure o (h ++ p1) p2).2)
    end.
Proof.
  induction p1 as [|c p1 IH]; intros h; cbn [upToFailure app].
  - rewrite app_nil_r. by destruct (upToFailure o h p2).
  - destruct (refusal c (o h c)); cbn [fst snd]; [done|].
    rewrite IH. rewrite <- (app_assoc h [c] p1). cbn [app].
    by destruct (upToFailure o (h ++ [c]) p1) as [[e|] calls].
Qed.

(** A call of the plan that occurs nowhere before is made exactly when all
    the calls before it succeeded. *)
Lemma upToFailure_reaches (o : list setupCall -> forall c, setupAnswer c)
    (pre post : list setupCall) (c : setupCall) (h : list setupCall) :
  c ∉ pre ->
  (c ∈ (upToFailure o h (pre ++ c :: post)).2 <-> all_succeed o h pre).
Proof.
  intros Hfresh. rewrite upToFailure_app, <- upToFailure_None.
  destruct ((upToFailure o h pre).1) as [e|] eqn:Hpre.
  - split; [|done]. intros Hin. destruct Hfresh.
    destruct (upToFailure_prefix o pre h) as [rest ->].
    apply elem_of_app. by left.
  - split; [done|]. intros _. cbn [snd upToFailure]. apply elem_of_app. right.
    destruct (refusal c (o (h ++ pre) c)); cbn [snd]; apply elem_of_cons; by left.
Qed.

(** The same case analysis on both sides of a run: the next answer that is
    read is taken apart, with the calls before it written as one list. *)
Ltac plan_step o :=
  rewrite <- ?app_assoc;
  cbn [app upToFailure refusal fst snd startup.ShutdownOnRemove];
  rewrite <- ?app_assoc; cbn [app];
  repeat match goal with H : o _ _ = _ |- _ => rewrite H end;
  cbn beta iota; cbn [fst snd].

Ltac plan_cases o :=
  plan_step o;
  repeat (match goal with
          | |- context [o ?h' ?c] => destruct (o h' c) eqn:?
          end; plan_step o).

(** X17.  [setupRaft] first reads the peers manifest and returns the error
    of that.  Otherwise it goes through its plan and stops at the first
    call that fails, returning that call's error: the note on single-node
    mode when it applies, the address of the interface, the transport at
    that address and the raft port, the stores of the mode (in DevMode the
    two in memory, otherwise the three on disk), the start of the state
    watcher, and then raft, with ShutdownOnRemove off and as a single node
    exactly when Bootstrap is set and the manifest names at most one peer.
    So it returns nil exactly when every call of the plan succeeded, and the
    watcher is started exactly when the address, the transport and every
    store succeeded: before raft is created, and also when [NewRaft] then
    fails. *)
Theorem setupRaft_starts_the_watcher_right_before_raft
    (o : list setupCall -> forall c, setupAnswer c) (h : list setupCall) :
  let path := filepath_Join (ConfigPath config) "peers.json" in
  let h1 := h ++ [ioutil_ReadFile path] in
  exists pr,
    readPeersJSON path o h = (Ok pr, h1) /\
    match pr with
    | inr e => setupRaft config o h = (Ok (Some e), h1)
    | inl peers =>
        let note := if single_node config peers
                    then [logger_Infof "enabling single-node mode"] else [] in
        let plan := raft_plan config peers (ip_after o (h1 ++ note)) in
        let r := (upToFailure o h1 plan).1 in
        let calls := (upToFailure o h1 plan).2 in
        setupRaft config o h = (Ok r, h1 ++ calls) /\
        (r = None <-> all_succeed o h1 plan) /\
        (r = None -> calls = plan) /\
        (go_watchState ∈ calls <->
           all_succeed o h1
             (note ++ [config_GetIpByInterface;
                       raft_NewTCPTransport
                         (raftAddr_String (ip_after o (h1 ++ note))
                            (default 0 (Ports config !! "raft")))]
                   ++ raft_stores config)) /\
        (DevMode config = true -> Forall (fun c => ~ disk_store c) calls) /\
        (DevMode config = false -> Forall (fun c => ~ memory_store c) calls)
    end.
Proof.
  cbv zeta.
  assert (Hread : exists pr,
            readPeersJSON (filepath_Join (ConfigPath config) "peers.json") o h
            = (Ok pr, h ++ [ioutil_ReadFile
                              (filepath_Join (ConfigPath config) "peers.json")])).
  { unfold readPeersJSON. eff_unfold.
    destruct (o h (ioutil_ReadFile _)) as [b [[e []]|]]; cbn beta iota;
      try case_decide; by eexists. }
  destruct Hread as [pr Hread]. exists pr. split; [done|].
  set (path := filepath_Join (ConfigPath config) "peers.json") in *.
  set (h1 := h ++ [ioutil_ReadFile path]) in *.
  destruct pr as [peers|e].
  2: { unfold setupRaft. fold path. unfold mbind at 1, Eff_bind at 1.
       by rewrite Hread. }
  assert (Hstores :
            forall P : setupCall -> Prop,
              Forall P (raft_plan config peers
                          (ip_after o
                             (h1 ++ (if single_node config peers
                                     then [logger_Infof "enabling single-node mode"]
                                     else [])))) ->
              Forall P (upToFailure o h1
                          (raft_plan config peers
                             (ip_after o
                                (h1 ++ (if single_node config peers
                                        then [logger_Infof "enabling single-node mode"]
                                        else []))))).2).
  { intros P HP. destruct (upToFailure_prefix o (raft_plan config peers
        (ip_after o (h1 ++ (if single_node config peers
                            then [logger_Infof "enabling single-node mode"]
                            else [])))) h1) as [rest Hrest].
    rewrite Hrest in HP. by apply Forall_app in HP as [HP _]. }
  split; [|split; [apply upToFailure_None|split; [|split; [|split]]]].
  4: { intros Hdev. apply Hstores. unfold raft_plan, raft_stores. rewrite Hdev.
       destruct (single_node config peers); cbn [app];
         repeat (constructor; [simpl; tauto|]); constructor. }
  4: { intros Hdev. apply Hstores. unfold raft_plan, raft_stores. rewrite Hdev.
       destruct (single_node config peers); cbn [app];
         repeat (constructor; [simpl; tauto|]); constructor. }
  - unfold setupRaft. fold path. unfold mbind at 1, Eff_bind at 1.
    rewrite Hread. cbn beta iota. subst h1.
    unfold raft_plan, raft_stores, raft_conf, ip_after. fold (single_node config peers).
    destruct (single_node config peers); destruct (DevMode config);
      eff_unfold; plan_cases o; reflexivity.
  - intros Hr. by apply upToFailure_all, upToFailure_None.
  - set (ip := ip_after o _).
    set (pre := (if single_node config peers
                 then [logger_Infof "enabling single-node mode"] else [])
                ++ [config_GetIpByInterface;
                    raft_NewTCPTransport
                      (raftAddr_String ip (default 0 (Ports config !! "raft")))]
                ++ raft_stores config).
    replace (raft_plan config peers ip)
      with (pre ++ go_watchState
                :: [raft_NewRaft (raft_conf config peers) (DevMode config)])
      by (unfold raft_plan; subst pre; by rewrite <- !app_assoc).
    apply upToFailure_reaches. subst pre.
    unfold raft_stores. destruct (single_node config peers); destruct (DevMode config);
      cbn [app]; intros Hin; in_calls Hin.
Qed.

(** [setupRaft] and [setupSerf] return, and start neither the leader
    watcher nor the statistics ticker. *)
Lemma setupRaft_quiet (o : list setupCall -> forall c, setupAnswer c)
    (h : list setupCall) :
  exists r calls,
    setupRaft config o h = (Ok r, h ++ calls) /\
    Forall (fun c => ~ late_goroutine c) calls.
Proof.
  unfold setupRaft, readPeersJSON. eff_unfold.
  destruct (o h (ioutil_ReadFile _)) as [b [[e []]|]] eqn:Hread; cbn beta iota.
  all: eff_cases o.
  all: eexists _, _; (split; [rewrite <- ?app_assoc; reflexivity|]); cbn [app].
  all: repeat (constructor; [simpl; tauto|]); constructor.
Qed.

Lemma setupSerf_quiet (o : list setupCall -> forall c, setupAnswer c)
    (h : list setupCall) :
  exists r calls,
    setupSerf config o h = (Ok r, h ++ calls) /\
    Forall (fun c => ~ late_goroutine c) calls.
Proof.
  unfold setupSerf. eff_unfold. eff_cases o.
  all: eexists _, _; (split; [rewrite <- ?app_assoc; reflexivity|]); cbn [app].
  all: repeat (constructor; [simpl; tauto|]); constructor.
Qed.

(** X18.  [setupSerf] goes through its plan and stops at the first call
    that fails, returning that call's error: the address of the interface,
    then the creation of serf at that address, under the configured name
    and serf port, with tags by which the handlers of the other nodes
    recognise a balancer and read its raft port, then the start of the
    event handler.  So it returns nil exactly when the address and the
    creation succeeded, and exactly then the event handler is started. *)
Theorem setupSerf_advertises_a_balancer
    (o : list setupCall -> forall c, setupAnswer c) (h : list setupCall) :
  let ip := ip_after o h in
  let plan := serf_plan config ip in
  let r := (upToFailure o h plan).1 in
  let calls := (upToFailure o h plan).2 in
  setupSerf config o h = (Ok r, h ++ calls) /\
  (r = None <->
     all_succeed o h [config_GetIpByInterface; serf_Create (serf_conf config ip)]) /\
  (go_handleEvents ∈ calls <-> r = None) /\
  (r = None -> calls = plan) /\
  BindAddr (serf_conf config ip) = ip /\
  NodeName (serf_conf config ip) = Name config /\
  BindPort (serf_conf config ip) = default 0 (Ports config !! "serf") /\
  (forall name addr,
     let m := membership.mkMember name addr (Tags (serf_conf config ip)) in
     membership.isBalancer m = true /\
     membership.tag m "raft-port"
       = strconv_Itoa (default 0 (Ports config !! "raft"))).
Proof.
  cbv zeta.
  assert (Hnil : (upToFailure o h (serf_plan config (ip_after o h))).1 = None <->
                 all_succeed o h [config_GetIpByInterface;
                                  serf_Create (serf_conf config (ip_after o h))]).
  { rewrite upToFailure_None. unfold serf_plan. cbn [all_succeed refusal]. tauto. }
  split; [|split; [done|split; [|split]]].
  - unfold setupSerf, serf_plan, serf_conf, ip_after.
    eff_unfold; plan_cases o; reflexivity.
  - rewrite Hnil.
    apply (upToFailure_reaches o
             [config_GetIpByInterface; serf_Create (serf_conf config (ip_after o h))]
             [] go_handleEvents h).
    intros Hin; in_calls Hin.
  - intros Hr. by apply upToFailure_all, upToFailure_None.
  - repeat split; try done;
      unfold membership.isBalancer, membership.tag, serf_conf;
      cbn [membership.Tags Tags];
      rewrite ?lookup_insert_ne by done; by rewrite lookup_insert.
Qed.

(** X19.  [NewBalancer] asks for the provider, then for the engine, then
    runs [setupRaft], then [setupSerf], then flushes the VIPs of the
    configured interface, and stops at the first of the five that fails: it
    returns the error of the provider or of the engine as it is, and the
    error of the other three behind a prefix that names the step.  When all
    five succeeded, and only then, it returns a Balancer, after starting
    the leader watcher and, when the interval of the statistics is positive,
    the statistics ticker.  When it returns an error it has started neither
    of the two. *)
Theorem NewBalancer_starts_the_watchers_after_the_flush
    (o : list setupCall -> forall c, setupAnswer c) (h : list setupCall) :
  let iface := default "" (Provider_Params config !! "interface") in
  let h0 := h ++ [provider_New; engine_New] in
  exists r1 c1 r2 c2,
    setupRaft config o h0 = (Ok r1, h0 ++ c1) /\
    setupSerf config o (h0 ++ c1) = (Ok r2, (h0 ++ c1) ++ c2) /\
    let flush := o ((h0 ++ c1) ++ c2) (fusis_net_DelVips iface) in
    let late := go_watchLeaderChanges
                :: (if decide (Stats_Interval config > 0)
                    then [go_collectStats] else []) in
    let result : option error * list setupCall :=
      match o h provider_New with
      | Some e => (Some e, [provider_New])
      | None =>
      match o (h ++ [provider_New]) engine_New with
      | Some e => (Some e, [provider_New; engine_New])
      | None =>
      match r1 with
      | Some e => (Some (Errorf ("error setting up Raft: " +:+ error_text e)),
                   [provider_New; engine_New] ++ c1)
      | None =>
      match r2 with
      | Some e => (Some (Errorf ("error setting up Serf: " +:+ error_text e)),
                   [provider_New; engine_New] ++ c1 ++ c2)
      | None =>
      match flush with
      | Some e => (Some (Errorf ("error cleaning up network vips: "
                                 +:+ error_text e)),
                   [provider_New; engine_New] ++ c1 ++ c2
                   ++ [fusis_net_DelVips iface])
      | None => (None, [provider_New; engine_New] ++ c1 ++ c2
                       ++ [fusis_net_DelVips iface] ++ late)
      end end end end end in
    NewBalancer config o h = (Ok result.1, h ++ result.2) /\
    (result.1 = None <->
       o h provider_New = None /\ o (h ++ [provider_New]) engine_New = None /\
       r1 = None /\ r2 = None /\ flush = None) /\
    (result.1 <> None -> Forall (fun c => ~ late_goroutine c) result.2) /\
    (result.1 = None -> exists pre, result.2 = pre ++ late /\
                                    Forall (fun c => ~ late_goroutine c) pre).
Proof.
  intros iface h0.
  destruct (setupRaft_quiet o h0) as (r1 & c1 & Hraft & Hq1).
  destruct (setupSerf_quiet o (h0 ++ c1)) as (r2 & c2 & Hserf & Hq2).
  exists r1, c1, r2, c2. split; [done|]. split; [done|]. cbv zeta.
  assert (Hpre : Forall (fun c => ~ late_goroutine c)
                   ([provider_New; engine_New] ++ c1 ++ c2
                    ++ [fusis_net_DelVips iface])).
  { cbn [app]. repeat (constructor; [simpl; tauto|]).
    rewrite !Forall_app. repeat split; try done.
    repeat (constructor; [simpl; tauto|]). constructor. }
  unfold NewBalancer. fold iface.
  unfold mbind at 1, Eff_bind at 1, ask at 1.
  destruct (o h provider_New) as [e|] eqn:Hprov; cbn beta iota.
  { eff_unfold. cbn [fst snd]. split; [done|]. split; [by split; [|intros [? _]]|].
    split; [|done]. intros _. repeat (constructor; [simpl; tauto|]). constructor. }
  unfold mbind at 1, Eff_bind at 1, ask at 1.
  destruct (o (h ++ [provider_New]) engine_New) as [e|] eqn:Heng; cbn beta iota.
  { eff_unfold. cbn [fst snd]. split; [by rewrite <- app_assoc|].
    split; [by split; [|intros (_ & ? & _)]|].
    split; [|done]. intros _. repeat (constructor; [simpl; tauto|]). constructor. }
  unfold mbind at 1, Eff_bind at 1.
  replace ((h ++ [provider_New]) ++ [engine_New]) with h0
    by (subst h0; by rewrite <- app_assoc).
  rewrite Hraft.
  destruct r1 as [e|]; cbn beta iota.
  { eff_unfold. cbn [fst snd]. split; [subst h0; by rewrite <- app_assoc|].
    split; [by split; [|intros (_ & _ & ? & _)]|].
    split; [|done]. intros _. cbn [app]. repeat (constructor; [simpl; tauto|]). done. }
  unfold mbind at 1, Eff_bind at 1. rewrite Hserf.
  destruct r2 as [e|]; cbn beta iota.
  { eff_unfold. cbn [fst snd]. split; [subst h0; by rewrite <- !app_assoc|].
    split; [by split; [|intros (_ & _ & _ & ? & _)]|].
    split; [|done]. intros _. cbn [app]. repeat (constructor; [simpl; tauto|]).
    by apply Forall_app. }
  unfold mbind at 1, Eff_bind at 1, ask at 1.
  destruct (o ((h0 ++ c1) ++ c2) (fusis_net_DelVips iface)) as [e|] eqn:Hdel;
    cbn beta iota.
  { eff_unfold. cbn [fst snd]. split; [subst h0; by rewrite <- !app_assoc|].
    split; [by split; [|intros (_ & _ & _ & _ & ?)]|].
    split; [|done]. by intros _. }
  eff_unfold. cbn [fst snd].
  split.
  { destruct (decide (Stats_Interval config > 0)); cbn beta iota;
      subst h0; rewrite <- !app_assoc; reflexivity. }
  split; [done|]. split; [done|]. intros _.
  exists ([provider_New; engine_New] ++ c1 ++ c2 ++ [fusis_net_DelVips iface]).
  split; [by rewrite <- !app_assoc|done].
Qed.

End StartupFacts.

(** ** The etcd store *)

Section EtcdFacts.
Import effects etcd.
Context {L : Lib}.

(** X20.  [keyExists] asks for the key once.  It says that the key exists
    exactly when [Get] answered without error, and it returns an error
    exactly when [Get] failed with something other than a client error of
    code 100, 102 or 104; it never says both. *)
Theorem keyExists_reports_presence_or_error
    (key : string) (o : list kvCall -> forall c, kvAnswer c) (h : list kvCall) :
  exists found err,
    keyExists key o h = (Ok (found, err), h ++ [client_Get key]) /\
    (found = true <-> o h (client_Get key) = None) /\
    (err = None <->
       o h (client_Get key) = None \/
       exists code msg, o h (client_Get key) = Some (client_Error code msg) /\
                        (code = 100 \/ code = 102 \/ code = 104)) /\
    (forall e, err = Some e -> o h (client_Get key) = Some e /\ found = false).
Proof.
  unfold keyExists. eff_unfold.
  destruct (o h (client_Get key)) as [[code msg|e]|] eqn:Hget; cbn [keyNotFound].
  1: unfold ErrorCodeKeyNotFound, ErrorCodeNotFile, ErrorCodeNotDir;
     case_bool_decide as Hcode.
  all: eexists _, _; (split; [reflexivity|]).
  all: repeat split; intros; try done;
    try (right; by exists code, msg); try (by left).
  all: repeat match goal with
              | H : _ \/ _ |- _ => destruct H
              | H : exists _, _ |- _ => destruct H
              | H : _ /\ _ |- _ => destruct H
              end; simplify_eq; tauto.
Qed.

(** The run of [keyExists], by the answer of [Get]. *)
Lemma keyExists_run (key : string) (o : list kvCall -> forall c, kvAnswer c)
    (h : list kvCall) :
  exists err,
    keyExists key o h
      = (Ok (bool_decide (o h (client_Get key) = None), err), h ++ [client_Get key]).
Proof.
  unfold keyExists. eff_unfold.
  destruct (o h (client_Get key)) as [e|] eqn:Hget.
  - destruct (keyNotFound (Some e)); by eexists.
  - by eexists.
Qed.

(** X21.  [AddService] refuses with [Services already exists] exactly when
    [Get] of the service's key answered without error, and then writes
    nothing.  Whenever [Get] failed, for whatever reason, it encodes the
    request and sets the key, and returns what the encoder or [Set]
    returned: an error of the existence check is dropped. *)
Theorem AddService_sets_the_key_whenever_Get_failed
    (svc : ServiceRequest) (o : list kvCall -> forall c, kvAnswer c)
    (h : list kvCall) :
  let key := serviceKey svc in
  exists r calls,
    AddService svc o h = (Ok r, h ++ client_Get key :: calls) /\
    (o h (client_Get key) = None ->
       r = Some (otherError (Errorf "Services already exists")) /\ calls = []) /\
    (o h (client_Get key) <> None ->
       match json_Marshal svc with
       | inr err => r = Some (otherError err) /\ calls = []
       | inl value =>
           calls = [client_Set key value] /\
           r = o (h ++ [client_Get key]) (client_Set key value)
       end).
Proof.
  intros key. unfold AddService. fold key.
  unfold mbind at 1, Eff_bind at 1.
  destruct (keyExists_run key o h) as [err ->]. cbn [fst].
  case_bool_decide as Hget.
  - eff_unfold. eexists _, []. by repeat split.
  - destruct (json_Marshal svc) as [value|merr] eqn:Hm.
    + eff_unfold. eexists _, [_]. rewrite <- app_assoc.
      split; [reflexivity|]. by split.
    + eff_unfold. eexists _, []. split; [reflexivity|]. by split.
Qed.

(** X22.  [UpdateService] updates the key exactly when [Get] of it answered
    without error and the request could be encoded; it returns what the
    encoder or [Update] returned.  Whenever [Get] failed, for whatever
    reason, it writes nothing and returns [Services does not exists.] *)
Theorem UpdateService_needs_a_successful_Get
    (svc : ServiceRequest) (o : list kvCall -> forall c, kvAnswer c)
    (h : list kvCall) :
  let key := serviceKey svc in
  exists r calls,
    UpdateService svc o h = (Ok r, h ++ client_Get key :: calls) /\
    (o h (client_Get key) <> None ->
       r = Some (otherError (Errorf "Services does not exists.")) /\ calls = []) /\
    (o h (client_Get key) = None ->
       match json_Marshal svc with
       | inr err => r = Some (otherError err) /\ calls = []
       | inl value =>
           calls = [client_Update key value] /\
           r = o (h ++ [client_Get key]) (client_Update key value)
       end).
Proof.
  intros key. unfold UpdateService. fold key.
  unfold mbind at 1, Eff_bind at 1.
  destruct (keyExists_run key o h) as [err ->]. cbn [fst].
  case_bool_decide as Hget; cbn [negb].
  - destruct (json_Marshal svc) as [value|merr] eqn:Hm.
    + eff_unfold. eexists _, [_]. rewrite <- app_assoc.
      split; [reflexivity|]. by split.
    + eff_unfold. eexists _, []. split; [reflexivity|]. by split.
  - eff_unfold. eexists _, []. by repeat split.
Qed.

(** [processChange] is its one matcher. *)
Lemma processChange_matcher (r : Response.t) :
  processChange r = processServiceChange r.
Proof.
  unfold processChange, matchLoop.
  destruct (processServiceChange r) as [[v err]|msg]; [|done].
  case_decide as Hv; [done|].
  destruct v, err; try done; destruct Hv; auto.
Qed.

(** X23.  [processChange] returns an event only for a key of a service and
    one of the four actions, and never next to an error.  The request in the
    event is what the decoder left, whether or not it reported an error;
    for a delete it is decoded from the previous node, otherwise from the
    node.  Nothing at all, neither event nor error, is returned exactly for
    a key that is no key of a service.  The function panics exactly when
    the node is nil, or the previous node is nil in a delete of a service
    key. *)
Theorem processChange_event_only_for_service_keys (r : Response.t) :
  (forall ev err, processChange r = Ok (Some ev, err) ->
     err = None /\ service_key r /\
     match ev with
     | ServiceCreate s =>
         (Response.Action r = "create" \/ Response.Action r = "set") /\
         exists node, Response.Node r = Some node /\
                      s = (json_Unmarshal (Node.Value node)).1
     | ServiceUpdate s =>
         Response.Action r = "update" /\
         exists node, Response.Node r = Some node /\
                      s = (json_Unmarshal (Node.Value node)).1
     | ServiceDelete s =>
         Response.Action r = "delete" /\
         exists prev, Response.PrevNode r = Some prev /\
                      s = (json_Unmarshal (Node.Value prev)).1
     end) /\
  (processChange r = Ok (None, None) <->
     Response.Node r <> None /\ ~ service_key r) /\
  ((exists msg, processChange r = Panicked msg) <->
     Response.Node r = None \/
     (service_key r /\ Response.Action r = "delete" /\ Response.PrevNode r = None)).
Proof.
  rewrite processChange_matcher. unfold processServiceChange, service_key,
    getValueFromJson, createEvent, setEvent, updateEvent, deleteEvent.
  destruct (Response.Node r) as [node|] eqn:Hnode.
  2: { split; [done|]. split; [by intros; split; [|intros []]|].
       split; [by left|by eexists]. }
  case_decide as Hlen.
  { split; [done|]. split.
    - split; [intros _; split; [done|]|done].
      intros (n & [= <-] & Hn). by rewrite Hn in Hlen.
    - split; [by intros []|]. intros [[=]|((n & [= <-] & Hn) & _)]. lia. }
  assert (Hkey : exists n, Some node = Some n /\
                   length (regexp_FindStringSubmatch (Node.Key n)) = 4%nat).
  { exists node. split; [done|]. lia. }
  case_decide as Hcreate.
  { split; [intros ev err [= <- <-]; repeat split; try done; by exists node|].
    split; [split; [done|by intros [_ []]]|].
    split; [by intros []|]. intros [[=]|(_ & Hd & _)].
    rewrite Hd in Hcreate. by destruct Hcreate. }
  case_decide as Hupdate.
  { split; [intros ev err [= <- <-]; repeat split; try done; by exists node|].
    split; [split; [done|by intros [_ []]]|].
    split; [by intros []|]. intros [[=]|(_ & Hd & _)]. by rewrite Hd in Hupdate. }
  case_decide as Hdelete.
  { destruct (Response.PrevNode r) as [prev|] eqn:Hprev.
    - split; [intros ev err [= <- <-]; repeat split; try done; by exists prev|].
      split; [split; [done|by intros [_ []]]|].
      split; [by intros []|]. by intros [[=]|(_ & _ & [=])].
    - split; [done|]. split; [split; [done|by intros [_ []]]|].
      split; [by right|by eexists]. }
  split; [done|]. split; [split; [done|by intros [_ []]]|].
  split; [by intros []|]. by intros [[=]|(_ & Hd & _)].
Qed.

(** The loop of [Subscribe] over responses that the watcher feeds. *)
Lemma watchLoop_run (o : list kvCall -> forall c, kvAnswer c)
    (rs : list Response.t) (e : kvError) :
  forall (h : list kvCall) (fuel : nat),
    feeds o h rs e -> Forall handled rs -> (length rs < fuel)%nat ->
    watchLoop fuel o h = (Ok (Some e), h ++ turns rs ++ [watcher_Next]).
Proof.
  induction rs as [|r rs IH]; intros h fuel Hfeed Hok Hfuel.
  - destruct fuel as [|fuel]; [simpl in Hfuel; lia|].
    simpl in Hfeed. cbn [watchLoop]. eff_unfold. by rewrite Hfeed.
  - destruct fuel as [|fuel]; [simpl in Hfuel; lia|].
    destruct Hfeed as [Hnext Hfeed]. apply Forall_cons in Hok as [[res Hr] Hok].
    cbn [watchLoop]. eff_unfold. rewrite Hnext. cbn beta iota.
    unfold eventOf in Hfeed |- *. unfold turns. cbn [mbind list_bind app].
    unfold eventOf at 1. rewrite Hr in Hfeed |- *. destruct res as [event err].
    cbn beta iota in Hfeed |- *. fold (watchLoop fuel).
    rewrite <- app_assoc. cbn [app].
    rewrite (IH _ fuel Hfeed Hok) by (simpl in Hfuel; lia).
    by rewrite <- !app_assoc.
Qed.

(** X24.  [Subscribe] opens one watcher on [/fusis/services] and then, for
    every response of the watcher, sends exactly one value on the channel
    before it asks for the next response: the event of the response, or the
    nil value when the response is no change of a service or carries an
    action that is not supported.  It returns the first error of the
    watcher. *)
Theorem Subscribe_forwards_every_response_until_the_watcher_fails
    (o : list kvCall -> forall c, kvAnswer c) (h : list kvCall)
    (rs : list Response.t) (e : kvError) (fuel : nat)
    (Hfeed : feeds o (h ++ [client_Watcher "/fusis/services"]) rs e)
    (Hhandled : Forall handled rs)
    (Hfuel : (length rs < fuel)%nat) :
  Subscribe fuel o h
    = (Ok (Some e),
       h ++ [client_Watcher "/fusis/services"] ++ turns rs ++ [watcher_Next]) /\
  Forall (fun r =>
            (eventOf r = None <->
               ~ service_key r \/
               Response.Action r ∉ ["create"; "set"; "update"; "delete"])) rs.
Proof.
  split.
  - unfold Subscribe. unfold mbind at 1, Eff_bind at 1, ask at 1.
    rewrite (watchLoop_run o rs e _ fuel Hfeed Hhandled Hfuel).
    by rewrite <- app_assoc.
  - eapply Forall_impl; [exact Hhandled|]. intros r [res Hr].
    unfold eventOf. rewrite Hr. destruct res as [ev err].
    rewrite processChange_matcher in Hr.
    unfold processServiceChange, createEvent, setEvent, updateEvent,
      deleteEvent in Hr.
    destruct (Response.Node r) as [node|] eqn:Hnode; [|done].
    unfold service_key. rewrite Hnode.
    case_decide as Hlen.
    { injection Hr as <- <-. split; [|done]. intros _. left.
      intros (n & [= <-] & Hn). by rewrite Hn in Hlen. }
    assert (Hkey : exists n, Some node = Some n /\
                     length (regexp_FindStringSubmatch (Node.Key n)) = 4%nat).
    { exists node. split; [done|]. lia. }
    case_decide as Hcreate.
    { injection Hr as <- <-. split; [done|]. intros [Hn|Hn]; [done|].
      destruct Hn. destruct Hcreate as [-> | ->]; repeat constructor. }
    case_decide as Hupdate.
    { injection Hr as <- <-. split; [done|]. intros [Hn|Hn]; [done|].
      destruct Hn. rewrite Hupdate. repeat constructor. }
    case_decide as Hdelete.
    { destruct (Response.PrevNode r); [|done].
      injection Hr as <- <-. split; [done|]. intros [Hn|Hn]; [done|].
      destruct Hn. rewrite Hdelete. repeat constructor. }
    injection Hr as <- <-. split; [|done]. intros _. right.
    rewrite !elem_of_cons, elem_of_nil. tauto.
Qed.

End EtcdFacts.

(** ** The further properties on concrete inputs *)

Section Scenarios.
Import examples scenarios.
#[local] Existing Instance byName.
#[local] Existing Instance listOrder.
#[local] Existing Instance demoJson.

Lemma built_Catalog_stores_entries_under_their_id_witness :
  (forall k svc, Services webCatalog !! k = Some svc -> Service_GetId svc = k) /\
  (forall k d, Destinations webCatalog !! k = Some d -> Destination_GetId d = k) /\
  (forall name d, (GetDestination name webCatalog).1 = inl d ->
                  Destination_GetId d = name).
Proof.
  apply (built_Catalog_stores_entries_under_their_id webCatalog).
  apply built_webCatalog.
Defined.

Lemma add_then_get_delete_then_get_witness :
  (exists dsts,
     (GetService (Service_GetId api) (AddService api webCatalog)).1
       = inl (Service.with_Destinations dsts api) /\
     forall d, d ∈ dsts <->
       (exists k, Destinations webCatalog !! k = Some d) /\
       Destination.ServiceId d = Service_GetId api) /\
  (GetService (Service_GetId api) (DeleteService api webCatalog)).1
    = inr ErrServiceNotFound /\
  (GetDestination (Destination_GetId web2) (AddDestination web2 webCatalog)).1
    = inl web2 /\
  (GetDestination (Destination_GetId web2) (DeleteDestination web2 webCatalog)).1
    = inr ErrDestinationNotFound.
Proof.
  apply (add_then_get_delete_then_get webCatalog api web2); discriminate.
Defined.

Lemma independent_mutations_commute_witness :
  let s := webCatalog in
  AddService web (AddService api s) = AddService api (AddService web s) /\
  AddService web (DeleteService api s) = DeleteService api (AddService web s) /\
  DeleteService web (DeleteService api s) = DeleteService api (DeleteService web s) /\
  AddDestination web1 (AddDestination web2 s)
    = AddDestination web2 (AddDestination web1 s) /\
  AddDestination web1 (DeleteDestination web2 s)
    = DeleteDestination web2 (AddDestination web1 s) /\
  DeleteDestination web1 (DeleteDestination web2 s)
    = DeleteDestination web2 (DeleteDestination web1 s) /\
  AddService web (AddDestination web1 s) = AddDestination web1 (AddService web s) /\
  AddService web (DeleteDestination web1 s)
    = DeleteDestination web1 (AddService web s) /\
  DeleteService web (AddDestination web1 s)
    = AddDestination web1 (DeleteService web s) /\
  DeleteService web (DeleteDestination web1 s)
    = DeleteDestination web1 (DeleteService web s) /\
  Destinations (AddService web s) = Destinations s /\
  Destinations (DeleteService web s) = Destinations s /\
  Services (AddDestination web1 s) = Services s /\
  Services (DeleteDestination web1 s) = Services s.
Proof.
  cbv zeta.
  apply (independent_mutations_commute webCatalog web api web1 web2); discriminate.
Defined.

Lemma SyncVIPs_returns_the_listing_error_witness :
  let E := listFailEnv in
  provider.SyncVIPs (provider.mkNone "eth0") webCatalog (mkWorld webCatalog [])
  = (Ok (Some (SysErr "no such device")),
     mkWorld webCatalog ([] ++ [net_GetFusisVipsIps "eth0"])).
Proof.
  cbv zeta.
  apply (SyncVIPs_returns_the_listing_error (E := listFailEnv)
           (provider.mkNone "eth0") webCatalog (mkWorld webCatalog [])
           (SysErr "no such device")).
  reflexivity.
Defined.

(** The one address that [webCatalog] wants bound. *)
Lemma webCatalog_wanted (ip : string) :
  ip ∈ ["10.0.0.1"] <-> wanted webCatalog ip.
Proof.
  rewrite elem_of_cons, elem_of_nil. split.
  - intros [->|[]]. by exists "web", web.
  - intros (k & svc & Hk & <-).
    unfold webCatalog, AddDestination, AddService in Hk. cbn in Hk.
    apply lookup_insert_Some in Hk as [[_ <-]|[_ Hk]]; [by left|].
    by rewrite lookup_empty in Hk.
Qed.

Lemma SyncVIPs_in_sync_changes_nothing_witness :
  let E := calmEnv Leader ["10.0.0.1"] [] in
  provider.SyncVIPs (provider.mkNone "eth0") webCatalog (mkWorld webCatalog [])
  = (Ok None, mkWorld webCatalog ([] ++ [net_GetFusisVipsIps "eth0"])).
Proof.
  cbv zeta.
  apply (SyncVIPs_in_sync_changes_nothing (E := calmEnv Leader ["10.0.0.1"] [])
           (provider.mkNone "eth0") webCatalog (mkWorld webCatalog [])
           ["10.0.0.1"]).
  - reflexivity.
  - apply NoDup_singleton.
  - apply webCatalog_wanted.
Defined.

Lemma Apply_of_an_unknown_op_only_reconciles_witness :
  let E := calmEnv Follower [] [] in
  let J := oddJson in
  exists err w',
    fusis.handleStateChange (mkWorld webCatalog []) = (Ok err, w') /\
    State w' = webCatalog /\
    sched.run 6 fusis.watchState
      (sched.mkSystem (Apply (mkLog "op 7")) fusis.watchState
                      (mkWorld webCatalog []) 0%nat [])
    = sched.Returned err
        (sched.mkSystem (Ret err) (Ret tt) w' 1%nat
                        [sched.Request 0%nat; sched.Reply 0%nat err]).
Proof.
  cbv zeta.
  apply (Apply_of_an_unknown_op_only_reconciles
           (E := calmEnv Follower [] []) (J := oddJson)
           (mkLog "op 7") (mkCommand 7 None None) (mkWorld webCatalog []) 0%nat);
    [reflexivity|discriminate..].
Defined.

(** C1, at an input where the claim fails without the payload.  The data
    of the entry decodes to a Command, an AddService whose Service is nil.
    [Apply] returns no reply: whatever the number of steps, the run ends
    crashed on the nil pointer at its first step, with the Catalog as it was
    and nothing sent on the request channel. *)
Lemma Apply_of_decoded_Command_without_payload_crashes :
  let E := calmEnv Follower [] [] in
  let J := oddJson in
  json_Unmarshal_Command (Data (mkLog "add nothing"))
    = inl (mkCommand AddServiceOp None None) /\
  (forall fuel,
     sched.run (S fuel) fusis.watchState
       (sched.mkSystem (Apply (mkLog "add nothing")) fusis.watchState
                       (mkWorld webCatalog []) 0%nat [])
     = sched.Crashed
         "runtime error: invalid memory address or nil pointer dereference"
         (sched.mkSystem (Apply (mkLog "add nothing")) fusis.watchState
                         (mkWorld webCatalog []) 0%nat [])).
Proof. cbv zeta. split; [reflexivity|]. intros fuel. reflexivity. Qed.

Lemma Apply_panics_on_missing_payload_witness :
  let E := calmEnv Follower [] [] in
  let J := oddJson in
  sched.run 6 fusis.watchState
    (sched.mkSystem (Apply (mkLog "add nothing")) fusis.watchState
                    (mkWorld webCatalog []) 0%nat [])
  = sched.Crashed "runtime error: invalid memory address or nil pointer dereference"
      (sched.mkSystem (Apply (mkLog "add nothing")) fusis.watchState
                      (mkWorld webCatalog []) 0%nat []).
Proof.
  cbv zeta.
  apply (Apply_panics_on_missing_payload
           (E := calmEnv Follower [] []) (J := oddJson)
           (mkLog "add nothing") (mkCommand AddServiceOp None None)
           (mkWorld webCatalog []) 0%nat 5).
  - reflexivity.
  - left. split; [by left|done].
Defined.

Lemma Apply_is_served_after_an_earlier_reply_witness :
  let E := calmEnv Follower [] [] in
  exists st' err w',
    applyCommand (mkLog "add web-1") (mkWorld webCatalog [])
      = (Ok tt, mkWorld st' []) /\
    fusis.handleStateChange (mkWorld st' []) = (Ok err, w') /\
    sched.run 7 fusis.watchState
      (sched.mkSystem (Apply (mkLog "add web-1")) (Ret tt)
                      (mkWorld webCatalog []) 1%nat
                      [sched.Request 0%nat; sched.Reply 0%nat None])
    = sched.Returned err
        (sched.mkSystem (Ret err) (Ret tt) w' 2%nat
                        ([sched.Request 0%nat; sched.Reply 0%nat None]
                         ++ [sched.Request 1%nat; sched.Reply 1%nat err])).
Proof.
  cbv zeta.
  apply (Apply_is_served_after_an_earlier_reply
           (E := calmEnv Follower [] [])
           (mkLog "add web-1") (mkCommand AddDestinationOp None (Some web1))
           (mkWorld webCatalog []) 1%nat
           [sched.Request 0%nat; sched.Reply 0%nat None]).
  - reflexivity.
  - split; [intros [?|?]; done | intros _; by eexists].
Defined.

Lemma leave_event_removes_its_balancers_on_the_leader_witness :
  let E := calmEnv Leader [] [] in
  let L := goLib in
  membership.handleEvent noDestination deleteNothing
    (membership.EventMemberFailed [agent1; lb2]) (mkWorld webCatalog [])
  = (Ok tt,
     mkWorld webCatalog
       [logger_Error ("handleAgenteLeave failed "
                      +:+ error_text ErrDestinationNotFound);
        raft_State; raft_RemovePeer "10.0.0.2:4040"]).
Proof.
  cbv zeta.
  rewrite (proj1 (leave_event_removes_its_balancers_on_the_leader
                    (E := calmEnv Leader [] []) (L := goLib)
                    noDestination deleteNothing true [agent1; lb2]
                    (mkWorld webCatalog []))).
  reflexivity.
Defined.

Lemma Shutdown_with_unreadable_peers_skips_the_leave_witness :
  let E := peersFailEnv in
  let failure :=
    logger_Error ("balancer: failed to check raft peers: "
                  +:+ error_text (SysErr "open peers.json: permission denied")) in
  exists stopLog,
    Forall is_log stopLog /\
    fusis.Leave node 1 (mkWorld webCatalog [])
    = (Ok (Some tt), mkWorld webCatalog ([] ++ [raftPeers_Peers; failure])) /\
    fusis.Shutdown node 1 (mkWorld webCatalog [])
    = (Ok (Some tt),
       mkWorld webCatalog
         ([] ++ [raftPeers_Peers; failure]
             ++ [serf_Shutdown; raft_Shutdown] ++ stopLog
             ++ (if fusis.raftStore node then [raftStore_Close] else [])
             ++ [raftPeers_SetPeers []])).
Proof.
  cbv zeta.
  apply (Shutdown_with_unreadable_peers_skips_the_leave (E := peersFailEnv)
           node 1 (mkWorld webCatalog [])
           (SysErr "open peers.json: permission denied"));
    reflexivity.
Defined.

Lemma Leave_sleeps_no_longer_than_the_grace_period_witness :
  let E := sleepyEnv Follower twoPeers in
  exists calls,
    fusis.Leave node 101 (mkWorld webCatalog [])
      = (Ok (Some tt), mkWorld webCatalog ([] ++ calls)) /\
    totalSleep calls <= fusis.raftRemoveGracePeriod.
Proof.
  cbv zeta.
  apply (Leave_sleeps_no_longer_than_the_grace_period
           (E := sleepyEnv Follower twoPeers) node 101 (mkWorld webCatalog [])).
  - apply sleepyEnv_clock_advances.
  - lia.
Defined.

Lemma Subscribe_forwards_every_response_until_the_watcher_fails_witness :
  let L := etcdLib in
  let stop := etcd.otherError (SysErr "context canceled") in
  etcd.Subscribe 3 (watcherOf [created; unrelated] stop) []
    = (Ok (Some stop),
       [] ++ [etcd.client_Watcher "/fusis/services"]
          ++ turns [created; unrelated] ++ [etcd.watcher_Next]) /\
  Forall (fun r =>
            (eventOf r = None <->
               ~ service_key r \/
               etcd.Response.Action r ∉ ["create"; "set"; "update"; "delete"]))
         [created; unrelated].
Proof.
  cbv zeta.
  apply (Subscribe_forwards_every_response_until_the_watcher_fails (L := etcdLib)
           (watcherOf [created; unrelated]
                      (etcd.otherError (SysErr "context canceled")))
           [] [created; unrelated]
           (etcd.otherError (SysErr "context canceled")) 3).
  - repeat split.
  - repeat constructor; by eexists.
  - simpl. lia.
Defined.

End Scenarios.
